(** * Firmata client (platforms/firmata/client/client.go)

    A shallow embedding of the Firmata wire client: the 7-bit codec, the
    frame reader, the dispatcher ([process]), the request encoders and the
    bring-up handshake of [Connect].

    Conventions.
    - A Go [byte] is a [Z] in [0, 256); byte arithmetic is reduced with
      [byte_of].  A Go [int] is a [Z]; [int_of] is written where the source
      can leave the 64-bit range.
    - [[]Pin] and [[]int] are lists read with stdpp's [!!] and written with
      [<[i:=x]>]; every access goes through [index]/[slice], which write out
      Go's bounds checks (a failed check is a run-time panic).
    - Go maps are [gmap]s; a channel is the number [make] gave it.
    - Stateful code lives in the monad [M]: a function from the client to a
      [result], which is a normal return, a returned [error], a panic, or
      [Blocked] when the loop fuel is used up (the Go code would still be
      waiting for the transport). *)

From Stdlib Require Import ZArith Lia List String Ascii DecimalString Sorted.
From stdpp Require Import base list gmap strings.

Local Open Scope Z_scope.

(** ** Constants *)

(* Pin Modes *)
Definition Input : Z := 0x00.
Definition Output : Z := 0x01.
Definition Analog : Z := 0x02.
Definition Pwm : Z := 0x03.
Definition Servo : Z := 0x04.

(* Sysex Codes *)
Definition ProtocolVersion : Z := 0xF9.
Definition SystemReset : Z := 0xFF.
Definition DigitalMessage : Z := 0x90.
Definition DigitalMessageRangeStart : Z := 0x90.
Definition DigitalMessageRangeEnd : Z := 0x9F.
Definition AnalogMessage : Z := 0xE0.
Definition AnalogMessageRangeStart : Z := 0xE0.
Definition AnalogMessageRangeEnd : Z := 0xEF.
Definition ReportAnalog : Z := 0xC0.
Definition ReportDigital : Z := 0xD0.
Definition PinMode : Z := 0xF4.
Definition StartSysex : Z := 0xF0.
Definition EndSysex : Z := 0xF7.
Definition CapabilityQuery : Z := 0x6B.
Definition CapabilityResponse : Z := 0x6C.
Definition PinStateQuery : Z := 0x6D.
Definition PinStateResponse : Z := 0x6E.
Definition AnalogMappingQuery : Z := 0x69.
Definition AnalogMappingResponse : Z := 0x6A.
Definition StringData : Z := 0x71.
Definition I2CRequest : Z := 0x76.
Definition I2CReply : Z := 0x77.
Definition I2CConfig : Z := 0x78.
Definition FirmwareQuery : Z := 0x79.
Definition I2CModeWrite : Z := 0x00.
Definition I2CModeRead : Z := 0x01.
Definition I2CmodeContinuousRead : Z := 0x02.
Definition I2CModeStopReading : Z := 0x03.
Definition ServoConfig : Z := 0x70.

(** ** Machine arithmetic *)

(** Conversion to [byte]: the low eight bits. *)
Definition byte_of (z : Z) : Z := z mod 256.

(** Conversion to a 64-bit [int] (two's complement wrap-around). *)
Definition int_of (z : Z) : Z := (z + 2 ^ 63) mod 2 ^ 64 - 2 ^ 63.

(** [a | b<<7] on two [byte] operands: the shift is done in eight bits. *)
Definition byte_join (lo hi : Z) : Z :=
  Z.lor (byte_of lo) (byte_of (Z.shiftl (byte_of hi) 7)).

(** [len(l)] as a Go [int]. *)
Definition len {A} (l : list A) : Z := Z.of_nat (length l).

(** [l[i]], [None] when the bounds check fails. *)
Definition index {A} (l : list A) (i : Z) : option A :=
  if (0 <=? i) && (i <? len l) then l !! Z.to_nat i else None.

(** [l[lo:hi]], [None] when the bounds check fails.  Go accepts [hi] up to
    the capacity of the slice; the bytes between length and capacity depend
    on how the run time grew the buffer, so the model takes the length as
    the capacity. *)
Definition slice {A} (l : list A) (lo hi : Z) : option (list A) :=
  if (0 <=? lo) && (lo <=? hi) && (hi <=? len l)
  then Some (take (Z.to_nat (hi - lo)) (drop (Z.to_nat lo) l))
  else None.

(** [string(bytes)] *)
Definition string_of_bytes (l : list Z) : string :=
  string_of_list_ascii (map (fun z => ascii_of_N (Z.to_N (byte_of z))) l).

(** [fmt.Sprintf("%v", b)] for a byte. *)
Definition decimal (b : Z) : string :=
  NilEmpty.string_of_uint (N.to_uint (Z.to_N b)).

(** ** Data model *)

(** Pin represents a pin on the firmata board *)
Record Pin := mkPin {
  SupportedModes : list Z;
  Mode : Z;
  Value : Z;
  State : Z;
  AnalogChannel : Z
}.

Definition set_Mode (m : Z) (p : Pin) : Pin :=
  mkPin (SupportedModes p) m (Value p) (State p) (AnalogChannel p).
Definition set_Value (v : Z) (p : Pin) : Pin :=
  mkPin (SupportedModes p) (Mode p) v (State p) (AnalogChannel p).
Definition set_State (s : Z) (p : Pin) : Pin :=
  mkPin (SupportedModes p) (Mode p) (Value p) s (AnalogChannel p).
Definition set_AnalogChannel (a : Z) (p : Pin) : Pin :=
  mkPin (SupportedModes p) (Mode p) (Value p) (State p) a.

(** I2cReply represents the response from an I2cReply message *)
Record I2cReply := mkI2cReply {
  Address : Z;
  Register : Z;
  Data : list Z
}.

(** The transport, an [io.ReadWriteCloser].  [incoming] is what the
    transport has at hand: [Read] hands out of it as much as the caller's
    buffer takes.  [later] is what has not arrived yet, in the pieces it
    will arrive in: a [Read] that finds nothing at hand takes the next
    piece, and hands out of that.  So a [Read] may come back with fewer
    bytes than asked for while more are on their way, as [io.Reader]
    allows; an empty piece is a [Read] that comes back with nothing.
    [Write] accepts the whole buffer.  [readErr] and [writeErr] script the
    error an implementation may return instead: [Read] returns it once
    [incoming] and [later] are used up, [Write] on every call.  The
    in-memory [readWriteCloser] of client_test.go is the transport with
    all its bytes at hand ([pipe] below). *)
Record Conn := mkConn {
  incoming : list Z;
  written : list (list Z);
  readErr : option string;
  writeErr : option string;
  closed : bool;
  later : list (list Z)
}.

(** The transport with [l] left to read. *)
Definition with_incoming (l : list Z) (c : Conn) : Conn :=
  mkConn l (written c) (readErr c) (writeErr c) (closed c) (later c).

(** The transport with the pieces [ps] still to arrive. *)
Definition with_later (ps : list (list Z)) (c : Conn) : Conn :=
  mkConn (incoming c) (written c) (readErr c) (writeErr c) (closed c) ps.

(** Every byte the transport is going to deliver, in order. *)
Definition stream (c : Conn) : list Z := incoming c ++ concat (later c).

(** A channel is named by the number of the [make] that created it. *)
Definition chan := nat.

(** One [select { case ch <- v: default: }]: the value is offered on the
    channel and taken only if a receiver is ready at that moment. *)
Inductive Offer :=
| OfferBool (ch : chan)
| OfferPin (ch : chan) (p : Pin)
| OfferI2c (ch : chan) (r : I2cReply)
| OfferString (ch : chan) (s : string)
| OfferError (ch : chan) (e : string).

(** Client represents a client connection to a firmata board.  [nextChan]
    and [offers] are not fields of the Go struct: the first numbers the
    channels, the second records the non-blocking sends in program order. *)
Record Client := mkClient {
  pins : list Pin;
  firmwareName : string;
  protocolVersion : string;
  connected : bool;
  connection : option Conn;
  analogPins : list Z;
  pinReportChan : gmap Z chan;
  pinStateChan : gmap Z chan;
  i2cChan : option chan;
  boolChan : gmap string chan;
  stringDataChan : option chan;
  Error : option chan;
  nextChan : chan;
  offers : list Offer
}.

Definition set_pins (x : list Pin) (b : Client) : Client :=
  mkClient x (firmwareName b) (protocolVersion b) (connected b) (connection b)
    (analogPins b) (pinReportChan b) (pinStateChan b) (i2cChan b) (boolChan b)
    (stringDataChan b) (Error b) (nextChan b) (offers b).
Definition set_firmwareName (x : string) (b : Client) : Client :=
  mkClient (pins b) x (protocolVersion b) (connected b) (connection b)
    (analogPins b) (pinReportChan b) (pinStateChan b) (i2cChan b) (boolChan b)
    (stringDataChan b) (Error b) (nextChan b) (offers b).
Definition set_protocolVersion (x : string) (b : Client) : Client :=
  mkClient (pins b) (firmwareName b) x (connected b) (connection b)
    (analogPins b) (pinReportChan b) (pinStateChan b) (i2cChan b) (boolChan b)
    (stringDataChan b) (Error b) (nextChan b) (offers b).
Definition set_connected (x : bool) (b : Client) : Client :=
  mkClient (pins b) (firmwareName b) (protocolVersion b) x (connection b)
    (analogPins b) (pinReportChan b) (pinStateChan b) (i2cChan b) (boolChan b)
    (stringDataChan b) (Error b) (nextChan b) (offers b).
Definition set_connection (x : option Conn) (b : Client) : Client :=
  mkClient (pins b) (firmwareName b) (protocolVersion b) (connected b) x
    (analogPins b) (pinReportChan b) (pinStateChan b) (i2cChan b) (boolChan b)
    (stringDataChan b) (Error b) (nextChan b) (offers b).
Definition set_analogPins (x : list Z) (b : Client) : Client :=
  mkClient (pins b) (firmwareName b) (protocolVersion b) (connected b)
    (connection b) x (pinReportChan b) (pinStateChan b) (i2cChan b)
    (boolChan b) (stringDataChan b) (Error b) (nextChan b) (offers b).
Definition set_pinReportChan (x : gmap Z chan) (b : Client) : Client :=
  mkClient (pins b) (firmwareName b) (protocolVersion b) (connected b)
    (connection b) (analogPins b) x (pinStateChan b) (i2cChan b) (boolChan b)
    (stringDataChan b) (Error b) (nextChan b) (offers b).
Definition set_pinStateChan (x : gmap Z chan) (b : Client) : Client :=
  mkClient (pins b) (firmwareName b) (protocolVersion b) (connected b)
    (connection b) (analogPins b) (pinReportChan b) x (i2cChan b) (boolChan b)
    (stringDataChan b) (Error b) (nextChan b) (offers b).
Definition set_i2cChan (x : option chan) (b : Client) : Client :=
  mkClient (pins b) (firmwareName b) (protocolVersion b) (connected b)
    (connection b) (analogPins b) (pinReportChan b) (pinStateChan b) x
    (boolChan b) (stringDataChan b) (Error b) (nextChan b) (offers b).
Definition set_boolChan (x : gmap string chan) (b : Client) : Client :=
  mkClient (pins b) (firmwareName b) (protocolVersion b) (connected b)
    (connection b) (analogPins b) (pinReportChan b) (pinStateChan b)
    (i2cChan b) x (stringDataChan b) (Error b) (nextChan b) (offers b).
Definition set_nextChan (x : chan) (b : Client) : Client :=
  mkClient (pins b) (firmwareName b) (protocolVersion b) (connected b)
    (connection b) (analogPins b) (pinReportChan b) (pinStateChan b)
    (i2cChan b) (boolChan b) (stringDataChan b) (Error b) x (offers b).
Definition set_offers (x : list Offer) (b : Client) : Client :=
  mkClient (pins b) (firmwareName b) (protocolVersion b) (connected b)
    (connection b) (analogPins b) (pinReportChan b) (pinStateChan b)
    (i2cChan b) (boolChan b) (stringDataChan b) (Error b) (nextChan b) x.

(** New returns a new Client.  The six channels made here are numbered
    0 to 5; [Error] is never made and stays nil. *)
Definition New : Client :=
  mkClient [] EmptyString EmptyString false None []
    ∅ ∅ (Some 4%nat)
    (<["CapabilityQuery" := 0%nat]>
       (<["AnalogMappingQuery" := 1%nat]>
          (<["FirmwareQuery" := 2%nat]>
             (<["ProtocolVersion" := 3%nat]> ∅))))
    (Some 5%nat) None 6%nat [].

(** ** The monad of client methods *)

Inductive result (A : Type) : Type :=
| Ok (a : A) (b : Client)
| Failed (e : string) (b : Client)
| Panicked (b : Client)
| Blocked.
Arguments Ok {A} a b.
Arguments Failed {A} e b.
Arguments Panicked {A} b.
Arguments Blocked {A}.

Definition M (A : Type) : Type := Client -> result A.

Definition ret {A} (a : A) : M A := fun b => Ok a b.

Definition bind {A B} (m : M A) (k : A -> M B) : M B :=
  fun b =>
    match m b with
    | Ok a b' => k a b'
    | Failed e b' => Failed e b'
    | Panicked b' => Panicked b'
    | Blocked => Blocked
    end.

Notation "x <-- m ;; k" := (bind m (fun x => k))
  (at level 100, m at next level, right associativity).
Notation "m ;;; k" := (bind m (fun _ => k))
  (at level 100, right associativity).

Definition get : M Client := fun b => Ok b b.
Definition modify (f : Client -> Client) : M unit := fun b => Ok tt (f b).
Definition panic {A} : M A := fun b => Panicked b.

(** Run-time checked reads. *)
Definition at_index {A} (l : list A) (i : Z) : M A :=
  match index l i with Some x => ret x | None => panic end.
Definition at_slice {A} (l : list A) (lo hi : Z) : M (list A) :=
  match slice l lo hi with Some x => ret x | None => panic end.

(** [b.pins[i]] *)
Definition pin_at (i : Z) : M Pin := b <-- get ;; at_index (pins b) i.

(** [b.pins[i].F = x] *)
Definition update_pin (i : Z) (f : Pin -> Pin) : M unit :=
  p <-- pin_at i ;;
  modify (fun b => set_pins (<[Z.to_nat i := f p]> (pins b)) b).

(** [make(chan T)] *)
Definition make_chan : M chan :=
  b <-- get ;;
  modify (set_nextChan (S (nextChan b))) ;;;
  ret (nextChan b).

(** [select { case ch <- v: default: }]; a send on a nil channel is never
    ready, so nothing is offered. *)
Definition try_send (ch : option chan) (o : chan -> Offer) : M unit :=
  match ch with
  | Some c => modify (fun b => set_offers (offers b ++ [o c]) b)
  | None => ret tt
  end.

(** ** Transport *)

(** [connection.Read(tmp)] with [len(tmp) = n]: the bytes copied into [tmp]
    (the rest of [tmp] stays zero), their number, and the error. *)
Definition conn_Read (n : Z) (c : Conn) : list Z * Z * option string * Conn :=
  match incoming c with
  | [] =>
      match later c with
      | [] => (replicate (Z.to_nat n) 0, 0, readErr c, c)
      | piece :: pieces =>
          let size := Z.min n (len piece) in
          (take (Z.to_nat size) piece ++ replicate (Z.to_nat (n - size)) 0,
           size, None,
           with_incoming (drop (Z.to_nat size) piece) (with_later pieces c))
      end
  | _ =>
      let size := Z.min n (len (incoming c)) in
      (take (Z.to_nat size) (incoming c) ++ replicate (Z.to_nat (n - size)) 0,
       size, None, with_incoming (drop (Z.to_nat size) (incoming c)) c)
  end.

(** [connection.Write(data)] *)
Definition conn_Write (data : list Z) (c : Conn) : option string * Conn :=
  match writeErr c with
  | Some e => (Some e, c)
  | None =>
      (None,
       mkConn (incoming c) (written c ++ [data]) (readErr c) (writeErr c)
         (closed c) (later c))
  end.

(** The connection is nil until [Connect] installs one; a method call on
    it then panics. *)
Definition with_conn {A} (f : Conn -> A * Conn) : M A :=
  fun b =>
    match connection b with
    | None => Panicked b
    | Some c => let '(a, c') := f c in Ok a (set_connection (Some c') b)
    end.

Definition fail {A} (e : string) : M A := fun b => Failed e b.

Definition write (data : list Z) : M unit :=
  err <-- with_conn (conn_Write data) ;;
  match err with Some e => fail e | None => ret tt end.

(** The envelope [writeSysex] hands to [write]:
    [append([]byte{StartSysex}, append(data, EndSysex)...)]. *)
Definition sysex (data : list Z) : list Z :=
  [StartSysex] ++ (data ++ [EndSysex]).

Definition writeSysex (data : list Z) : M unit := write (sysex data).

(** [read(length)]: one unit of fuel per turn of the loop.  A turn that
    gets no byte (nothing there yet, or "EOF" and the 5 ms pause) leaves
    [length] as it was; a turn that gets [i > 0] bytes appends the whole of
    [tmp]. *)
Fixpoint read_loop (fuel : nat) (length : Z) (buf : list Z) : M (list Z) :=
  if length <=? 0 then ret buf
  else
    match fuel with
    | O => fun _ => Blocked
    | S fuel' =>
        r <-- with_conn (fun c =>
                let '(tmp, i, err, c') := conn_Read length c in
                ((tmp, i, err), c')) ;;
        let '(tmp, i, err) := r in
        let next :=
          if 0 <? i then read_loop fuel' (length - i) (buf ++ tmp)
          else read_loop fuel' length buf in
        match err with
        | Some e => if String.eqb e "EOF" then next else fail e
        | None => next
        end
    end.

Definition read (fuel : nat) (length : Z) : M (list Z) :=
  read_loop fuel length [].

(** ** Request API

    A method whose Go name is also the name of a protocol constant
    ([ServoConfig], [FirmwareQuery], ...) carries a trailing underscore. *)

(** Reset sends the SystemReset sysex code. *)
Definition Reset : M unit := write [SystemReset].

(** SetPinMode sets the pin to mode. *)
Definition SetPinMode (pin mode : Z) : M unit :=
  write [PinMode; byte_of pin; byte_of mode] ;;;
  update_pin (byte_of pin) (set_Mode mode).

(** The loop of [DigitalWrite] over the eight pins of the port;
    [8*port+i] is a [byte] expression. *)
Fixpoint port_mask (port : Z) (bits : list Z) (portValue : Z) : M Z :=
  match bits with
  | [] => ret portValue
  | i :: bits' =>
      p <-- pin_at (byte_of (8 * port + i)) ;;
      port_mask port bits'
        (if Value p =? 0 then portValue
         else Z.lor portValue (byte_of (Z.shiftl 1 i)))
  end.

(** DigitalWrite writes value to pin.  [port] is
    [byte(math.Floor(float64(pin) / 8))]: exact while the quotient fits a
    byte; every [pin] that passes the bounds check of [b.pins[pin]] is
    non-negative. *)
Definition DigitalWrite (pin value : Z) : M unit :=
  let port := byte_of (pin / 8) in
  update_pin pin (set_Value value) ;;;
  portValue <-- port_mask port [0; 1; 2; 3; 4; 5; 6; 7] 0 ;;
  write [Z.lor DigitalMessage port; Z.land portValue 0x7F;
         Z.land (Z.shiftr portValue 7) 0x7F].

(** The two data bytes of a 14-bit value, as [AnalogWrite], [ServoConfig]
    and [I2cWrite] build them: [byte(v & 0x7F)], [byte((v >> 7) & 0x7F)]. *)
Definition pack14 (v : Z) : Z * Z :=
  (byte_of (Z.land v 0x7F), byte_of (Z.land (Z.shiftr v 7) 0x7F)).

(** The value [process] rebuilds from the two data bytes of an analog
    message: [uint(buf[1]) | uint(buf[2])<<7]. *)
Definition unpack14 (lo hi : Z) : Z := Z.lor lo (Z.shiftl hi 7).

(** ServoConfig sets the min and max pulse width for servo PWM range *)
Definition ServoConfig_ (pin max min : Z) : M unit :=
  writeSysex [ServoConfig; byte_of pin; fst (pack14 max); snd (pack14 max);
              fst (pack14 min); snd (pack14 min)].

(** AnalogWrite writes value to pin. *)
Definition AnalogWrite (pin value : Z) : M unit :=
  write [Z.lor AnalogMessage (byte_of pin); fst (pack14 value);
         snd (pack14 value)] ;;;
  update_pin pin (set_Value value).

(** The four handshake queries: write the request, then install a fresh
    channel under the query's name and return it. *)
Definition bool_query (name : string) (request : M unit) : M chan :=
  request ;;;
  ch <-- make_chan ;;
  modify (fun b => set_boolChan (<[name := ch]> (boolChan b)) b) ;;;
  ret ch.

Definition FirmwareQuery_ : M chan :=
  bool_query "FirmwareQuery" (writeSysex [FirmwareQuery]).
Definition ProtocolVersionQuery : M chan :=
  bool_query "ProtocolVersion" (write [ProtocolVersion]).
Definition CapabilityQuery_ : M chan :=
  bool_query "CapabilityQuery" (writeSysex [CapabilityQuery]).
Definition AnalogMappingQuery_ : M chan :=
  bool_query "AnalogMappingQuery" (writeSysex [AnalogMappingQuery]).

(** PinStateQuery sends a PinStateQuery for pin. *)
Definition PinStateQuery_ (pin : Z) : M chan :=
  writeSysex [PinStateQuery; byte_of pin] ;;;
  ch <-- make_chan ;;
  modify (fun b => set_pinStateChan (<[pin := ch]> (pinStateChan b)) b) ;;;
  ret ch.

Definition togglePinReporting (pin state mode : Z) : M chan :=
  let state := if state =? 0 then 0 else 1 in
  write [Z.lor (byte_of mode) (byte_of pin); byte_of state] ;;;
  ch <-- make_chan ;;
  modify (fun b => set_pinReportChan (<[pin := ch]> (pinReportChan b)) b) ;;;
  ret ch.

(** ReportDigital enables or disables digital reporting for pin, a non zero
    state enables reporting *)
Definition ReportDigital_ (pin state : Z) : M chan :=
  togglePinReporting pin state ReportDigital.

(** ReportAnalog enables or disables analog reporting for pin, a non zero
    state enables reporting *)
Definition ReportAnalog_ (pin state : Z) : M chan :=
  togglePinReporting pin state ReportAnalog.

(** I2cRead reads numBytes from address once. *)
Definition I2cRead (address numBytes : Z) : M chan :=
  writeSysex [I2CRequest; byte_of address; byte_of (Z.shiftl I2CModeRead 3);
              Z.land (byte_of numBytes) 0x7F;
              Z.land (Z.shiftr (byte_of numBytes) 7) 0x7F] ;;;
  ch <-- make_chan ;;
  modify (set_i2cChan (Some ch)) ;;;
  ret ch.

(** I2cWrite writes data to address; [val] is a byte, so is [val>>7]. *)
Definition I2cWrite (address : Z) (data : list Z) : M unit :=
  writeSysex
    ([I2CRequest; byte_of address; byte_of (Z.shiftl I2CModeWrite 3)] ++
     flat_map (fun val => [Z.land val 0x7F; Z.land (Z.shiftr val 7) 0x7F])
       data).

(** I2cConfig configures the delay in which a register can be read from
    after it has been written to. *)
Definition I2cConfig (delay : Z) : M unit :=
  writeSysex [I2CConfig; byte_of (Z.land delay 0xFF);
              byte_of (Z.land (Z.shiftr delay 8) 0xFF)].

(** Disconnect disconnects the Client *)
Definition Disconnect : M unit :=
  modify (set_connected false) ;;;
  with_conn (fun c =>
    (tt, mkConn (incoming c) (written c) (readErr c) (writeErr c) true
           (later c))).

(** ** Frame reader and dispatcher *)

(** [select { case b.boolChan[name] <- true: default: }] *)
Definition signal (name : string) : M unit :=
  b <-- get ;; try_send (boolChan b !! name) OfferBool.

(** The sysex reading loop of [process]: one byte at a time is appended to
    [currentBuffer] until the byte just read is [EndSysex]. *)
Fixpoint readSysex (fuel : nat) (currentBuffer : list Z) : M (list Z) :=
  match fuel with
  | O => fun _ => Blocked
  | S fuel' =>
      buf <-- read fuel 1 ;;
      b0 <-- at_index buf 0 ;;
      let currentBuffer := currentBuffer ++ [b0] in
      if b0 =? EndSysex then ret currentBuffer
      else readSysex fuel' currentBuffer
  end.

(** One turn of the capability loop; the accumulator is [b.pins],
    [supportedModes] and [n].  [1 << val] is an [int] shift by a byte. *)
Definition capability_step (acc : list Pin * Z * Z) (val : Z)
  : list Pin * Z * Z :=
  let '(ps, supportedModes, n) := acc in
  if val =? 127 then
    let modes :=
      List.filter
        (fun mode =>
           negb (Z.land supportedModes (int_of (Z.shiftl 1 (byte_of mode)))
                 =? 0))
        [Input; Output; Analog; Pwm; Servo] in
    (ps ++ [mkPin modes Output 0 0 0], 0, 0)
  else
    (ps,
     if n =? 0 then Z.lor supportedModes (int_of (Z.shiftl 1 val))
     else supportedModes,
     Z.lxor n 1).

(** The analog-mapping loop over the window, [pinIndex] counting up. *)
Fixpoint mapping_loop (window : list Z) (pinIndex : Z) : M unit :=
  match window with
  | [] => ret tt
  | val :: window' =>
      update_pin pinIndex (set_AnalogChannel val) ;;;
      (if val =? 127 then ret tt
       else modify (fun b => set_analogPins (analogPins b ++ [pinIndex]) b)) ;;;
      mapping_loop window' (pinIndex + 1)
  end.

(** The loop of the digital-message case over the eight bits of the port. *)
Fixpoint digital_loop (port portValue : Z) (bits : list Z) : M unit :=
  match bits with
  | [] => ret tt
  | i :: bits' =>
      let pinNumber := byte_of (8 * byte_of port + byte_of i) in
      b <-- get ;;
      (if len (pins b) >? pinNumber then
         p <-- pin_at pinNumber ;;
         if Mode p =? Input then
           update_pin pinNumber
             (set_Value
                (Z.land (Z.shiftr portValue (Z.land (byte_of i) 0x07)) 0x01)) ;;;
           p' <-- pin_at pinNumber ;;
           try_send (pinReportChan b !! pinNumber) (fun ch => OfferPin ch p')
         else ret tt
       else ret tt) ;;;
      digital_loop port portValue bits'
  end.

(** The data loop of the I2CReply case, [i] stepping by two from 8. *)
Fixpoint i2c_loop (fuel : nat) (i : Z) (currentBuffer data : list Z)
  : M (list Z) :=
  match fuel with
  | O => fun _ => Blocked
  | S fuel' =>
      if i <? len currentBuffer then
        ci <-- at_index currentBuffer i ;;
        if ci =? 0xF7 then ret data
        else if i + 2 >? len currentBuffer then ret data
        else
          ci1 <-- at_index currentBuffer (i + 1) ;;
          i2c_loop fuel' (i + 2) currentBuffer (data ++ [byte_join ci ci1])
      else ret data
  end.

(** The inner [switch command] of [process]. *)
Definition dispatch_sysex (currentBuffer : list Z) : M unit :=
  command <-- at_index currentBuffer 1 ;;
  if command =? CapabilityResponse then
    modify (set_pins []) ;;;
    window <-- at_slice currentBuffer 2 (len currentBuffer - 5) ;;
    let '(ps, _, _) := fold_left capability_step window ([], 0, 0) in
    modify (set_pins ps) ;;;
    signal "CapabilityQuery"
  else if command =? AnalogMappingResponse then
    modify (set_analogPins []) ;;;
    b <-- get ;;
    window <-- at_slice currentBuffer 2 (len (pins b) - 1) ;;
    mapping_loop window 0 ;;;
    signal "AnalogMappingQuery"
  else if command =? PinStateResponse then
    pin <-- at_index currentBuffer 2 ;;
    c3 <-- at_index currentBuffer 3 ;;
    update_pin pin (set_Mode c3) ;;;
    c4 <-- at_index currentBuffer 4 ;;
    update_pin pin (set_State c4) ;;;
    (if len currentBuffer >? 6 then
       c5 <-- at_index currentBuffer 5 ;;
       p <-- pin_at pin ;;
       update_pin pin (set_State (Z.lor (State p) (Z.shiftl c5 7)))
     else ret tt) ;;;
    (if len currentBuffer >? 7 then
       c6 <-- at_index currentBuffer 6 ;;
       p <-- pin_at pin ;;
       update_pin pin (set_State (Z.lor (State p) (Z.shiftl c6 14)))
     else ret tt) ;;;
    p <-- pin_at pin ;;
    b <-- get ;;
    try_send (pinStateChan b !! pin) (fun ch => OfferPin ch p)
  else if command =? I2CReply then
    c2 <-- at_index currentBuffer 2 ;;
    c3 <-- at_index currentBuffer 3 ;;
    c4 <-- at_index currentBuffer 4 ;;
    c5 <-- at_index currentBuffer 5 ;;
    c6 <-- at_index currentBuffer 6 ;;
    c7 <-- at_index currentBuffer 7 ;;
    data <-- i2c_loop (length currentBuffer) 8 currentBuffer
               [byte_join c6 c7] ;;
    b <-- get ;;
    try_send (i2cChan b)
      (fun ch => OfferI2c ch (mkI2cReply (byte_join c2 c3) (byte_join c4 c5) data))
  else if command =? FirmwareQuery then
    window <-- at_slice currentBuffer 4 (len currentBuffer - 1) ;;
    let name := List.filter (fun val => negb (val =? 0)) window in
    modify (set_firmwareName (string_of_bytes name)) ;;;
    signal "FirmwareQuery"
  else if command =? StringData then
    str <-- at_slice currentBuffer 2 (len currentBuffer) ;;
    s <-- at_slice str 0 (len str - 1) ;;
    b <-- get ;;
    try_send (stringDataChan b) (fun ch => OfferString ch (string_of_bytes s))
  else ret tt.

(** The frame reader: three bytes, and for a sysex the bytes up to
    [EndSysex].  It returns the frame buffer ([buf], or [currentBuffer]). *)
Definition read_frame (fuel : nat) : M (list Z) :=
  buf <-- read fuel 3 ;;
  messageType <-- at_index buf 0 ;;
  if StartSysex =? messageType then readSysex fuel buf else ret buf.

(** The outer [switch] of [process] on a frame. *)
Definition dispatch (frame : list Z) : M unit :=
  messageType <-- at_index frame 0 ;;
  if ProtocolVersion =? messageType then
    b1 <-- at_index frame 1 ;;
    b2 <-- at_index frame 2 ;;
    modify (set_protocolVersion (decimal b1 +:+ "." +:+ decimal b2)) ;;;
    signal "ProtocolVersion"
  else if (AnalogMessageRangeStart <=? messageType)
          && (AnalogMessageRangeEnd >=? messageType) then
    b1 <-- at_index frame 1 ;;
    b2 <-- at_index frame 2 ;;
    let value := unpack14 b1 b2 in
    let pin := Z.land messageType 0x0F in
    b <-- get ;;
    if len (analogPins b) >? pin then
      ap <-- at_index (analogPins b) pin ;;
      if len (pins b) >? ap then
        update_pin ap (set_Value value) ;;;
        p <-- pin_at ap ;;
        try_send (pinReportChan b !! ap) (fun ch => OfferPin ch p)
      else ret tt
    else ret tt
  else if (DigitalMessageRangeStart <=? messageType)
          && (DigitalMessageRangeEnd >=? messageType) then
    b1 <-- at_index frame 1 ;;
    b2 <-- at_index frame 2 ;;
    let port := Z.land messageType 0x0F in
    let portValue := byte_join b1 b2 in
    digital_loop port portValue [0; 1; 2; 3; 4; 5; 6; 7]
  else if StartSysex =? messageType then dispatch_sysex frame
  else ret tt.

(** [process]: read one frame and apply it. *)
Definition process (fuel : nat) : M unit :=
  frame <-- read_frame fuel ;;
  dispatch frame.

(** ** Test fixtures (client_test.go) *)

(** A transport holding [data], as [testReadData] does. *)
Definition pipe (data : list Z) : Conn := mkConn data [] None None false [].

(** A transport on which [data] arrives one byte to a [Read]. *)
Definition trickle (data : list Z) : Conn :=
  mkConn [] [] None None false (map (fun x => [x]) data).

(** The client reading from a fresh [pipe]. *)
Definition feed (data : list Z) (b : Client) : Client :=
  set_connection (Some (pipe data)) b.

(** The client a call leaves behind, whatever way it ended. *)
Definition client_after {A} (r : result A) : option Client :=
  match r with
  | Ok _ b | Failed _ b | Panicked b => Some b
  | Blocked => None
  end.

(* arduino uno r3 capabilities response *)
Definition testCapabilitiesResponse : list Z :=
  [240; 108; 127; 127; 0; 1; 1; 1; 4; 14; 127; 0; 1; 1; 1; 3;
   8; 4; 14; 127; 0; 1; 1; 1; 4; 14; 127; 0; 1; 1; 1; 3; 8; 4; 14; 127; 0; 1;
   1; 1; 3; 8; 4; 14; 127; 0; 1; 1; 1; 4; 14; 127; 0; 1; 1; 1; 4; 14; 127; 0;
   1; 1; 1; 3; 8; 4; 14; 127; 0; 1; 1; 1; 3; 8; 4; 14; 127; 0; 1; 1; 1; 3; 8;
   4; 14; 127; 0; 1; 1; 1; 4; 14; 127; 0; 1; 1; 1; 4; 14; 127; 0; 1; 1; 1; 2;
   10; 127; 0; 1; 1; 1; 2; 10; 127; 0; 1; 1; 1; 2; 10; 127; 0; 1; 1; 1; 2; 10;
   127; 0; 1; 1; 1; 2; 10; 6; 1; 127; 0; 1; 1; 1; 2; 10; 6; 1; 127; 247].

(* arduino uno r3 analog mapping response *)
Definition testAnalogMappingResponse : list Z :=
  [240; 106; 127; 127; 127; 127; 127; 127; 127; 127; 127; 127;
   127; 127; 127; 127; 0; 1; 2; 3; 4; 5; 247].

(* arduino uno r3 protocol response "2.3" *)
Definition testProtocolResponse : list Z := [249; 2; 3].

(* arduino uno r3 firmware response "StandardFirmata.ino" *)
Definition testFirmwareResponse : list Z :=
  [240; 121; 2; 3; 83; 0; 116; 0; 97; 0; 110; 0; 100; 0; 97;
   0; 114; 0; 100; 0; 70; 0; 105; 0; 114; 0; 109; 0; 97; 0; 116; 0; 97; 0; 46;
   0; 105; 0; 110; 0; 111; 0; 247].

(** [process] on a client fed [data]; the client is kept when the call
    blocks. *)
Definition process_on (data : list Z) (b : Client) : Client :=
  match client_after (process (S (length data)) (feed data b)) with
  | Some b' => b'
  | None => b
  end.

(** [initTestFirmata]: the four responses processed in turn. *)
Definition initTestFirmata : Client :=
  process_on testAnalogMappingResponse
    (process_on testCapabilitiesResponse
       (process_on testFirmwareResponse
          (process_on testProtocolResponse New))).

(** The number of [0x7F] bytes in the body of a sysex frame, the body being
    what lies between the subcommand byte and [EndSysex]. *)
Definition terminators (frame : list Z) : nat :=
  length (List.filter (fun val => val =? 127)
            (take (length frame - 3) (drop 2 frame))).

(** Membership in the five mode tags the client knows. *)
Definition known_mode (m : Z) : Prop :=
  m = Input \/ m = Output \/ m = Analog \/ m = Pwm \/ m = Servo.

(** A pin that supports Input and Output only. *)
Definition io_pin : Pin := mkPin [Input; Output] Output 0 0 0.

(** The 20-pin table of an Arduino Uno, after discovery. *)
Definition uno20 : Client :=
  feed [] (set_pins (replicate 20 (mkPin [Input; Output] Output 0 0 0)) New).

(** Every supported mode of the pin is one of the five known tags. *)
Definition modes_known (p : Pin) : Prop := Forall known_mode (SupportedModes p).

(** The number of [0x7F] bytes in a window of the buffer. *)
Definition count_terminators (window : list Z) : nat :=
  length (List.filter (fun val => val =? 127) window).

(** A boolean test for [modes_known] on a whole table. *)
Definition modes_knownb (ps : list Pin) : bool :=
  forallb
    (fun p =>
       forallb
         (fun m => (m =? Input) || (m =? Output) || (m =? Analog)
                   || (m =? Pwm) || (m =? Servo))
         (SupportedModes p))
    ps.

(** ** Connect

  [Connect] runs two threads over the one client: the handshake goroutine
  it starts, and its own loop around [process].  The model is a
  transition system whose steps are taken one at a time under a schedule:
  a step of the goroutine, a step of the main loop, or the board putting
  bytes on the transport.  A call of [process] or of a request method is
  one step. *)

Module Connect.

Definition ErrConnected : string := "client is already connected".

Inductive Query :=
| QProtocolVersion | QFirmware | QCapability | QAnalogMapping.

Definition send_query (q : Query) : M chan :=
  match q with
  | QProtocolVersion => ProtocolVersionQuery
  | QFirmware => FirmwareQuery_
  | QCapability => CapabilityQuery_
  | QAnalogMapping => AnalogMappingQuery_
  end.

(** Where the goroutine stands.  [s] is its local variable: the channel
    the last query returned, nil when the query failed. *)
Inductive Handshake :=
| HsNotStarted
| HsQuery (q : Query)                     (* s, _ = c.<q>() *)
| HsSetConnected (s : option chan)        (* c.connected = true *)
| HsAwait (q : Query) (s : option chan)   (* <-s *)
| HsReportDigital (port : Z)              (* c.ReportDigital(port, 1) *)
| HsDone.

(** Where the caller of [Connect] stands. *)
Inductive MainThread :=
| MainProcess                              (* c.process() *)
| MainCheckConnected                       (* if c.connected *)
| MainReturned (err : option string).      (* return *)

Record System := mkSystem {
  client : Client;
  handshake : Handshake;
  main : MainThread
}.

(** [Connect] up to the [go] statement. *)
Definition enter (conn : Conn) (c : Client) : option System :=
  if connected c
  then Some (mkSystem c HsNotStarted (MainReturned (Some ErrConnected)))
  else
    match Reset (set_connection (Some conn) c) with
    | Ok _ c' => Some (mkSystem c' (HsQuery QProtocolVersion) MainProcess)
    | Failed e c' => Some (mkSystem c' HsNotStarted (MainReturned (Some e)))
    | Panicked _ | Blocked => None
    end.

(** The statement after [<-s] for each query. *)
Definition after_signal (q : Query) : Handshake :=
  match q with
  | QProtocolVersion => HsQuery QFirmware
  | QFirmware => HsQuery QCapability
  | QCapability => HsQuery QAnalogMapping
  | QAnalogMapping => HsReportDigital 0
  end.

(** The statement after the query call. *)
Definition after_query (q : Query) (s : option chan) : Handshake :=
  match q with
  | QAnalogMapping => HsSetConnected s
  | _ => HsAwait q s
  end.

(** One statement of the goroutine; [None] when it cannot move (blocked
    in a receive, finished, or crashed).  The errors of the queries and
    of [ReportDigital] are dropped, as in the source. *)
Definition handshake_step (s : System) : option System :=
  match handshake s with
  | HsQuery q =>
      match send_query q (client s) with
      | Ok ch c' => Some (mkSystem c' (after_query q (Some ch)) (main s))
      | Failed _ c' => Some (mkSystem c' (after_query q None) (main s))
      | Panicked _ | Blocked => None
      end
  | HsSetConnected ch =>
      Some (mkSystem (set_connected true (client s))
              (HsAwait QAnalogMapping ch) (main s))
  | HsReportDigital port =>
      match ReportDigital_ port 1 (client s) with
      | Ok _ c' | Failed _ c' =>
          Some (mkSystem c' (if port =? 0 then HsReportDigital 1 else HsDone)
                  (main s))
      | Panicked _ | Blocked => None
      end
  | HsAwait _ _ | HsNotStarted | HsDone => None
  end.

(** The sends [process] attempted during one call. *)
Definition new_offers (before after : Client) : list Offer :=
  drop (length (offers before)) (offers after).

Definition signalled (ch : chan) (os : list Offer) : bool :=
  existsb (fun o => match o with
                    | OfferBool ch' => Nat.eqb ch' ch
                    | _ => false
                    end) os.

(** A goroutine blocked in [<-s] takes the value sent on [s] and moves
    on; a send on any other channel, or while it is elsewhere, is lost. *)
Definition receive (os : list Offer) (h : Handshake) : Handshake :=
  match h with
  | HsAwait q (Some ch) => if signalled ch os then after_signal q else h
  | _ => h
  end.

(** One step of the caller's loop.  [process] is not enabled while the
    transport cannot give it a whole frame. *)
Definition main_step (s : System) : option System :=
  match main s with
  | MainProcess =>
      match connection (client s) with
      | None => None
      | Some conn =>
          match process (S (length (incoming conn))) (client s) with
          | Ok _ c' =>
              Some (mkSystem c'
                      (receive (new_offers (client s) c') (handshake s))
                      MainCheckConnected)
          | Failed e c' =>
              Some (mkSystem c' (handshake s) (MainReturned (Some e)))
          | Panicked _ | Blocked => None
          end
      end
  | MainCheckConnected =>
      Some (mkSystem (client s) (handshake s)
              (if connected (client s) then MainReturned None
               else MainProcess))
  | MainReturned _ => None
  end.

(** The board answering: bytes arrive on the transport. *)
Definition board_step (data : list Z) (s : System) : option System :=
  match connection (client s) with
  | None => None
  | Some conn =>
      Some (mkSystem
              (set_connection
                 (Some (with_incoming (incoming conn ++ data) conn))
                 (client s))
              (handshake s) (main s))
  end.

Inductive Action :=
| RunHandshake
| RunMain
| BoardSends (data : list Z).

Definition step (a : Action) (s : System) : option System :=
  match a with
  | RunHandshake => handshake_step s
  | RunMain => main_step s
  | BoardSends data => board_step data s
  end.

Fixpoint run (schedule : list Action) (s : System) : option System :=
  match schedule with
  | [] => Some s
  | a :: schedule' =>
      match step a s with
      | Some s' => run schedule' s'
      | None => None
      end
  end.

(** [Connect] on a fresh client, run under a schedule. *)
Definition connect_under (schedule : list Action) : option System :=
  match enter (pipe []) New with
  | Some s => run schedule s
  | None => None
  end.

(** Query, answer, process, test of [connected]: one round of the
    handshake in which each thread waits for the other. *)
Definition round (response : list Z) : list Action :=
  [RunHandshake; BoardSends response; RunMain; RunMain].

(** The schedule in which every response is awaited before the next
    query, to the end of the goroutine. *)
Definition orderly : list Action :=
  round testProtocolResponse ++ round testFirmwareResponse ++
  round testCapabilitiesResponse ++
  [RunHandshake; RunHandshake; BoardSends testAnalogMappingResponse;
   RunMain; RunMain; RunHandshake; RunHandshake].

(** The orderly schedule up to the point where the goroutine has sent the
    AnalogMappingQuery and executed [c.connected = true]; the caller is
    back in its loop and the board has not answered yet. *)
Definition prompt : list Action :=
  round testProtocolResponse ++ round testFirmwareResponse ++
  round testCapabilitiesResponse ++ [RunHandshake; RunHandshake].

(** A schedule in which the goroutine, woken by the capability signal,
    sends the AnalogMappingQuery and sets [connected] before the caller
    gets to its test of [connected]. *)
Definition early : list Action :=
  round testProtocolResponse ++ round testFirmwareResponse ++
  [RunHandshake; BoardSends testCapabilitiesResponse; RunMain;
   RunHandshake; RunHandshake; RunMain].

(** What has been written to the transport. *)
Definition wire (s : System) : list (list Z) :=
  match connection (client s) with
  | Some conn => written conn
  | None => []
  end.

(** What the transport still holds. *)
Definition unread (s : System) : list Z :=
  match connection (client s) with
  | Some conn => incoming conn
  | None => []
  end.

End Connect.


(** * Vocabulary of the further properties *)

(** What the transport is apart from the bytes it still holds. *)
Definition conn_static (c : Conn)
  : list (list Z) * option string * option string * bool :=
  (written c, readErr c, writeErr c, closed c).

(** The part of the client that belongs to the request side: the
    connection flag, the transport but for its unread bytes, and the
    channels. *)
Definition control (b : Client) :=
  (connected b, option_map conn_static (connection b), pinReportChan b,
   pinStateChan b, i2cChan b, boolChan b, stringDataChan b, Error b,
   nextChan b).

Definition same_control (b b' : Client) : Prop := control b' = control b.

(** The supported modes of the pins, in table order. *)
Definition same_modes (b b' : Client) : Prop :=
  map SupportedModes (pins b') = map SupportedModes (pins b).

(** [m] relates the client it is run on to the client it leaves, however
    it ends. *)
Definition keeps {A} (R : Client -> Client -> Prop) (m : M A) : Prop :=
  forall b,
    match m b with
    | Ok _ b' | Failed _ b' | Panicked b' => R b b'
    | Blocked => True
    end.

(** The client [b] with [rest] as what its transport [c] still holds. *)
Definition holding (rest : list Z) (c : Conn) (b : Client) : Client :=
  set_connection (Some (with_incoming rest c)) b.

(** The state a PinStateResponse carries: the first state byte, and the
    second and third shifted by 7 and 14 when the frame has them. *)
Definition pin_state (s0 : Z) (ext : list Z) : Z :=
  match ext with
  | [] => s0
  | [s1] => Z.lor s0 (Z.shiftl s1 7)
  | s1 :: s2 :: _ => Z.lor (Z.lor s0 (Z.shiftl s1 7)) (Z.shiftl s2 14)
  end.

(** What [try_send] adds to the log. *)
Definition offered (ch : option chan) (o : chan -> Offer) : list Offer :=
  match ch with Some c => [o c] | None => [] end.

(** The name bytes of a firmware report, each followed by a zero byte. *)
Definition zero_interleaved (name : list Z) : list Z :=
  flat_map (fun ch => [ch; 0]) name.

(** The six subcommands [process] knows. *)
Definition known_command (cmd : Z) : Prop :=
  cmd = CapabilityResponse \/ cmd = AnalogMappingResponse \/
  cmd = PinStateResponse \/ cmd = I2CReply \/ cmd = FirmwareQuery \/
  cmd = StringData.

(** The four kinds of frame [process] knows, by status byte. *)
Definition known_status (x : Z) : Prop :=
  x = ProtocolVersion \/ x = StartSysex \/
  AnalogMessageRangeStart <= x <= AnalogMessageRangeEnd \/
  DigitalMessageRangeStart <= x <= DigitalMessageRangeEnd.

(** What an analog message leaves of the client [b0]: the sample is stored
    in the pin the channel is mapped to, when the channel is mapped and the
    pin exists. *)
Definition analog_stored (channel value : Z) (b0 : Client) : Client :=
  match index (analogPins b0) channel with
  | Some k =>
      match index (pins b0) k with
      | Some p =>
          set_offers
            (offers b0
             ++ offered (pinReportChan b0 !! k)
                  (fun ch => OfferPin ch (set_Value value p)))
            (set_pins (<[Z.to_nat k := set_Value value p]> (pins b0)) b0)
      | None => b0
      end
  | None => b0
  end.

(** The value of pin [k], zero when the table has no such pin. *)
Definition pin_value (b : Client) (k : Z) : Z :=
  match index (pins b) k with Some p => Value p | None => 0 end.

(** The client with one more write on its transport. *)
Definition having_written (data : list Z) (c : Conn) (b : Client) : Client :=
  set_connection
    (Some (mkConn (incoming c) (written c ++ [data]) (readErr c) (writeErr c)
             (closed c) (later c))) b.

(** The three bytes of a digital message for a port and its mask, as
    [DigitalWrite] lays them out. *)
Definition digital_frame (port mask : Z) : list Z :=
  [Z.lor DigitalMessage port; Z.land mask 0x7F;
   Z.land (Z.shiftr mask 7) 0x7F].

(** One pin of a capability response: (mode, resolution) pairs and the
    terminator. *)
Definition capability_group (g : list (Z * Z)) : list Z :=
  flat_map (fun mr => [fst mr; snd mr]) g ++ [127].

(** The known modes a group names, in the order the client lists them. *)
Definition modes_of (g : list (Z * Z)) : list Z :=
  List.filter (fun mode => existsb (fun mr => fst mr =? mode) g)
    [Input; Output; Analog; Pwm; Servo].

(** The pin the capability loop creates for a group. *)
Definition discovered (g : list (Z * Z)) : Pin :=
  mkPin (modes_of g) Output 0 0 0.

(** A group whose bytes are all data bytes other than the terminator. *)
Definition group_ok (g : list (Z * Z)) : Prop :=
  Forall (fun mr => 0 <= fst mr /\ fst mr <> 127 /\ snd mr <> 127) g.

(** The pin indices the mapping loop appends: counting from [start], those
    whose channel byte is not [0x7F]. *)
Fixpoint mapped (start : Z) (window : list Z) : list Z :=
  match window with
  | [] => []
  | val :: window' =>
      (if val =? 127 then [] else [start]) ++ mapped (start + 1) window'
  end.

(** The pin table after the mapping loop: the pins from [start] on get the
    channel bytes of the window, one each. *)
Fixpoint assigned (start : nat) (window : list Z) (ps : list Pin) : list Pin :=
  match window with
  | [] => ps
  | val :: window' =>
      match ps !! start with
      | Some p =>
          assigned (S start) window' (<[start := set_AnalogChannel val p]> ps)
      | None => ps
      end
  end.

(** The two data bytes [I2cWrite] sends for a byte. *)
Definition i2c_pair (val : Z) : list Z :=
  [Z.land val 0x7F; Z.land (Z.shiftr val 7) 0x7F].

(** The requests the goroutine of [Connect] has written when it stands at
    [h], after the Reset of [Connect] itself; [None] for a position it
    never takes. *)
Definition requests_sent (h : Connect.Handshake) : option (list (list Z)) :=
  let reset := [[SystemReset]] in
  let version := reset ++ [[ProtocolVersion]] in
  let firmware := version ++ [sysex [FirmwareQuery]] in
  let capability := firmware ++ [sysex [CapabilityQuery]] in
  let mapping := capability ++ [sysex [AnalogMappingQuery]] in
  match h with
  | Connect.HsNotStarted => None
  | Connect.HsQuery Connect.QProtocolVersion => Some reset
  | Connect.HsAwait Connect.QProtocolVersion _
  | Connect.HsQuery Connect.QFirmware => Some version
  | Connect.HsAwait Connect.QFirmware _
  | Connect.HsQuery Connect.QCapability => Some firmware
  | Connect.HsAwait Connect.QCapability _
  | Connect.HsQuery Connect.QAnalogMapping => Some capability
  | Connect.HsSetConnected _
  | Connect.HsAwait Connect.QAnalogMapping _ => Some mapping
  | Connect.HsReportDigital port =>
      if port =? 0 then Some mapping
      else if port =? 1 then Some (mapping ++ [[0xD0; 1]])
      else None
  | Connect.HsDone => Some (mapping ++ [[0xD0; 1]; [0xD1; 1]])
  end.

(** Whether the goroutine has executed [c.connected = true]. *)
Definition past_connected (h : Connect.Handshake) : bool :=
  match h with
  | Connect.HsAwait Connect.QAnalogMapping _
  | Connect.HsReportDigital _
  | Connect.HsDone => true
  | _ => false
  end.

(** What holds of every state [Connect] can be in. *)
Definition handshake_inv (s : Connect.System) : Prop :=
  requests_sent (Connect.handshake s) = Some (Connect.wire s) /\
  connected (Connect.client s) = past_connected (Connect.handshake s) /\
  (exists conn, connection (Connect.client s) = Some conn /\
                writeErr conn = None) /\
  (Connect.main s = Connect.MainReturned None ->
   connected (Connect.client s) = true).

(** [testCapabilitiesResponse] pin by pin: the (mode, resolution) pairs of
    each pin whose terminator lies in the window the capability loop walks.
    The frame ends with the bytes [0; 1; 1; 1; 2] and [10; 6; 1; 127] of
    its twentieth pin. *)
Definition testCapabilityGroups : list (list (Z * Z)) :=
  [[];
   [];
   [(0, 1); (1, 1); (4, 14)];
   [(0, 1); (1, 1); (3, 8); (4, 14)];
   [(0, 1); (1, 1); (4, 14)];
   [(0, 1); (1, 1); (3, 8); (4, 14)];
   [(0, 1); (1, 1); (3, 8); (4, 14)];
   [(0, 1); (1, 1); (4, 14)];
   [(0, 1); (1, 1); (4, 14)];
   [(0, 1); (1, 1); (3, 8); (4, 14)];
   [(0, 1); (1, 1); (3, 8); (4, 14)];
   [(0, 1); (1, 1); (3, 8); (4, 14)];
   [(0, 1); (1, 1); (4, 14)];
   [(0, 1); (1, 1); (4, 14)];
   [(0, 1); (1, 1); (2, 10)];
   [(0, 1); (1, 1); (2, 10)];
   [(0, 1); (1, 1); (2, 10)];
   [(0, 1); (1, 1); (2, 10)];
   [(0, 1); (1, 1); (2, 10); (6, 1)]].

(** A transport on which every read and every write fails with [e]. *)
Definition broken_pipe (e : string) : Conn :=
  mkConn [] [] (Some e) (Some e) false [].


(** * Properties *)

(** ** Bits of the byte codec *)

Section Bits.

Lemma byte_of_small z : 0 <= z < 256 -> byte_of z = z.
Proof. intros H. unfold byte_of. now apply Z.mod_small. Qed.

Lemma byte_of_range z : 0 <= byte_of z < 256.
Proof. unfold byte_of. apply Z.mod_pos_bound. lia. Qed.

Lemma testbit_byte_of z n :
  0 <= n -> Z.testbit (byte_of z) n = (n <? 8) && Z.testbit z n.
Proof.
  intros Hn. unfold byte_of. change 256 with (2 ^ 8).
  destruct (Z.ltb_spec n 8).
  - now rewrite Z.mod_pow2_bits_low.
  - now rewrite Z.mod_pow2_bits_high by lia.
Qed.

Lemma testbit_low7 z n :
  0 <= n -> Z.testbit (Z.land z 0x7F) n = (n <? 7) && Z.testbit z n.
Proof.
  intros Hn. change 0x7F with (Z.ones 7). rewrite Z.land_ones by lia.
  destruct (Z.ltb_spec n 7).
  - now rewrite Z.mod_pow2_bits_low.
  - now rewrite Z.mod_pow2_bits_high by lia.
Qed.

Lemma testbit_above v k n :
  0 <= v < 2 ^ k -> 0 <= k <= n -> Z.testbit v n = false.
Proof.
  intros Hv Hk. rewrite <- (Z.mod_small v (2 ^ k)) by lia.
  now rewrite Z.mod_pow2_bits_high by lia.
Qed.

Lemma land_shiftr_bit m i :
  0 <= i -> Z.land (Z.shiftr m i) 0x01 = Z.b2z (Z.testbit m i).
Proof.
  intros Hi. change 0x01 with (Z.ones 1). rewrite Z.land_ones by lia.
  change (2 ^ 1) with 2. rewrite <- Z.bit0_mod.
  now rewrite Z.shiftr_spec by lia.
Qed.

End Bits.

(** C3.  For every integer v in [0, 16383], the two data bytes the request
    encoders build from v ([v & 0x7F], [(v >> 7) & 0x7F]) are decoded by the
    dispatcher ([lo | hi << 7]) to v again. *)
Theorem unpack14_pack14 (v : Z) :
  0 <= v <= 16383 ->
  unpack14 (fst (pack14 v)) (snd (pack14 v)) = v.
Proof.
  intros Hv. unfold unpack14, pack14; cbn [fst snd].
  apply Z.bits_inj'; intros n Hn.
  rewrite Z.lor_spec, !testbit_byte_of, testbit_low7 by lia.
  destruct (Z.ltb_spec n 7) as [Hlt | Hge].
  - rewrite Z.shiftl_spec_low by lia.
    replace (n <? 8) with true by (symmetry; apply Z.ltb_lt; lia).
    now rewrite orb_false_r.
  - rewrite Z.shiftl_spec by lia.
    rewrite testbit_byte_of, testbit_low7, Z.shiftr_spec by lia.
    replace (n - 7 + 7) with n by lia. cbn [andb].
    destruct (Z.ltb_spec (n - 7) 7) as [Hlo | Hhi].
    + replace (n - 7 <? 8) with true by (symmetry; apply Z.ltb_lt; lia).
      now rewrite andb_false_r, !andb_true_l.
    + rewrite (testbit_above v 14 n) by (change (2 ^ 14) with 16384; lia).
      now rewrite !andb_false_r.
Qed.

Lemma unpack14_pack14_witness :
  0 <= 675 <= 16383 /\ unpack14 (fst (pack14 675)) (snd (pack14 675)) = 675.
Proof. split; [lia | apply (unpack14_pack14 675); lia]. Defined.

(** The wire bytes of [AnalogWrite] carry [pack14], and the analog case of
    the dispatcher stores [unpack14] of the two data bytes. *)
Example analog_sample_675 :
  pack14 675 = (0x23, 0x05) /\ unpack14 0x23 0x05 = 675.
Proof. split; reflexivity. Qed.

(** ** Running the monad *)

Section Run.

Context {A : Type}.

Lemma bind_ok {B} (m : M A) (k : A -> M B) b a b' :
  m b = Ok a b' -> bind m k b = k a b'.
Proof. intros H. unfold bind. now rewrite H. Qed.

Lemma bind_panicked {B} (m : M A) (k : A -> M B) b b' :
  m b = Panicked b' -> bind m k b = Panicked b'.
Proof. intros H. unfold bind. now rewrite H. Qed.

Lemma bind_blocked {B} (m : M A) (k : A -> M B) b :
  m b = Blocked -> bind m k b = Blocked.
Proof. intros H. unfold bind. now rewrite H. Qed.

Lemma at_index_ok (l : list A) i x b :
  index l i = Some x -> at_index l i b = Ok x b.
Proof. intros H. unfold at_index. now rewrite H. Qed.

Lemma at_index_panicked (l : list A) i b :
  index l i = None -> at_index l i b = Panicked b.
Proof. intros H. unfold at_index. now rewrite H. Qed.

Lemma index_Some (l : list A) i x :
  index l i = Some x <-> 0 <= i < len l /\ l !! Z.to_nat i = Some x.
Proof.
  unfold index.
  destruct (Z.leb_spec 0 i), (Z.ltb_spec i (len l)); cbn [andb];
    split; try (intros [? ?]; lia); try easy.
Qed.

Lemma index_None (l : list A) i :
  index l i = None <-> i < 0 \/ len l <= i.
Proof.
  unfold index, len.
  destruct (Z.leb_spec 0 i), (Z.ltb_spec i (Z.of_nat (length l)));
    cbn [andb]; split; try lia; try easy.
  intros Hn. apply lookup_ge_None in Hn. lia.
Qed.

Lemma index_is_Some (l : list A) i :
  0 <= i < len l -> exists x, index l i = Some x.
Proof.
  intros H. destruct (index l i) eqn:E; [eauto |].
  apply index_None in E. lia.
Qed.

End Run.

Lemma pin_at_ok i p b : index (pins b) i = Some p -> pin_at i b = Ok p b.
Proof. intros H. unfold pin_at, bind, get. now apply at_index_ok. Qed.

Lemma pin_at_panicked i b : index (pins b) i = None -> pin_at i b = Panicked b.
Proof. intros H. unfold pin_at, bind, get. now apply at_index_panicked. Qed.

Lemma update_pin_ok i f p b :
  index (pins b) i = Some p ->
  update_pin i f b = Ok tt (set_pins (<[Z.to_nat i := f p]> (pins b)) b).
Proof.
  intros H. unfold update_pin. now rewrite (bind_ok _ _ _ _ _ (pin_at_ok _ _ _ H)).
Qed.

Lemma update_pin_panicked i f b :
  index (pins b) i = None -> update_pin i f b = Panicked b.
Proof.
  intros H. unfold update_pin. now rewrite (bind_panicked _ _ _ _ (pin_at_panicked _ _ H)).
Qed.

(** ** The transport primitives *)

(** [read(n)] on a transport that holds at least [n] bytes returns exactly
    the first [n] and leaves the rest. *)
Lemma read_exact fuel (pre rest : list Z) b c :
  connection b = Some c ->
  incoming c = pre ++ rest ->
  pre <> [] ->
  read (S fuel) (len pre) b
  = Ok pre (set_connection (Some (with_incoming rest c)) b).
Proof.
  intros Hc Hin Hne.
  assert (Hlen : 0 < len pre).
  { unfold len. destruct pre; [congruence | cbn [length]; lia]. }
  unfold read. cbn [read_loop].
  replace (len pre <=? 0) with false by (symmetry; apply Z.leb_gt; lia).
  unfold bind at 1, with_conn. rewrite Hc. unfold conn_Read. rewrite Hin.
  destruct (pre ++ rest) as [| x l] eqn:E.
  { destruct pre; [congruence | discriminate]. }
  rewrite <- E.
  assert (Hmin : Z.min (len pre) (len (pre ++ rest)) = len pre).
  { unfold len. rewrite length_app. lia. }
  rewrite Hmin.
  replace (0 <? len pre) with true by (symmetry; apply Z.ltb_lt; lia).
  rewrite Z.sub_diag. change (Z.to_nat 0) with 0%nat. cbn [replicate].
  unfold len. rewrite Nat2Z.id.
  rewrite take_app_length, drop_app_length, app_nil_r. cbn [app].
  destruct fuel; reflexivity.
Qed.

Lemma read_one fuel x rest b c :
  connection b = Some c ->
  incoming c = x :: rest ->
  read (S fuel) 1 b = Ok [x] (set_connection (Some (with_incoming rest c)) b).
Proof.
  intros Hc Hin. now apply (read_exact fuel [x] rest b c).
Qed.

Lemma read_three fuel x y z rest b c :
  connection b = Some c ->
  incoming c = x :: y :: z :: rest ->
  read (S fuel) 3 b
  = Ok [x; y; z] (set_connection (Some (with_incoming rest c)) b).
Proof.
  intros Hc Hin. now apply (read_exact fuel [x; y; z] rest b c).
Qed.

(** A read on a transport that has run dry, with nothing more to arrive,
    and reports no error never returns: every turn of the loop gets zero
    bytes. *)
Lemma read_loop_dry fuel n buf b c :
  connection b = Some c ->
  incoming c = [] ->
  later c = [] ->
  readErr c = None ->
  0 < n ->
  read_loop fuel n buf b = Blocked.
Proof.
  intros Hc Hin Hlater He Hn. induction fuel as [| fuel IH]; cbn [read_loop].
  - now replace (n <=? 0) with false by (symmetry; apply Z.leb_gt; lia).
  - replace (n <=? 0) with false by (symmetry; apply Z.leb_gt; lia).
    unfold bind at 1, with_conn. rewrite Hc. unfold conn_Read.
    rewrite Hin, Hlater, He. cbn [Z.ltb Z.compare].
    assert (Hsame : set_connection (Some c) b = b).
    { destruct b; cbn in *. now rewrite Hc. }
    rewrite Hsame. exact IH.
Qed.

Lemma write_ok data b c :
  connection b = Some c ->
  writeErr c = None ->
  write data b
  = Ok tt (set_connection
             (Some (mkConn (incoming c) (written c ++ [data]) (readErr c)
                      (writeErr c) (closed c) (later c))) b).
Proof.
  intros Hc He. unfold write, bind, with_conn, conn_Write.
  now rewrite Hc, He.
Qed.

Lemma write_failed data b c e :
  connection b = Some c ->
  writeErr c = Some e ->
  write data b = Failed e b.
Proof.
  intros Hc He. unfold write, bind, with_conn, conn_Write.
  rewrite Hc, He. unfold fail.
  destruct b; cbn in *. now rewrite Hc.
Qed.

(** [writeSysex] puts exactly the envelope [sysex data] on the wire. *)
Lemma writeSysex_written data b c :
  connection b = Some c ->
  writeErr c = None ->
  exists b' c',
    writeSysex data b = Ok tt b' /\ connection b' = Some c' /\
    written c' = written c ++ [sysex data].
Proof.
  intros Hc He. unfold writeSysex. rewrite (write_ok _ _ _ Hc He).
  eexists _, _. split; [reflexivity |]. split; reflexivity.
Qed.

(** ** The sysex envelope and the frame reader *)

Lemma readSysex_spec (body : list Z) :
  forall (fuel : nat) (currentBuffer rest : list Z) (b : Client) (c : Conn),
    connection b = Some c ->
    incoming c = body ++ EndSysex :: rest ->
    Forall (fun x => x <> EndSysex) body ->
    (length body < fuel)%nat ->
    readSysex fuel currentBuffer b
    = Ok (currentBuffer ++ body ++ [EndSysex])
        (set_connection (Some (with_incoming rest c)) b).
Proof.
  induction body as [| x body IH]; intros fuel cb rest b c Hc Hin Hno Hfuel;
    (destruct fuel as [| fuel]; [cbn [length] in Hfuel; lia |]);
    cbn [readSysex app] in *.
  - rewrite (bind_ok _ _ _ _ _ (read_one fuel _ _ _ _ Hc Hin)).
    rewrite (bind_ok _ _ _ _ _ (at_index_ok [EndSysex] 0 EndSysex _ eq_refl)).
    now rewrite Z.eqb_refl.
  - rewrite (bind_ok _ _ _ _ _ (read_one fuel _ _ _ _ Hc Hin)).
    rewrite (bind_ok _ _ _ _ _ (at_index_ok [x] 0 x _ eq_refl)).
    inversion Hno as [| ? ? Hx Hbody]; subst.
    replace (x =? EndSysex) with false by (symmetry; now apply Z.eqb_neq).
    rewrite (IH fuel (cb ++ [x]) rest _ (with_incoming (body ++ EndSysex :: rest) c));
      [| reflexivity | reflexivity | assumption | cbn [length] in Hfuel; lia].
    now rewrite <- app_assoc.
Qed.

(** The result of [readSysex] is strictly longer than the buffer it started
    from: at least one byte is appended before the loop can end. *)
Lemma readSysex_grows fuel :
  forall currentBuffer b r b',
    readSysex fuel currentBuffer b = Ok r b' ->
    (length currentBuffer < length r)%nat.
Proof.
  induction fuel as [| fuel IH]; intros cb b r b' H; cbn [readSysex] in H.
  - discriminate.
  - unfold bind in H.
    destruct (read (S fuel) 1 b) as [buf b1 | | |]; try discriminate.
    destruct (at_index buf 0 b1) as [b0 b2 | | |]; try discriminate.
    destruct (b0 =? EndSysex).
    + unfold ret in H. injection H as <- _. rewrite length_app. cbn. lia.
    + apply IH in H. rewrite length_app in H. cbn in H. lia.
Qed.

(** One byte off a stream that arrives in pieces: the read polls the
    transport until a piece with a byte in it has arrived. *)
Lemma read_one_stream (ps : list (list Z)) :
  forall (fuel : nat) (x : Z) (rest : list Z) (b : Client) (c : Conn),
    connection b = Some c ->
    later c = ps ->
    stream c = x :: rest ->
    (length ps < fuel)%nat ->
    exists c',
      read fuel 1 b = Ok [x] (set_connection (Some c') b) /\
      stream c' = rest /\
      (length (later c') <= length ps)%nat.
Proof.
  induction ps as [| piece ps IH]; intros fuel x rest b c Hc Hlater Hs Hfuel;
    (destruct fuel as [| fuel]; [cbn [length] in Hfuel; lia |]);
    unfold stream in Hs; rewrite Hlater in Hs;
    destruct (incoming c) as [| y l] eqn:Hin.
  - discriminate Hs.
  - cbn [concat] in Hs. rewrite app_nil_r in Hs. injection Hs as -> ->.
    exists (with_incoming rest c). split; [| split].
    + exact (read_one fuel x rest b c Hc Hin).
    + unfold stream. cbn [incoming later with_incoming]. rewrite Hlater.
      cbn [concat]. now rewrite app_nil_r.
    + cbn [later with_incoming]. now rewrite Hlater.
  - cbn [concat app] in Hs.
    unfold read. cbn [read_loop]. change (1 <=? 0) with false. cbv iota.
    unfold bind at 1, with_conn. rewrite Hc. unfold conn_Read.
    rewrite Hin, Hlater.
    destruct piece as [| z piece].
    + (* nothing came: the read is tried again *)
      cbn [app] in Hs.
      change (Z.min 1 (len (@nil Z))) with 0. change (0 <? 0) with false.
      cbv iota beta zeta.
      set (c1 := with_incoming (drop (Z.to_nat 0) []) (with_later ps c)).
      destruct (IH fuel x rest (set_connection (Some c1) b) c1)
        as (c' & Hread & Hrest & Hlen).
      * reflexivity.
      * reflexivity.
      * exact Hs.
      * cbn [length] in Hfuel. lia.
      * exists c'. split; [exact Hread |]. split; [exact Hrest |].
        cbn [length]. lia.
    + (* a piece came: its first byte is the byte read *)
      cbn [app] in Hs. injection Hs as -> Hrest.
      assert (Hmin : Z.min 1 (len (x :: piece)) = 1)
        by (unfold len; cbn [length]; lia).
      rewrite Hmin. change (0 <? 1) with true. cbv iota beta zeta.
      change (Z.to_nat (1 - 1)) with 0%nat. change (Z.to_nat 1) with 1%nat.
      cbn [take drop replicate app].
      exists (with_incoming piece (with_later ps c)).
      split; [| split].
      * destruct fuel; reflexivity.
      * exact Hrest.
      * cbn [later with_incoming with_later length]. lia.
  - cbn [app] in Hs. injection Hs as -> Hrest.
    exists (with_incoming l c). split; [| split].
    + exact (read_one fuel x l b c Hc Hin).
    + unfold stream. cbn [incoming later with_incoming]. now rewrite Hlater.
    + cbn [later with_incoming]. now rewrite Hlater.
Qed.

(** The sysex loop on a stream that arrives in pieces: it returns at the
    first [EndSysex], with every byte up to it appended, whatever the
    pieces are. *)
Lemma readSysex_stream (body : list Z) :
  forall (fuel : nat) (currentBuffer rest : list Z) (b : Client) (c : Conn),
    connection b = Some c ->
    stream c = body ++ EndSysex :: rest ->
    Forall (fun x => x <> EndSysex) body ->
    (length body + length (later c) < fuel)%nat ->
    exists c',
      readSysex fuel currentBuffer b
      = Ok (currentBuffer ++ body ++ [EndSysex])
          (set_connection (Some c') b) /\
      stream c' = rest.
Proof.
  induction body as [| x body IH]; intros fuel cb rest b c Hc Hs Hno Hfuel;
    (destruct fuel as [| fuel]; [lia |]);
    cbn [app] in Hs;
    destruct (read_one_stream (later c) (S fuel) _ _ b c Hc eq_refl Hs
                ltac:(lia)) as (c1 & Hread & Hrest & Hlen);
    cbn [readSysex app];
    rewrite (bind_ok _ _ _ _ _ Hread).
  - rewrite (bind_ok _ _ _ _ _ (at_index_ok [EndSysex] 0 EndSysex _ eq_refl)).
    rewrite Z.eqb_refl. exists c1. split; [reflexivity | exact Hrest].
  - rewrite (bind_ok _ _ _ _ _ (at_index_ok [x] 0 x _ eq_refl)).
    inversion Hno as [| ? ? Hx Hbody]; subst.
    replace (x =? EndSysex) with false by (symmetry; now apply Z.eqb_neq).
    destruct (IH fuel (cb ++ [x]) rest (set_connection (Some c1) b) c1)
      as (c' & Hloop & Hend).
    + reflexivity.
    + exact Hrest.
    + exact Hbody.
    + cbn [length] in Hfuel. lia.
    + exists c'. split; [| exact Hend].
      rewrite Hloop. now rewrite <- app_assoc.
Qed.

(** C4 (amended).  For every byte sequence B of at least two bytes that
    contains no 0xF7, the frame reader run on a transport that delivers
    the envelope [0xF0, B..., 0xF7] that writeSysex builds, with the first
    three bytes of it at hand for the first read and the others arriving
    in pieces of any size, returns that envelope, body B between the two
    markers, and leaves what follows it to the transport. *)
Theorem sysex_roundtrip (B rest : list Z) (fuel : nat) (b : Client) (c : Conn) :
  (2 <= length B)%nat ->
  Forall (fun x => x <> EndSysex) B ->
  connection b = Some c ->
  stream c = sysex B ++ rest ->
  3 <= len (incoming c) ->
  (length B + length (later c) < fuel)%nat ->
  exists c',
    read_frame fuel b
    = Ok ([StartSysex] ++ B ++ [EndSysex]) (set_connection (Some c') b) /\
    stream c' = rest.
Proof.
  intros Hlen Hno Hc Hs Hthree Hfuel.
  destruct B as [| x [| y body]]; cbn [length] in Hlen; try lia.
  destruct fuel as [| fuel]; [lia |].
  destruct (incoming c) as [| i0 [| i1 [| i2 l]]] eqn:Hin;
    try (unfold len in Hthree; cbn [length] in Hthree; lia).
  unfold stream, sysex in Hs. rewrite Hin in Hs. cbn [app] in Hs.
  injection Hs as -> -> -> Hs.
  unfold read_frame.
  rewrite (bind_ok _ _ _ _ _ (read_three fuel StartSysex x y l b c Hc Hin)).
  rewrite (bind_ok _ _ _ _ _
             (at_index_ok [StartSysex; x; y] 0 StartSysex _ eq_refl)).
  rewrite Z.eqb_refl.
  inversion Hno as [| ? ? _ Hno1]; subst.
  inversion Hno1 as [| ? ? _ Hno2]; subst.
  destruct (readSysex_stream body (S fuel) [StartSysex; x; y] rest
              (set_connection (Some (with_incoming l c)) b)
              (with_incoming l c))
    as (c' & Hloop & Hend).
  - reflexivity.
  - unfold stream. cbn [incoming later with_incoming].
    rewrite Hs. now rewrite <- app_assoc.
  - exact Hno2.
  - cbn [later with_incoming]. cbn [length] in Hfuel. lia.
  - exists c'. split; [| exact Hend]. rewrite Hloop. reflexivity.
Qed.

Lemma sysex_roundtrip_witness :
  let c := mkConn [StartSysex; StringData; 72] [] None None false
             [[105]; []; [EndSysex; 0x90]] in
  exists c',
    read_frame 7 (set_connection (Some c) New)
    = Ok ([StartSysex] ++ [StringData; 72; 105] ++ [EndSysex])
        (set_connection (Some c') (set_connection (Some c) New)) /\
    stream c' = [0x90].
Proof.
  intros c.
  apply (sysex_roundtrip [StringData; 72; 105] [0x90] 7
           (set_connection (Some c) New) c).
  - cbn [length]; lia.
  - repeat constructor; unfold StringData, EndSysex; lia.
  - reflexivity.
  - reflexivity.
  - vm_compute. discriminate.
  - cbn [length later c]; lia.
Defined.

(** C4 (counterexample).  The claim as stated, bodies of zero or one byte
    included, fails at the empty body: the three-byte first read of the
    reader takes the terminator of [0xF0, 0xF7] in, so whatever follows on
    the transport the reader does not return that envelope. *)
Lemma sysex_roundtrip_empty_body_fails :
  ~ (forall B : list Z,
       Forall (fun x => x <> EndSysex) B ->
       exists rest fuel b',
         read_frame fuel (feed (sysex B ++ rest) New) = Ok (sysex B) b').
Proof.
  intros H. destruct (H [] ltac:(constructor)) as (rest & fuel & b' & Hr).
  unfold read_frame, sysex in Hr. cbn [app] in Hr.
  destruct fuel as [| fuel]; [discriminate |].
  destruct rest as [| z rest].
  - (* nothing follows: the read of three bytes never completes *)
    unfold read in Hr. cbn [read_loop] in Hr.
    change (3 <=? 0) with false in Hr. cbv iota in Hr.
    unfold bind at 1 in Hr. unfold bind at 1 in Hr.
    unfold with_conn, feed in Hr. cbn [connection set_connection] in Hr.
    unfold conn_Read, pipe in Hr. cbn [incoming] in Hr.
    change (Z.min 3 (len [StartSysex; EndSysex])) with 2 in Hr.
    cbn [Z.ltb Z.compare Z.sub Z.to_nat Pos.to_nat Pos.iter_op Init.Nat.add
         take drop replicate app with_incoming Z.add Z.opp Z.pos_sub
         Pos.pred_double] in Hr.
    change (Z.to_nat 2) with 2%nat in Hr. change (Z.to_nat 1) with 1%nat in Hr.
    cbn [take drop replicate app] in Hr.
    rewrite (read_loop_dry fuel 1 _ _
               (mkConn [] [] None None false [])) in Hr;
      try reflexivity; try lia.
    discriminate.
  - (* a byte follows: the buffer returned is longer than the envelope *)
    rewrite (bind_ok _ _ _ _ _
               (read_three fuel StartSysex EndSysex z rest
                  (feed (StartSysex :: EndSysex :: z :: rest) New)
                  (pipe (StartSysex :: EndSysex :: z :: rest))
                  eq_refl eq_refl)) in Hr.
    rewrite (bind_ok _ _ _ _ _
               (at_index_ok [StartSysex; EndSysex; z] 0 StartSysex _ eq_refl))
      in Hr.
    rewrite Z.eqb_refl in Hr.
    apply readSysex_grows in Hr. cbn [length] in Hr. lia.
Qed.

(** A one-byte body is lost the same way: the terminator is read with the
    first three bytes and the reader runs on into the next frame. *)
Example sysex_one_byte_body_runs_on :
  exists b',
    read_frame 8 (feed (sysex [StringData] ++ sysex [StringData; 65]) New)
    = Ok (sysex [StringData] ++ sysex [StringData; 65]) b'.
Proof. eexists. vm_compute. reflexivity. Qed.

(** On a transport that hands the same envelope over one byte to a read,
    the first, three-byte read comes back short twice, and [read] appends
    the whole of its buffer each time ([append(buf, tmp...)]): the frame
    returned has zero bytes in it that were never sent.  The round trip
    above says nothing of such a transport. *)
Example short_reads_pad_the_frame :
  exists b',
    read_frame 8 (set_connection (Some (trickle (sysex [StringData; 65]))) New)
    = Ok [StartSysex; 0; 0; StringData; 0; 65; EndSysex] b'.
Proof. eexists. vm_compute. reflexivity. Qed.

(** ** SetPinMode *)

(** C5 (counterexample).  The claim as stated fails: on a pin whose
    supported modes are Input and Output, SetPinMode(0, Servo) returns no
    error, writes [0xF4, 0, 4] and changes the pin's mode to Servo. *)
Lemma SetPinMode_unsupported_mode_accepted :
  ~ In Servo (SupportedModes io_pin) /\
  exists b',
    SetPinMode 0 Servo (feed [] (set_pins [io_pin] New)) = Ok tt b' /\
    option_map written (connection b') = Some [[PinMode; 0; Servo]] /\
    option_map Mode (pins b' !! 0%nat) = Some Servo.
Proof.
  split.
  - cbn. unfold Servo, Input, Output. lia.
  - eexists. split; [vm_compute; reflexivity |]. split; reflexivity.
Qed.

(** C5 (amended).  SetPinMode does not look at the pin's supported modes:
    for every pin p of the table and every mode m, supported or not, when
    the transport accepts the write it puts [0xF4, p, m] on the wire, sets
    the pin's mode to m and returns no error. *)
Theorem SetPinMode_any_mode (b : Client) (c : Conn) (p m : Z) (pin : Pin) :
  connection b = Some c ->
  writeErr c = None ->
  index (pins b) (byte_of p) = Some pin ->
  SetPinMode p m b
  = Ok tt
      (set_pins (<[Z.to_nat (byte_of p) := set_Mode m pin]> (pins b))
         (set_connection
            (Some (mkConn (incoming c)
                     (written c ++ [[PinMode; byte_of p; byte_of m]])
                     (readErr c) (writeErr c) (closed c) (later c))) b)).
Proof.
  intros Hc He Hp. unfold SetPinMode.
  rewrite (bind_ok _ _ _ _ _ (write_ok _ _ _ Hc He)).
  now rewrite (update_pin_ok _ _ pin) by exact Hp.
Qed.

Lemma SetPinMode_any_mode_witness :
  SetPinMode 0 Servo (feed [] (set_pins [io_pin] New))
  = Ok tt
      (set_pins (<[Z.to_nat (byte_of 0) := set_Mode Servo io_pin]> [io_pin])
         (set_connection
            (Some (mkConn [] ([] ++ [[PinMode; byte_of 0; byte_of Servo]])
                     None None false []))
            (feed [] (set_pins [io_pin] New)))).
Proof.
  apply (SetPinMode_any_mode (feed [] (set_pins [io_pin] New)) (pipe [])
           0 Servo io_pin); reflexivity.
Defined.

(** The only error SetPinMode returns is the transport's, and then the
    pin table is left as it was. *)
Lemma SetPinMode_write_error (b : Client) (c : Conn) (p m : Z) (e : string) :
  connection b = Some c ->
  writeErr c = Some e ->
  SetPinMode p m b = Failed e b.
Proof.
  intros Hc He. unfold SetPinMode, bind.
  now rewrite (write_failed _ _ _ _ Hc He).
Qed.

(** A frame that does not open a sysex is the three bytes first read. *)
Lemma read_frame_plain fuel x y z rest b c :
  connection b = Some c ->
  incoming c = x :: y :: z :: rest ->
  (StartSysex =? x) = false ->
  read_frame (S fuel) b
  = Ok [x; y; z] (set_connection (Some (with_incoming rest c)) b).
Proof.
  intros Hc Hin Hx. unfold read_frame.
  rewrite (bind_ok _ _ _ _ _ (read_three fuel _ _ _ _ _ _ Hc Hin)).
  rewrite (bind_ok _ _ _ _ _ (at_index_ok [x; y; z] 0 x _ eq_refl)).
  now rewrite Hx.
Qed.

(** ** Digital messages *)

Lemma try_send_pins ch o b :
  exists b', try_send ch o b = Ok tt b' /\ pins b' = pins b.
Proof. destruct ch; cbn; eauto. Qed.

Lemma index_insert_same {A} (l : list A) k x y :
  index l k = Some y -> index (<[Z.to_nat k := x]> l) k = Some x.
Proof.
  intros H. apply index_Some in H as [Hk Hl]. apply index_Some.
  unfold len in *. rewrite length_insert. split; [lia |].
  apply list_lookup_insert_eq. lia.
Qed.

Lemma index_insert_other {A} (l : list A) k j x :
  0 <= k -> j <> k -> index (<[Z.to_nat k := x]> l) j = index l j.
Proof.
  intros Hk Hne. unfold index, len. rewrite length_insert.
  destruct ((0 <=? j) && (j <? Z.of_nat (length l))) eqn:E; [| reflexivity].
  apply andb_true_iff in E as [E1 E2]. apply Z.leb_le in E1.
  apply list_lookup_insert_ne. lia.
Qed.

(** The bit of the port mask the digital case stores for bit [i]. *)
Lemma digital_bit portValue i :
  0 <= i < 8 ->
  Z.land (Z.shiftr portValue (Z.land (byte_of i) 0x07)) 0x01
  = Z.b2z (Z.testbit portValue i).
Proof.
  intros Hi. rewrite byte_of_small by lia.
  change 0x07 with (Z.ones 3). rewrite Z.land_ones by lia.
  change (2 ^ 3) with 8. rewrite Z.mod_small by lia.
  apply land_shiftr_bit. lia.
Qed.

(** What the digital loop does to the pin table: a pin of the port that is
    named by one of [bits] and is in Input mode gets its bit of the mask;
    every other pin of the table is left as it is. *)
Lemma digital_loop_pins (port portValue : Z) (bits : list Z) :
  0 <= port < 16 ->
  Forall (fun i => 0 <= i < 8) bits ->
  forall b, exists b',
    digital_loop port portValue bits b = Ok tt b' /\
    forall k p,
      index (pins b) k = Some p ->
      index (pins b') k
      = Some (if existsb (fun i => 8 * port + i =? k) bits && (Mode p =? Input)
              then set_Value (Z.b2z (Z.testbit portValue (k - 8 * port))) p
              else p).
Proof.
  intros Hport Hbits. induction Hbits as [| i bits Hi _ IH]; intros b.
  - exists b. split; [reflexivity |]. intros k p Hk. exact Hk.
  - cbn [digital_loop existsb].
    rewrite digital_bit by lia.
    rewrite (byte_of_small port), (byte_of_small i),
      (byte_of_small (8 * port + i)) by lia.
    unfold bind at 1, get. unfold bind at 1.
    set (k0 := 8 * port + i).
    destruct (len (pins b) >? k0) eqn:Hlen.
    + assert (Hk0 : 0 <= k0 < len (pins b)) by (subst k0; lia).
      destruct (index_is_Some (pins b) k0 Hk0) as [p0 Hp0].
      rewrite (bind_ok _ _ _ _ _ (pin_at_ok _ _ _ Hp0)).
      destruct (Mode p0 =? Input) eqn:Hmode.
      * rewrite (bind_ok _ _ _ _ _ (update_pin_ok _ _ _ _ Hp0)).
        set (v := Z.b2z (Z.testbit portValue i)).
        set (b1 := set_pins (<[Z.to_nat k0 := set_Value v p0]> (pins b)) b).
        assert (Hp1 : index (pins b1) k0 = Some (set_Value v p0))
          by (apply (index_insert_same _ _ _ _ Hp0)).
        rewrite (bind_ok _ _ _ _ _ (pin_at_ok _ _ _ Hp1)).
        destruct (try_send_pins (pinReportChan b !! k0)
                    (fun ch => OfferPin ch (set_Value v p0)) b1)
          as (b2 & Hsend & Hpins2).
        rewrite Hsend.
        destruct (IH b2) as (b' & Hrun & Hspec).
        exists b'. split; [exact Hrun |]. intros k p Hk.
        destruct (Z.eq_dec k k0) as [-> | Hne].
        -- rewrite Hp0 in Hk. injection Hk as <-.
           rewrite (Hspec k0 (set_Value v p0)) by (now rewrite Hpins2).
           rewrite Z.eqb_refl. cbn [orb andb Mode set_Value]. rewrite Hmode.
           replace (k0 - 8 * port) with i by (subst k0; lia).
           fold v. now destruct (existsb _ bits).
        -- rewrite (Hspec k p).
           ++ now replace (k0 =? k) with false
                by (symmetry; apply Z.eqb_neq; lia).
           ++ rewrite Hpins2. subst b1. cbn [pins set_pins].
              rewrite index_insert_other by lia. exact Hk.
      * unfold ret at 1.
        destruct (IH b) as (b' & Hrun & Hspec).
        exists b'. split; [exact Hrun |]. intros k p Hk.
        rewrite (Hspec k p Hk).
        destruct (Z.eqb_spec k0 k) as [<- | Hne]; [| reflexivity].
        rewrite Hp0 in Hk. injection Hk as <-.
        rewrite Hmode. now rewrite !andb_false_r.
    + unfold ret at 1.
      destruct (IH b) as (b' & Hrun & Hspec).
      exists b'. split; [exact Hrun |]. intros k p Hk.
      rewrite (Hspec k p Hk).
      destruct (Z.eqb_spec k0 k) as [<- | Hne]; [| reflexivity].
      apply index_Some in Hk as [Hk _]. lia.
Qed.

(** The status byte [0x90 | port] falls in the digital range only, and its
    low nibble is the port. *)
Lemma digital_status_byte port :
  0 <= port <= 15 ->
  let messageType := Z.lor DigitalMessage port in
  (StartSysex =? messageType) = false /\
  (ProtocolVersion =? messageType) = false /\
  (AnalogMessageRangeStart <=? messageType)
    && (AnalogMessageRangeEnd >=? messageType) = false /\
  (DigitalMessageRangeStart <=? messageType)
    && (DigitalMessageRangeEnd >=? messageType) = true /\
  Z.land messageType 0x0F = port.
Proof.
  intros Hport.
  assert (Hcases : port = 0 \/ port = 1 \/ port = 2 \/ port = 3 \/ port = 4 \/
                   port = 5 \/ port = 6 \/ port = 7 \/ port = 8 \/ port = 9 \/
                   port = 10 \/ port = 11 \/ port = 12 \/ port = 13 \/
                   port = 14 \/ port = 15) by lia.
  repeat (destruct Hcases as [-> | Hcases]); try subst port;
    repeat split; reflexivity.
Qed.

Lemma port_bits_cover port i :
  0 <= i < 8 ->
  existsb (fun j => 8 * port + j =? 8 * port + i) [0; 1; 2; 3; 4; 5; 6; 7]
  = true.
Proof.
  intros Hi. apply existsb_exists. exists i. split; [| apply Z.eqb_refl].
  assert (Hcases : i = 0 \/ i = 1 \/ i = 2 \/ i = 3 \/ i = 4 \/ i = 5 \/
                   i = 6 \/ i = 7) by lia.
  cbn [List.In]. intuition.
Qed.

Lemma port_bits_miss port k :
  k < 8 * port \/ 8 * port + 8 <= k ->
  existsb (fun j => 8 * port + j =? k) [0; 1; 2; 3; 4; 5; 6; 7] = false.
Proof.
  intros Hk. destruct (existsb _ _) eqn:E; [| reflexivity].
  apply existsb_exists in E as (j & Hin & Hj). apply Z.eqb_eq in Hj.
  cbn [List.In] in Hin. intuition lia.
Qed.

(** C6.  An incoming Digital(port, mask) frame, mask being the byte the
    dispatcher rebuilds from the two data bytes: every pin 8*port+i of the
    table whose mode is not Input is left unchanged, every such pin whose
    mode is Input has its value set to bit i of the mask; the pins of the
    other ports are not touched. *)
Theorem digital_message_effect
    (fuel : nat) (b : Client) (c : Conn) (port b1 b2 : Z) (rest : list Z) :
  0 <= port <= 15 ->
  connection b = Some c ->
  incoming c = Z.lor DigitalMessage port :: b1 :: b2 :: rest ->
  exists b',
    process (S fuel) b = Ok tt b' /\
    (forall i p,
        0 <= i < 8 ->
        index (pins b) (8 * port + i) = Some p ->
        index (pins b') (8 * port + i)
        = Some (if Mode p =? Input
                then set_Value (Z.b2z (Z.testbit (byte_join b1 b2) i)) p
                else p)) /\
    (forall k p,
        k < 8 * port \/ 8 * port + 8 <= k ->
        index (pins b) k = Some p -> index (pins b') k = Some p).
Proof.
  intros Hport Hc Hin.
  destruct (digital_status_byte port Hport) as (F1 & F2 & F3 & F4 & F5).
  cbv zeta in F1, F2, F3, F4, F5.
  set (messageType := Z.lor DigitalMessage port) in *.
  set (b0 := set_connection (Some (with_incoming rest c)) b).
  destruct (digital_loop_pins port (byte_join b1 b2) [0; 1; 2; 3; 4; 5; 6; 7]
              ltac:(lia) ltac:(repeat constructor; lia) b0)
    as (b' & Hrun & Hspec).
  exists b'. split; [| split].
  - unfold process.
    rewrite (bind_ok _ _ _ _ _
               (read_frame_plain fuel _ _ _ _ _ _ Hc Hin F1)).
    fold b0. unfold dispatch.
    rewrite (bind_ok _ _ _ _ _
               (at_index_ok [messageType; b1; b2] 0 messageType _ eq_refl)).
    rewrite F2, F3, F4.
    rewrite (bind_ok _ _ _ _ _
               (at_index_ok [messageType; b1; b2] 1 b1 _ eq_refl)).
    rewrite (bind_ok _ _ _ _ _
               (at_index_ok [messageType; b1; b2] 2 b2 _ eq_refl)).
    rewrite F5. exact Hrun.
  - intros i p Hi Hp.
    rewrite (Hspec _ p Hp), port_bits_cover by exact Hi.
    now replace (8 * port + i - 8 * port) with i by lia.
  - intros k p Hk Hp.
    now rewrite (Hspec _ p Hp), port_bits_miss by exact Hk.
Qed.

(** For data bytes the eight bits of that mask are the low eight bits of
    [unpack14] of the pair. *)
Lemma digital_mask_bits b1 b2 i :
  0 <= b2 < 128 -> 0 <= i < 8 ->
  Z.testbit (byte_join b1 b2) i = Z.testbit (unpack14 b1 b2) i.
Proof.
  intros Hb2 Hi. unfold byte_join, unpack14.
  rewrite !Z.lor_spec, !testbit_byte_of by lia.
  rewrite (byte_of_small b2) by lia.
  now replace (i <? 8) with true by (symmetry; apply Z.ltb_lt; lia).
Qed.

Lemma digital_message_effect_witness :
  0 <= 0 <= 15 /\
  exists b',
    process 1 (feed [Z.lor DigitalMessage 0; 0x04; 0x00]
                 (set_pins (replicate 8 (mkPin [] Input 0 0 0)) New))
    = Ok tt b' /\
    (forall i p,
        0 <= i < 8 ->
        index (replicate 8 (mkPin [] Input 0 0 0)) (8 * 0 + i) = Some p ->
        index (pins b') (8 * 0 + i)
        = Some (if Mode p =? Input
                then set_Value (Z.b2z (Z.testbit (byte_join 0x04 0x00) i)) p
                else p)) /\
    (forall k p,
        k < 8 * 0 \/ 8 * 0 + 8 <= k ->
        index (replicate 8 (mkPin [] Input 0 0 0)) k = Some p ->
        index (pins b') k = Some p).
Proof.
  split; [lia |].
  apply (digital_message_effect 0
           (feed [Z.lor DigitalMessage 0; 0x04; 0x00]
              (set_pins (replicate 8 (mkPin [] Input 0 0 0)) New))
           (pipe [Z.lor DigitalMessage 0; 0x04; 0x00]) 0 0x04 0x00 []);
    [lia | reflexivity | reflexivity].
Defined.

(** The digital-read scenario of the test suite: pin 2 in Input mode and the
    frame [0x90, 0x04, 0x00] give pin 2 the value 1; the other pins of port
    0, in Output mode after discovery, keep the value 0. *)
Example digital_read_pin2 :
  let b := set_pins (<[2%nat := set_Mode Input io_pin]> (replicate 8 io_pin))
             New in
  option_map (fun b' => map Value (pins b'))
    (client_after (process 1 (feed [0x90; 0x04; 0x00] b)))
  = Some [0; 0; 1; 0; 0; 0; 0; 0].
Proof. vm_compute. reflexivity. Qed.

(** ** DigitalWrite *)

Section PortMask.

Variables (port : Z) (b : Client).

(** The mask loop stops with a panic at the first pin of the port that
    the table does not hold. *)
Lemma port_mask_panicked (bits : list Z) :
  Exists (fun i => index (pins b) (byte_of (8 * port + i)) = None) bits ->
  forall portValue, port_mask port bits portValue b = Panicked b.
Proof.
  induction bits as [| i bits IH]; intros HE portValue.
  - inversion HE.
  - cbn [port_mask].
    destruct (index (pins b) (byte_of (8 * port + i))) as [p |] eqn:E.
    + rewrite (bind_ok _ _ _ _ _ (pin_at_ok _ _ _ E)).
      apply IH. inversion HE; [congruence | assumption].
    + now rewrite (bind_panicked _ _ _ _ (pin_at_panicked _ _ E)).
Qed.

(** It runs to its end when the table holds every pin it reads, and
    changes nothing. *)
Lemma port_mask_ok (bits : list Z) :
  Forall (fun i => 0 <= byte_of (8 * port + i) < len (pins b)) bits ->
  forall portValue, exists mask, port_mask port bits portValue b = Ok mask b.
Proof.
  induction bits as [| i bits IH]; intros HF portValue.
  - exists portValue. reflexivity.
  - inversion HF as [| ? ? Hi Hrest]; subst. cbn [port_mask].
    destruct (index_is_Some _ _ Hi) as [p Hp].
    rewrite (bind_ok _ _ _ _ _ (pin_at_ok _ _ _ Hp)).
    apply IH. exact Hrest.
Qed.

End PortMask.

(** C10.  DigitalWrite(p, v) builds the port mask from the eight pins
    8*(p/8) + i, i in 0..7, so a valid pin index p (a byte, as pin numbers
    are on the wire) in a last, partial port makes it index the pin table
    out of bounds: the call panics, after it has stored v in pin p. *)
Theorem DigitalWrite_partial_port (b : Client) (p v : Z) (pin : Pin) :
  index (pins b) p = Some pin ->
  p < 256 ->
  len (pins b) < 8 * (p / 8) + 8 ->
  DigitalWrite p v b
  = Panicked (set_pins (<[Z.to_nat p := set_Value v pin]> (pins b)) b).
Proof.
  intros Hp Hbyte Hshort. unfold DigitalWrite.
  rewrite (bind_ok _ _ _ _ _ (update_pin_ok _ _ _ _ Hp)).
  apply bind_panicked. apply port_mask_panicked.
  apply index_Some in Hp as [Hrange _].
  assert (Hport : 0 <= p / 8 < 32) by (split; [apply Z.div_pos |
    apply Z.div_lt_upper_bound]; lia).
  rewrite (byte_of_small (p / 8)) by lia.
  do 7 apply Exists_cons_tl. apply Exists_cons_hd.
  rewrite byte_of_small by lia.
  apply index_None. right. cbn [pins set_pins].
  unfold len in *. rewrite length_insert. lia.
Qed.

Lemma DigitalWrite_partial_port_witness :
  DigitalWrite 19 1 uno20
  = Panicked
      (set_pins
         (<[Z.to_nat 19 := set_Value 1 (mkPin [Input; Output] Output 0 0 0)]>
            (pins uno20)) uno20).
Proof.
  apply (DigitalWrite_partial_port uno20 19 1
           (mkPin [Input; Output] Output 0 0 0)).
  - reflexivity.
  - lia.
  - vm_compute. reflexivity.
Defined.

(** When the whole port of p is in the table the call does not panic on
    the table: it gets as far as the write of the digital message. *)
Lemma DigitalWrite_whole_port (b : Client) (c : Conn) (p v : Z) (pin : Pin) :
  index (pins b) p = Some pin ->
  p < 256 ->
  8 * (p / 8) + 8 <= len (pins b) ->
  connection b = Some c ->
  writeErr c = None ->
  exists b', DigitalWrite p v b = Ok tt b'.
Proof.
  intros Hp Hbyte Hwhole Hc He. unfold DigitalWrite.
  rewrite (bind_ok _ _ _ _ _ (update_pin_ok _ _ _ _ Hp)).
  apply index_Some in Hp as [Hrange _].
  assert (Hport : 0 <= p / 8 < 32) by (split; [apply Z.div_pos |
    apply Z.div_lt_upper_bound]; lia).
  set (b1 := set_pins _ b).
  destruct (port_mask_ok (byte_of (p / 8)) b1 [0; 1; 2; 3; 4; 5; 6; 7]) with
    (portValue := 0) as [mask Hmask].
  { rewrite (byte_of_small (p / 8)) by lia.
    assert (Hlen : len (pins b1) = len (pins b))
      by (subst b1; cbn [pins set_pins]; unfold len; now rewrite length_insert).
    repeat constructor; rewrite byte_of_small; lia. }
  rewrite (bind_ok _ _ _ _ _ Hmask).
  rewrite (write_ok _ b1 c) by (subst b1; assumption).
  eauto.
Qed.

(** A 24-pin table holds the whole of port 2, pins 16 to 23. *)
Example DigitalWrite_19_of_24 :
  option_map written
    (connection
       (match DigitalWrite 19 1
                (feed [] (set_pins (replicate 24 io_pin) New)) with
        | Ok _ b' => b'
        | _ => New
        end))
  = Some [[0x92; 0x08; 0x00]].
Proof. vm_compute. reflexivity. Qed.

(** ** Capability and analog-mapping responses *)

Lemma count_terminators_cons val window :
  count_terminators (val :: window)
  = if val =? 127 then S (count_terminators window)
    else count_terminators window.
Proof. unfold count_terminators. cbn [List.filter]. now destruct (val =? 127). Qed.

(** The capability loop creates one pin per [0x7F] of the window it walks,
    and only the five known tags get into [SupportedModes]. *)
Lemma capability_fold_pins (window : list Z) :
  forall ps supportedModes n,
    let '(ps', _, _) := fold_left capability_step window (ps, supportedModes, n) in
    length ps' = (length ps + count_terminators window)%nat /\
    (Forall modes_known ps -> Forall modes_known ps').
Proof.
  induction window as [| val window IH]; intros ps sm n.
  - cbn. split; [lia | trivial].
  - cbn [fold_left]. unfold capability_step at 2.
    rewrite count_terminators_cons. destruct (val =? 127) eqn:E.
    + match goal with
      | |- context [fold_left capability_step window (?ps1, 0, 0)] =>
          specialize (IH ps1 0 0);
          destruct (fold_left capability_step window (ps1, 0, 0))
            as [[ps' sm'] n']
      end.
      destruct IH as [Hlen Hmodes]. split.
      * rewrite Hlen, length_app. cbn [length]. lia.
      * intros Hps. apply Hmodes. apply Forall_app. split; [exact Hps |].
        constructor; [| constructor]. unfold modes_known. cbn [SupportedModes].
        apply List.Forall_forall. intros m Hm. apply filter_In in Hm as [Hm _].
        unfold known_mode. cbn [List.In] in Hm. intuition.
    + match goal with
      | |- context [fold_left capability_step window (ps, ?sm1, ?n1)] =>
          specialize (IH ps sm1 n1);
          destruct (fold_left capability_step window (ps, sm1, n1))
            as [[ps' sm'] n']
      end.
      exact IH.
Qed.

(** What the dispatcher does with a CapabilityResponse buffer of at least
    seven bytes: the pin table is rebuilt from the window
    [currentBuffer[2 : len-5]], one pin per [0x7F] in that window. *)
Lemma capability_response_pins (currentBuffer window : list Z) (b : Client) :
  index currentBuffer 1 = Some CapabilityResponse ->
  slice currentBuffer 2 (len currentBuffer - 5) = Some window ->
  exists b',
    dispatch_sysex currentBuffer b = Ok tt b' /\
    length (pins b') = count_terminators window /\
    Forall modes_known (pins b').
Proof.
  intros Hcmd Hwin. unfold dispatch_sysex.
  rewrite (bind_ok _ _ _ _ _ (at_index_ok _ _ _ _ Hcmd)).
  rewrite Z.eqb_refl. unfold modify at 1, bind at 1.
  unfold at_slice. rewrite Hwin. unfold ret at 1, bind at 1.
  pose proof (capability_fold_pins window [] 0 0) as Hfold.
  destruct (fold_left capability_step window ([], 0, 0)) as [[ps sm] n].
  destruct Hfold as [Hlen Hmodes].
  unfold modify at 1, bind at 1, signal, bind at 1, get.
  destruct (try_send_pins
              (boolChan (set_pins ps (set_pins [] b)) !! "CapabilityQuery")
              OfferBool (set_pins ps (set_pins [] b))) as (b' & Hsend & Hpins).
  exists b'. split; [exact Hsend |]. rewrite Hpins. cbn [pins set_pins].
  split; [exact Hlen | apply Hmodes; constructor].
Qed.

Lemma modes_knownb_sound ps : modes_knownb ps = true -> Forall modes_known ps.
Proof.
  intros H. apply List.Forall_forall. intros p Hp.
  unfold modes_knownb in H. rewrite forallb_forall in H.
  specialize (H p Hp). rewrite forallb_forall in H.
  apply List.Forall_forall. intros m Hm. specialize (H m Hm).
  unfold known_mode. repeat (apply orb_true_iff in H as [H | H]);
    apply Z.eqb_eq in H; tauto.
Qed.

(** C1.  The Arduino-Uno capability response of the test suite has 20
    terminators in its body, and after the dispatcher has processed it the
    pin table holds 19 pins: the loop stops five bytes before the end of the
    buffer and never sees the terminator of the last pin. *)
Theorem capability_uno_drops_last_pin :
  terminators testCapabilitiesResponse = 20%nat /\
  exists b',
    process 147 (feed testCapabilitiesResponse New) = Ok tt b' /\
    length (pins b') = 19%nat /\
    Forall modes_known (pins b').
Proof.
  split; [reflexivity |].
  eexists. split; [vm_compute; reflexivity |]. split; [reflexivity |].
  apply modes_knownb_sound. vm_compute. reflexivity.
Qed.

(** C2.  After the Arduino-Uno capability response and then the Arduino-Uno
    analog-mapping response, the analog-pin map is [14, 15]: the mapping
    loop walks [currentBuffer[2 : len(pins)-1]], which ends before the
    channels 2 to 5.  On a full 20-pin table it ends one byte later and the
    map is [14, 15, 16]. *)
Theorem analog_mapping_uno_truncated :
  (exists b1 b2,
      process 147 (feed testCapabilitiesResponse New) = Ok tt b1 /\
      process 23 (feed testAnalogMappingResponse b1) = Ok tt b2 /\
      analogPins b2 = [14; 15]) /\
  (exists b2,
      process 23 (feed testAnalogMappingResponse uno20) = Ok tt b2 /\
      analogPins b2 = [14; 15; 16]).
Proof.
  split.
  - eexists. eexists. split; [vm_compute; reflexivity |].
    split; [vm_compute; reflexivity | reflexivity].
  - eexists. split; [vm_compute; reflexivity | reflexivity].
Qed.

(** The state [initTestFirmata] of the test suite reaches, and the two
    analog-read scenarios run on it: channel 0 is pin 14, channel 1 is pin
    15. *)
Example initTestFirmata_state :
  protocolVersion initTestFirmata = "2.3"%string /\
  firmwareName initTestFirmata = "StandardFirmata.ino"%string /\
  length (pins initTestFirmata) = 19%nat /\
  analogPins initTestFirmata = [14; 15].
Proof. vm_compute. repeat split; reflexivity. Qed.

Example analog_read_scenarios :
  option_map Value (pins (process_on [0xE0; 0x23; 0x05] initTestFirmata) !! 14%nat)
  = Some 675 /\
  option_map Value (pins (process_on [0xE1; 0x23; 0x06] initTestFirmata) !! 15%nat)
  = Some 803.
Proof. vm_compute. split; reflexivity. Qed.

(** ** Short sysex frames *)

(** C7.  A sysex frame shorter than its subcommand needs is not dropped.
    The PinStateResponse [240, 110, 13, 247] stores its terminator byte 247
    as the mode of pin 13 and then panics on the missing state byte; the
    I2CReply [240, 119, 9, 0, 247] panics on the missing register byte. *)
Theorem short_sysex_frame_panics :
  (exists b',
      process 4 (feed [240; 110; 13; 247] uno20) = Panicked b' /\
      option_map Mode (pins uno20 !! 13%nat) = Some Output /\
      option_map Mode (pins b' !! 13%nat) = Some 247) /\
  (exists b', process 5 (feed [240; 119; 9; 0; 247] uno20) = Panicked b').
Proof.
  split.
  - eexists. split; [vm_compute; reflexivity |]. split; reflexivity.
  - eexists. vm_compute. reflexivity.
Qed.

(** The same subcommands with every byte they index are handled: the
    pin-state scenario of the test suite. *)
Example pin_state_test_frame :
  exists b',
    process 6 (feed [240; 110; 13; 1; 1; 247] uno20) = Ok tt b' /\
    pins b' !! 13%nat = Some (mkPin [Input; Output] 1 0 1 0).
Proof. eexists. split; [vm_compute; reflexivity | reflexivity]. Qed.

(** ** I2C replies *)

(** The I2C scenario of the test suite. *)
Example i2c_reply_test_frame :
  exists b',
    process 13 (feed [240; 119; 9; 0; 0; 0; 24; 1; 1; 0; 26; 1; 247] New)
    = Ok tt b' /\
    offers b' = [OfferI2c 4%nat (mkI2cReply 9 0 [152; 1; 154])].
Proof. eexists. split; [vm_compute; reflexivity | reflexivity]. Qed.

(** C8.  With one data pair and then an odd byte 5 before EndSysex, the
    reply carries two data bytes: the loop's guard [i+2 > len] counts the
    terminator as part of the buffer, so the odd byte is paired with 0xF7
    and comes out as 5 | 0x80 = 133 instead of being left over. *)
Theorem i2c_reply_odd_byte_paired_with_terminator :
  exists b',
    process 10 (feed [240; 119; 9; 0; 0; 0; 24; 1; 5; 247] New) = Ok tt b' /\
    offers b' = [OfferI2c 4%nat (mkI2cReply 9 0 [152; 133])].
Proof. eexists. split; [vm_compute; reflexivity | reflexivity]. Qed.

(** Address and register are joined in eight bits, so the high byte of a
    14-bit pair contributes its lowest bit only: address bytes (9, 2) give
    9, where [unpack14] gives 265. *)
Example i2c_reply_address_in_eight_bits :
  unpack14 9 2 = 265 /\
  exists b',
    process 9 (feed [240; 119; 9; 2; 0; 0; 24; 1; 247] New) = Ok tt b' /\
    offers b' = [OfferI2c 4%nat (mkI2cReply 9 0 [152])].
Proof.
  split; [reflexivity |].
  eexists. split; [vm_compute; reflexivity | reflexivity].
Qed.

(** ** The handshake of Connect *)

(** The goroutine sets [connected] on its way into the receive on the
    AnalogMappingQuery channel, not on its way out of it. *)
Lemma handshake_sets_connected_before_await (s : Connect.System) ch :
  Connect.handshake s = Connect.HsSetConnected ch ->
  exists s',
    Connect.handshake_step s = Some s' /\
    connected (Connect.client s') = true /\
    Connect.handshake s' = Connect.HsAwait Connect.QAnalogMapping ch.
Proof.
  intros H. unfold Connect.handshake_step. rewrite H.
  eexists. split; [reflexivity |]. split; reflexivity.
Qed.

(** Under the orderly schedule the handshake runs to its end: the mapping
    response is processed, both ReportDigital requests are written and
    [Connect] returns nil. *)
Example Connect_orderly :
  exists s,
    Connect.connect_under Connect.orderly = Some s /\
    Connect.handshake s = Connect.HsDone /\
    Connect.main s = Connect.MainReturned None /\
    connected (Connect.client s) = true /\
    Connect.wire s
    = [[SystemReset]; [ProtocolVersion]; sysex [FirmwareQuery];
       sysex [CapabilityQuery]; sysex [AnalogMappingQuery];
       [0xD0; 1]; [0xD1; 1]].
Proof.
  eexists. split; [vm_compute; reflexivity |]. repeat split; reflexivity.
Qed.

(** C9.  [connected] is true before the AnalogMappingQuery response has
    been received.  In the first execution every response has been awaited
    in turn; the goroutine has sent the AnalogMappingQuery and set
    [connected], and is blocked in the receive on the query's channel while
    the caller is back at [process]: the board has not answered (the
    transport is empty, the analog-pin map is empty) and no ReportDigital
    has been written.  In the second the goroutine gets that far before the
    caller tests [connected], and [Connect] returns nil in that state. *)
Theorem Connect_connected_before_mapping_response :
  (exists s ch,
      Connect.connect_under Connect.prompt = Some s /\
      connected (Connect.client s) = true /\
      Connect.main s = Connect.MainProcess /\
      Connect.handshake s
      = Connect.HsAwait Connect.QAnalogMapping (Some ch) /\
      analogPins (Connect.client s) = [] /\
      Connect.unread s = [] /\
      Connect.wire s
      = [[SystemReset]; [ProtocolVersion]; sysex [FirmwareQuery];
         sysex [CapabilityQuery]; sysex [AnalogMappingQuery]]) /\
  (exists s ch,
      Connect.connect_under Connect.early = Some s /\
      connected (Connect.client s) = true /\
      Connect.main s = Connect.MainReturned None /\
      Connect.handshake s
      = Connect.HsAwait Connect.QAnalogMapping (Some ch) /\
      analogPins (Connect.client s) = [] /\
      Connect.unread s = [] /\
      Connect.wire s
      = [[SystemReset]; [ProtocolVersion]; sysex [FirmwareQuery];
         sysex [CapabilityQuery]; sysex [AnalogMappingQuery]]).
Proof.
  split.
  - eexists. eexists. split; [vm_compute; reflexivity |].
    repeat split; reflexivity.
  - eexists. eexists. split; [vm_compute; reflexivity |].
    repeat split; reflexivity.
Qed.


(** * Further properties *)

(** ** What a method leaves alone *)

Section Keeps.

Variable R : Client -> Client -> Prop.

Hypothesis R_refl : forall b, R b b.

Hypothesis R_trans : forall b1 b2 b3, R b1 b2 -> R b2 b3 -> R b1 b3.

Lemma keeps_ret {A} (a : A) : keeps R (ret a).
Proof. intros b. apply R_refl. Qed.

Lemma keeps_get : keeps R get.
Proof. intros b. apply R_refl. Qed.

Lemma keeps_panic {A} : keeps R (@panic A).
Proof. intros b. apply R_refl. Qed.

Lemma keeps_fail {A} e : keeps R (@fail A e).
Proof. intros b. apply R_refl. Qed.

Lemma keeps_blocked {A} : keeps R (fun _ => @Blocked A).
Proof. intros b. exact I. Qed.

Lemma keeps_bind {A B} (m : M A) (k : A -> M B) :
  keeps R m -> (forall a, keeps R (k a)) -> keeps R (bind m k).
Proof.
  intros Hm Hk b. unfold bind. specialize (Hm b).
  destruct (m b) as [a b1 | e b1 | b1 |]; try assumption.
  specialize (Hk a b1). destruct (k a b1); eauto.
Qed.

Lemma keeps_modify f : (forall b, R b (f b)) -> keeps R (modify f).
Proof. intros H b. apply H. Qed.

Lemma keeps_at_index {A} (l : list A) i : keeps R (at_index l i).
Proof. unfold at_index. destruct (index l i); [apply keeps_ret | apply keeps_panic]. Qed.

Lemma keeps_at_slice {A} (l : list A) lo hi : keeps R (at_slice l lo hi).
Proof. unfold at_slice. destruct (slice l lo hi); [apply keeps_ret | apply keeps_panic]. Qed.

Lemma keeps_pin_at i : keeps R (pin_at i).
Proof. unfold pin_at. apply keeps_bind; [apply keeps_get | intros; apply keeps_at_index]. Qed.

End Keeps.

Lemma same_control_refl b : same_control b b.
Proof. reflexivity. Qed.

Lemma same_control_trans b1 b2 b3 :
  same_control b1 b2 -> same_control b2 b3 -> same_control b1 b3.
Proof. unfold same_control. congruence. Qed.

Lemma same_modes_refl b : same_modes b b.
Proof. reflexivity. Qed.

Lemma same_modes_trans b1 b2 b3 :
  same_modes b1 b2 -> same_modes b2 b3 -> same_modes b1 b3.
Proof. unfold same_modes. congruence. Qed.

Ltac control_step :=
  first
    [ apply (keeps_ret _ same_control_refl)
    | apply (keeps_get _ same_control_refl)
    | apply (keeps_panic _ same_control_refl)
    | apply (keeps_fail _ same_control_refl)
    | apply keeps_blocked
    | apply (keeps_at_index _ same_control_refl)
    | apply (keeps_at_slice _ same_control_refl)
    | apply (keeps_pin_at _ same_control_refl same_control_trans)
    | apply keeps_modify; intros ?; reflexivity
    | apply (keeps_bind _ same_control_trans); [| intros ?]
    | match goal with
      | |- keeps _ (if ?c then _ else _) => destruct c
      | |- keeps _ (let '(_, _) := ?x in _) => destruct x
      end ].

Lemma control_update_pin i f : keeps same_control (update_pin i f).
Proof. unfold update_pin. repeat control_step. Qed.

Lemma control_try_send ch o : keeps same_control (try_send ch o).
Proof. unfold try_send. destruct ch; repeat control_step. Qed.

Lemma control_signal name : keeps same_control (signal name).
Proof. unfold signal. repeat control_step. apply control_try_send. Qed.

Lemma control_read_loop fuel :
  forall n buf, keeps same_control (read_loop fuel n buf).
Proof.
  induction fuel as [| fuel IH]; intros n buf; cbn [read_loop].
  - repeat control_step.
  - destruct (n <=? 0); [control_step |].
    apply (keeps_bind _ same_control_trans).
    + intros b. unfold with_conn.
      destruct (connection b) as [c |] eqn:Hc; [| reflexivity].
      unfold conn_Read.
      destruct (incoming c) eqn:Hin; [destruct (later c) eqn:Hlater |];
        cbn; unfold same_control, control; cbn; now rewrite Hc.
    + intros [[tmp i] err].
      destruct err as [e |]; [destruct (String.eqb e "EOF") |];
        try (destruct (0 <? i); apply IH).
      control_step.
Qed.

Lemma control_readSysex fuel :
  forall cb, keeps same_control (readSysex fuel cb).
Proof.
  induction fuel as [| fuel IH]; intros cb; cbn [readSysex].
  - control_step.
  - apply (keeps_bind _ same_control_trans); [apply control_read_loop |].
    intros buf. repeat control_step. apply IH.
Qed.

Lemma control_read_frame fuel : keeps same_control (read_frame fuel).
Proof.
  unfold read_frame.
  apply (keeps_bind _ same_control_trans); [apply control_read_loop |].
  intros buf. repeat control_step. apply control_readSysex.
Qed.

Lemma control_mapping_loop w :
  forall i, keeps same_control (mapping_loop w i).
Proof.
  induction w as [| val w IH]; intros i; cbn [mapping_loop].
  - control_step.
  - apply (keeps_bind _ same_control_trans); [apply control_update_pin |].
    intros _. apply (keeps_bind _ same_control_trans); [| intros _; apply IH].
    repeat control_step.
Qed.

Lemma control_digital_loop port pv bits :
  keeps same_control (digital_loop port pv bits).
Proof.
  induction bits as [| i bits IH]; cbn [digital_loop].
  - control_step.
  - apply (keeps_bind _ same_control_trans); [control_step |]. intros b.
    apply (keeps_bind _ same_control_trans); [| intros _; apply IH].
    destruct (len (pins b) >? _); [| control_step].
    apply (keeps_bind _ same_control_trans); [control_step |]. intros p.
    destruct (Mode p =? Input); [| control_step].
    apply (keeps_bind _ same_control_trans); [apply control_update_pin |].
    intros _. apply (keeps_bind _ same_control_trans); [control_step |].
    intros p'. apply control_try_send.
Qed.

Lemma control_i2c_loop fuel :
  forall i cb data, keeps same_control (i2c_loop fuel i cb data).
Proof.
  induction fuel as [| fuel IH]; intros i cb data; cbn [i2c_loop].
  - control_step.
  - destruct (i <? len cb); [| control_step].
    apply (keeps_bind _ same_control_trans); [control_step |]. intros ci.
    destruct (ci =? 247); [control_step |].
    destruct (i + 2 >? len cb); [control_step |].
    apply (keeps_bind _ same_control_trans); [control_step |]. intros ci1.
    apply IH.
Qed.

Ltac control_auto :=
  repeat first
    [ apply control_update_pin | apply control_try_send | apply control_signal
    | apply control_mapping_loop | apply control_digital_loop
    | apply control_i2c_loop | control_step ].

Lemma control_dispatch_sysex cb : keeps same_control (dispatch_sysex cb).
Proof. unfold dispatch_sysex. control_auto. Qed.

Lemma control_dispatch frame : keeps same_control (dispatch frame).
Proof. unfold dispatch. control_auto. Qed.

Lemma process_keeps_control fuel : keeps same_control (process fuel).
Proof.
  unfold process.
  apply (keeps_bind _ same_control_trans); [apply control_read_frame |].
  intros frame. apply control_dispatch.
Qed.

(** ** Frames *)

(** Reading a whole sysex frame off the transport. *)
Lemma read_frame_sysex fuel cmd x body rest b c :
  connection b = Some c ->
  incoming c = sysex (cmd :: x :: body) ++ rest ->
  Forall (fun y => y <> EndSysex) body ->
  (length body + 2 < fuel)%nat ->
  read_frame fuel b = Ok (sysex (cmd :: x :: body)) (holding rest c b).
Proof.
  intros Hc Hin Hno Hfuel.
  destruct fuel as [| fuel]; [lia |].
  unfold read_frame.
  rewrite (bind_ok _ _ _ _ _
             (read_three fuel StartSysex cmd x (body ++ EndSysex :: rest) b c Hc
                ltac:(rewrite Hin; unfold sysex; cbn [app];
                      now rewrite <- app_assoc))).
  rewrite (bind_ok _ _ _ _ _
             (at_index_ok [StartSysex; cmd; x] 0 StartSysex _ eq_refl)).
  rewrite Z.eqb_refl.
  rewrite (readSysex_spec body (S fuel) _ rest _
             (with_incoming (body ++ EndSysex :: rest) c));
    [reflexivity | reflexivity | reflexivity | assumption | lia].
Qed.

Lemma dispatch_sysex_frame data b :
  dispatch (sysex data) b = dispatch_sysex (sysex data) b.
Proof.
  unfold dispatch, sysex. cbn [app].
  now rewrite (bind_ok _ _ _ _ _
                 (at_index_ok (StartSysex :: data ++ [EndSysex]) 0 StartSysex _
                    eq_refl)).
Qed.

Lemma process_sysex fuel cmd x body rest b c :
  connection b = Some c ->
  incoming c = sysex (cmd :: x :: body) ++ rest ->
  Forall (fun y => y <> EndSysex) body ->
  (length body + 2 < fuel)%nat ->
  process fuel b
  = dispatch_sysex (sysex (cmd :: x :: body)) (holding rest c b).
Proof.
  intros Hc Hin Hno Hfuel. unfold process.
  rewrite (bind_ok _ _ _ _ _ (read_frame_sysex _ _ _ _ _ _ _ Hc Hin Hno Hfuel)).
  apply dispatch_sysex_frame.
Qed.

Lemma process_plain fuel x y z rest b c :
  connection b = Some c ->
  incoming c = x :: y :: z :: rest ->
  (StartSysex =? x) = false ->
  process (S fuel) b = dispatch [x; y; z] (holding rest c b).
Proof.
  intros Hc Hin Hx. unfold process.
  now rewrite (bind_ok _ _ _ _ _ (read_frame_plain fuel _ _ _ _ _ _ Hc Hin Hx)).
Qed.

(** Indexing into a cons and into an append. *)
Lemma index_cons {A} (x : A) l i :
  0 < i -> index (x :: l) i = index l (i - 1).
Proof.
  intros Hi. unfold index, len. cbn [length].
  replace (0 <=? i) with true by (symmetry; apply Z.leb_le; lia).
  replace (0 <=? i - 1) with true by (symmetry; apply Z.leb_le; lia).
  cbn [andb].
  destruct (Z.ltb_spec i (Z.of_nat (S (length l)))),
    (Z.ltb_spec (i - 1) (Z.of_nat (length l))); try lia; [| reflexivity].
  replace (Z.to_nat i) with (S (Z.to_nat (i - 1))) by lia. reflexivity.
Qed.

Lemma index_app_l {A} (l1 l2 : list A) i :
  i < len l1 -> index (l1 ++ l2) i = index l1 i.
Proof.
  intros Hi. unfold index, len in *. rewrite length_app.
  destruct (Z.leb_spec 0 i); cbn [andb]; [| reflexivity].
  replace (i <? Z.of_nat (length l1 + length l2)%nat) with true
    by (symmetry; apply Z.ltb_lt; lia).
  replace (i <? Z.of_nat (length l1)) with true
    by (symmetry; apply Z.ltb_lt; lia).
  apply lookup_app_l. lia.
Qed.

Lemma index_app_r {A} (l1 l2 : list A) i :
  len l1 <= i -> index (l1 ++ l2) i = index l2 (i - len l1).
Proof.
  intros Hi. unfold index, len in *. rewrite length_app.
  replace (0 <=? i) with true by (symmetry; apply Z.leb_le; lia).
  replace (0 <=? i - Z.of_nat (length l1)) with true
    by (symmetry; apply Z.leb_le; lia).
  cbn [andb].
  destruct (Z.ltb_spec i (Z.of_nat (length l1 + length l2)%nat)),
    (Z.ltb_spec (i - Z.of_nat (length l1)) (Z.of_nat (length l2)));
    try lia; [| reflexivity].
  rewrite lookup_app_r by lia. f_equal. lia.
Qed.

Lemma len_app {A} (l1 l2 : list A) : len (l1 ++ l2) = len l1 + len l2.
Proof. unfold len. rewrite length_app. lia. Qed.

Lemma len_cons {A} (x : A) l : len (x :: l) = 1 + len l.
Proof. unfold len. cbn [length]. lia. Qed.

Lemma len_nonneg {A} (l : list A) : 0 <= len l.
Proof. unfold len. lia. Qed.

Lemma slice_middle {A} (pre mid post : list A) :
  slice (pre ++ mid ++ post) (len pre) (len pre + len mid) = Some mid.
Proof.
  unfold slice. pose proof (len_nonneg pre). pose proof (len_nonneg mid).
  pose proof (len_nonneg post).
  rewrite !len_app.
  replace (0 <=? len pre) with true by (symmetry; apply Z.leb_le; lia).
  replace (len pre <=? len pre + len mid) with true
    by (symmetry; apply Z.leb_le; lia).
  replace (len pre + len mid <=? len pre + (len mid + len post)) with true
    by (symmetry; apply Z.leb_le; lia).
  cbn [andb]. f_equal.
  replace (len pre + len mid - len pre) with (len mid) by lia.
  unfold len. rewrite !Nat2Z.id.
  now rewrite drop_app_length, take_app_length.
Qed.

(** ** Stepping through the dispatcher *)

Lemma bind_ret {A B} (a : A) (k : A -> M B) b : bind (ret a) k b = k a b.
Proof. reflexivity. Qed.

Lemma bind_assoc {A B C} (m : M A) (k1 : A -> M B) (k2 : B -> M C) b :
  bind (bind m k1) k2 b = bind m (fun x => bind (k1 x) k2) b.
Proof. unfold bind. now destruct (m b). Qed.

Lemma index_at_prefix {A} (pre : list A) x post :
  index (pre ++ x :: post) (len pre) = Some x.
Proof.
  rewrite index_app_r by lia. rewrite Z.sub_diag. reflexivity.
Qed.

Lemma slice_eq {A} (l pre mid post : list A) lo hi :
  l = pre ++ mid ++ post -> lo = len pre -> hi = len pre + len mid ->
  slice l lo hi = Some mid.
Proof. intros -> -> ->. apply slice_middle. Qed.

Lemma len_nil {A} : len (@nil A) = 0.
Proof. reflexivity. Qed.

Ltac len_solve :=
  unfold len in *; cbn [length] in *; rewrite ?length_app; cbn [length]; lia.

Lemma at_slice_ok {A} (l : list A) lo hi x b :
  slice l lo hi = Some x -> at_slice l lo hi b = Ok x b.
Proof. intros H. unfold at_slice. now rewrite H. Qed.

Ltac step_slice pre mid post :=
  let H := fresh in
  match goal with
  | |- context [at_slice ?l ?lo ?hi] =>
      assert (H : slice l lo hi = Some mid)
        by (apply (slice_eq _ pre mid post);
            [cbn [app]; rewrite ?app_nil_r, <- ?app_assoc; cbn [app];
             reflexivity
            | len_solve | len_solve]);
      rewrite ?bind_assoc;
      rewrite (bind_ok _ _ _ _ _ (at_slice_ok _ _ _ _ _ H)); clear H
  end.

Lemma try_send_offered ch o b :
  try_send ch o b = Ok tt (set_offers (offers b ++ offered ch o) b).
Proof.
  destruct ch; cbn; [reflexivity |]. rewrite app_nil_r. now destruct b.
Qed.

Ltac constant_tests :=
  repeat match goal with
         | |- context [?a =? ?b] =>
             first [ rewrite (eq_refl : (a =? b) = false)
                   | rewrite (eq_refl : (a =? b) = true) ]
         end.

Tactic Notation "run" uconstr(H) :=
  rewrite ?bind_assoc; erewrite (bind_ok _ _ _ _ _ H).

Ltac step_index pre x post :=
  rewrite ?bind_assoc;
  rewrite (bind_ok _ _ _ _ _ (at_index_ok _ _ _ _ (index_at_prefix pre x post))).

(** X10.  A StringData frame [F0 71 x s.. F7], at hand on the transport,
    is delivered whole: [process] offers the bytes between the subcommand and EndSysex, as a
    string, on [stringDataChan], and changes nothing else but what the
    transport still holds. *)
Theorem string_data_delivered
    (fuel : nat) (x : Z) (s rest : list Z) (b : Client) (c : Conn) :
  connection b = Some c ->
  incoming c = sysex (StringData :: x :: s) ++ rest ->
  Forall (fun y => y <> EndSysex) s ->
  (length s + 2 < fuel)%nat ->
  process fuel b
  = Ok tt
      (set_offers
         (offers b
          ++ offered (stringDataChan b)
               (fun ch => OfferString ch (string_of_bytes (x :: s))))
         (holding rest c b)).
Proof.
  intros Hc Hin Hno Hfuel.
  rewrite (process_sysex _ _ _ _ _ _ _ Hc Hin Hno Hfuel).
  unfold dispatch_sysex, sysex. cbn [app].
  step_index [StartSysex] StringData (x :: s ++ [EndSysex]).
  constant_tests.
  step_slice [StartSysex; StringData] (x :: s ++ [EndSysex]) (@nil Z).
  step_slice (@nil Z) (x :: s) [EndSysex].
  unfold bind at 1, get.
  rewrite try_send_offered. reflexivity.
Qed.

Lemma string_data_delivered_witness :
  let data := sysex (StringData :: 72 :: [105]) ++ [] in
  let b := feed data New in
  process 4 b
  = Ok tt
      (set_offers
         (offers b
          ++ offered (stringDataChan b)
               (fun ch => OfferString ch (string_of_bytes (72 :: [105]))))
         (holding [] (pipe data) b)).
Proof.
  intros data b. apply (string_data_delivered 4 72 [105] [] b (pipe data)).
  - reflexivity.
  - reflexivity.
  - repeat constructor; unfold EndSysex; lia.
  - cbn [length]; lia.
Defined.

Lemma signal_offered name b :
  signal name b
  = Ok tt (set_offers (offers b ++ offered (boolChan b !! name) OfferBool) b).
Proof. unfold signal, bind, get. apply try_send_offered. Qed.

Lemma filter_zero_interleaved name :
  Forall (fun ch => ch <> 0) name ->
  List.filter (fun val => negb (val =? 0)) (zero_interleaved name) = name.
Proof.
  induction 1 as [| ch name Hch _ IH]; [reflexivity |].
  cbn [zero_interleaved flat_map app List.filter].
  replace (ch =? 0) with false by (symmetry; now apply Z.eqb_neq).
  cbn [negb Z.eqb]. fold (zero_interleaved name). now rewrite IH.
Qed.

Lemma process_firmware fuel major minor payload rest b c :
  connection b = Some c ->
  incoming c = sysex (FirmwareQuery :: major :: minor :: payload) ++ rest ->
  Forall (fun y => y <> EndSysex) (minor :: payload) ->
  (length payload + 3 < fuel)%nat ->
  process fuel b
  = Ok tt
      (set_offers
         (offers b ++ offered (boolChan b !! "FirmwareQuery") OfferBool)
         (set_firmwareName
            (string_of_bytes
               (List.filter (fun val => negb (val =? 0)) payload))
            (holding rest c b))).
Proof.
  intros Hc Hin Hno Hfuel.
  rewrite (process_sysex _ _ _ _ _ _ _ Hc Hin Hno)
    by (cbn [length]; lia).
  unfold dispatch_sysex, sysex. cbn [app].
  step_index [StartSysex] FirmwareQuery (major :: minor :: payload ++ [EndSysex]).
  constant_tests.
  step_slice [StartSysex; FirmwareQuery; major; minor] payload [EndSysex].
  unfold modify at 1, bind at 1.
  rewrite signal_offered. reflexivity.
Qed.

(** X9.  A firmware report carries its name as bytes, each followed by a
    zero byte.  For a name without zero and 0xF7 bytes, [process] on
    [F0 79 major minor name.. F7], at hand on the transport, stores
    exactly the name in
    [firmwareName], signals on the channel of "FirmwareQuery" and leaves
    the pin table alone. *)
Theorem firmware_name_roundtrip
    (fuel : nat) (major minor : Z) (name rest : list Z) (b : Client) (c : Conn) :
  connection b = Some c ->
  incoming c
  = sysex (FirmwareQuery :: major :: minor :: zero_interleaved name) ++ rest ->
  minor <> EndSysex ->
  Forall (fun ch => ch <> 0 /\ ch <> EndSysex) name ->
  (2 * length name + 3 < fuel)%nat ->
  exists b',
    process fuel b = Ok tt b' /\
    firmwareName b' = string_of_bytes name /\
    pins b' = pins b /\
    offers b' = offers b ++ offered (boolChan b !! "FirmwareQuery") OfferBool.
Proof.
  intros Hc Hin Hminor Hname Hfuel.
  assert (Hlen : length (zero_interleaved name) = (2 * length name)%nat).
  { clear. induction name; cbn [zero_interleaved flat_map app length] in *;
      [reflexivity |]. fold (zero_interleaved name). lia. }
  assert (Hno : Forall (fun y => y <> EndSysex) (zero_interleaved name)).
  { clear - Hname. induction Hname as [| ch name [_ Hch] _ IH];
      cbn [zero_interleaved flat_map app]; [constructor |].
    constructor; [exact Hch |]. constructor; [unfold EndSysex; lia | exact IH]. }
  eexists. split.
  - apply (process_firmware fuel major minor _ rest b c Hc Hin);
      [constructor; assumption | lia].
  - cbn [firmwareName set_offers set_firmwareName pins offers holding
         set_connection].
    rewrite filter_zero_interleaved
      by (eapply Forall_impl; [exact Hname | now intros ? [? ?]]).
    repeat split; reflexivity.
Qed.

Lemma firmware_name_roundtrip_witness :
  let data := sysex (FirmwareQuery :: 2 :: 3 :: zero_interleaved [83; 116]) ++ [] in
  let b := feed data New in
  exists b',
    process 8 b = Ok tt b' /\
    firmwareName b' = string_of_bytes [83; 116] /\
    pins b' = pins b /\
    offers b' = offers b ++ offered (boolChan b !! "FirmwareQuery") OfferBool.
Proof.
  intros data b.
  apply (firmware_name_roundtrip 8 2 3 [83; 116] [] b (pipe data)).
  - reflexivity.
  - reflexivity.
  - unfold EndSysex; lia.
  - repeat constructor; unfold EndSysex; lia.
  - cbn [length]; lia.
Defined.

(** The PinStateResponse case. *)
Lemma process_pin_state fuel pin mode s0 ext rest b c p :
  connection b = Some c ->
  incoming c = sysex ([PinStateResponse; pin; mode; s0] ++ ext) ++ rest ->
  Forall (fun y => y <> EndSysex) (mode :: s0 :: ext) ->
  index (pins b) pin = Some p ->
  (length ext + 4 < fuel)%nat ->
  let p' := set_State (pin_state s0 ext) (set_Mode mode p) in
  process fuel b
  = Ok tt
      (set_offers
         (offers b ++ offered (pinStateChan b !! pin) (fun ch => OfferPin ch p'))
         (set_pins (<[Z.to_nat pin := p']> (pins b)) (holding rest c b))).
Proof.
  intros Hc Hin Hno Hp Hfuel p'. cbn [app] in Hin.
  rewrite (process_sysex _ _ _ _ _ _ _ Hc Hin Hno)
    by (cbn [length]; lia).
  unfold dispatch_sysex, sysex. cbn [app].
  step_index [StartSysex] PinStateResponse (pin :: mode :: s0 :: ext ++ [EndSysex]).
  constant_tests.
  step_index [StartSysex; PinStateResponse] pin (mode :: s0 :: ext ++ [EndSysex]).
  step_index [StartSysex; PinStateResponse; pin] mode (s0 :: ext ++ [EndSysex]).
  rewrite (bind_ok _ _ _ _ _
             (update_pin_ok pin (set_Mode mode) p (holding rest c b) Hp)).
  step_index [StartSysex; PinStateResponse; pin; mode] s0 (ext ++ [EndSysex]).
  pose proof (proj1 (proj1 (index_Some _ _ _) Hp)) as Hrange.
  assert (Hins : forall (q r : Pin) (ps : list Pin),
             index ps pin = Some q ->
             index (<[Z.to_nat pin := r]> ps) pin = Some r)
    by (intros q r ps Hq; apply (index_insert_same _ _ _ _ Hq)).
  set (b1 := set_pins (<[Z.to_nat pin := set_Mode mode p]> (pins b))
               (holding rest c b)).
  assert (H1 : index (pins b1) pin = Some (set_Mode mode p))
    by (apply (Hins p); exact Hp).
  rewrite (bind_ok _ _ _ _ _ (update_pin_ok pin (set_State s0) _ _ H1)).
  set (q0 := set_State s0 (set_Mode mode p)).
  set (b2 := set_pins (<[Z.to_nat pin := q0]> (pins b1)) b1).
  assert (H2 : index (pins b2) pin = Some q0) by (apply (Hins _ _ _ H1)).
  assert (Hfinal : forall q b3,
             index (pins b3) pin = Some q ->
             (p0 <-- pin_at pin;; b0 <-- get;;
              try_send (pinStateChan b0 !! pin) (fun ch => OfferPin ch p0)) b3
             = Ok tt (set_offers
                        (offers b3
                         ++ offered (pinStateChan b3 !! pin)
                              (fun ch => OfferPin ch q)) b3)).
  { intros q b3 Hq. rewrite (bind_ok _ _ _ _ _ (pin_at_ok _ _ _ Hq)).
    unfold bind, get. apply try_send_offered. }
  destruct ext as [| s1 [| s2 ext]].
  - cbn [app].
    replace (len [StartSysex; PinStateResponse; pin; mode; s0; EndSysex] >? 6)
      with false by reflexivity.
    replace (len [StartSysex; PinStateResponse; pin; mode; s0; EndSysex] >? 7)
      with false by reflexivity.
    rewrite !bind_ret.
    rewrite (Hfinal _ _ H2). subst p' q0 b2 b1.
    cbn [pin_state pins set_pins offers pinStateChan set_offers holding
         set_connection]. now rewrite list_insert_insert_eq.
  - cbn [app].
    replace (len [StartSysex; PinStateResponse; pin; mode; s0; s1; EndSysex]
             >? 6) with true by reflexivity.
    replace (len [StartSysex; PinStateResponse; pin; mode; s0; s1; EndSysex]
             >? 7) with false by reflexivity.
    step_index [StartSysex; PinStateResponse; pin; mode; s0] s1 [EndSysex].
    run (pin_at_ok _ _ _ H2).
    run (update_pin_ok pin _ _ _ H2).
    rewrite ?bind_ret.
    erewrite Hfinal by (apply (Hins _ _ _ H2)).
    subst p' q0 b2 b1.
    cbn [pin_state pins set_pins offers pinStateChan set_offers holding
         set_connection State set_State set_Mode].
    now rewrite !list_insert_insert_eq.
  - cbn [app].
    assert (Hlen : 8 <= len (StartSysex :: PinStateResponse :: pin :: mode
                               :: s0 :: s1 :: s2 :: ext ++ [EndSysex]))
      by len_solve.
    replace (len (StartSysex :: PinStateResponse :: pin :: mode :: s0 :: s1
                    :: s2 :: ext ++ [EndSysex]) >? 6)
      with true by (symmetry; apply Z.gtb_lt; lia).
    replace (len (StartSysex :: PinStateResponse :: pin :: mode :: s0 :: s1
                    :: s2 :: ext ++ [EndSysex]) >? 7)
      with true by (symmetry; apply Z.gtb_lt; lia).
    step_index [StartSysex; PinStateResponse; pin; mode; s0] s1
      (s2 :: ext ++ [EndSysex]).
    run (pin_at_ok _ _ _ H2).
    run (update_pin_ok pin _ _ _ H2).
    set (q1 := set_State (Z.lor (State q0) (Z.shiftl s1 7)) q0).
    set (b3 := set_pins (<[Z.to_nat pin := q1]> (pins b2)) b2).
    assert (H3 : index (pins b3) pin = Some q1) by (apply (Hins _ _ _ H2)).
    step_index [StartSysex; PinStateResponse; pin; mode; s0; s1] s2
      (ext ++ [EndSysex]).
    run (pin_at_ok _ _ _ H3).
    run (update_pin_ok pin _ _ _ H3).
    erewrite Hfinal by (apply (Hins _ _ _ H3)).
    subst p' q1 q0 b3 b2 b1.
    cbn [pin_state pins set_pins offers pinStateChan set_offers holding
         set_connection State set_State set_Mode].
    now rewrite !list_insert_insert_eq.
Qed.

(** X3.  A frame whose status byte is none of ProtocolVersion, StartSysex,
    an analog message (0xE0..0xEF) or a digital message (0x90..0x9F)
    matches no case of the switch: with its three bytes at hand on the
    transport, [process] takes them off, returns nil and changes nothing
    else. *)
Theorem other_status_discarded
    (fuel : nat) (x y z : Z) (rest : list Z) (b : Client) (c : Conn) :
  connection b = Some c ->
  incoming c = x :: y :: z :: rest ->
  ~ known_status x ->
  process (S fuel) b = Ok tt (holding rest c b).
Proof.
  intros Hc Hin Hx. unfold known_status in Hx.
  assert (H1 : (StartSysex =? x) = false) by (apply Z.eqb_neq; intuition).
  assert (H2 : (ProtocolVersion =? x) = false) by (apply Z.eqb_neq; intuition).
  assert (H3 : (AnalogMessageRangeStart <=? x) && (AnalogMessageRangeEnd >=? x)
               = false).
  { destruct (Z.leb_spec AnalogMessageRangeStart x),
      (Z.geb_spec AnalogMessageRangeEnd x); try reflexivity. lia. }
  assert (H4 : (DigitalMessageRangeStart <=? x)
               && (DigitalMessageRangeEnd >=? x) = false).
  { destruct (Z.leb_spec DigitalMessageRangeStart x),
      (Z.geb_spec DigitalMessageRangeEnd x); try reflexivity. lia. }
  rewrite (process_plain fuel _ _ _ _ _ _ Hc Hin H1).
  unfold dispatch.
  rewrite (bind_ok _ _ _ _ _ (at_index_ok [x; y; z] 0 x _ eq_refl)).
  now rewrite H1, H2, H3, H4.
Qed.

Lemma other_status_discarded_witness :
  let b := feed [0x80; 1; 2] New in
  process 1 b = Ok tt (holding [] (pipe [0x80; 1; 2]) b).
Proof.
  intros b. apply (other_status_discarded 0 0x80 1 2 [] b (pipe [0x80; 1; 2])).
  - reflexivity.
  - reflexivity.
  - unfold known_status, ProtocolVersion, StartSysex, AnalogMessageRangeStart,
      AnalogMessageRangeEnd, DigitalMessageRangeStart, DigitalMessageRangeEnd.
    lia.
Defined.

(** X4.  A sysex frame whose subcommand is none of CapabilityResponse,
    AnalogMappingResponse, PinStateResponse, I2CReply, FirmwareQuery and
    StringData, at hand on the transport, is read to its EndSysex and
    dropped: [process] returns nil and changes nothing but what the
    transport still holds. *)
Theorem unknown_sysex_discarded
    (fuel : nat) (cmd x : Z) (body rest : list Z) (b : Client) (c : Conn) :
  connection b = Some c ->
  incoming c = sysex (cmd :: x :: body) ++ rest ->
  Forall (fun y => y <> EndSysex) body ->
  (length body + 2 < fuel)%nat ->
  ~ known_command cmd ->
  process fuel b = Ok tt (holding rest c b).
Proof.
  intros Hc Hin Hno Hfuel Hcmd. unfold known_command in Hcmd.
  rewrite (process_sysex _ _ _ _ _ _ _ Hc Hin Hno Hfuel).
  unfold dispatch_sysex, sysex. cbn [app].
  step_index [StartSysex] cmd (x :: body ++ [EndSysex]).
  repeat match goal with
         | |- context [cmd =? ?k] =>
             replace (cmd =? k) with false
               by (symmetry; apply Z.eqb_neq; intuition)
         end.
  reflexivity.
Qed.

Lemma unknown_sysex_discarded_witness :
  let data := sysex [ServoConfig; 9; 0x20; 0x03] ++ [] in
  process 5 (feed data New) = Ok tt (holding [] (pipe data) (feed data New)).
Proof.
  intros data.
  apply (unknown_sysex_discarded 5 ServoConfig 9 [0x20; 0x03] []
           (feed data New) (pipe data)).
  - reflexivity.
  - reflexivity.
  - repeat constructor; unfold EndSysex; lia.
  - cbn [length]; lia.
  - unfold known_command, ServoConfig, CapabilityResponse,
      AnalogMappingResponse, PinStateResponse, I2CReply, FirmwareQuery,
      StringData.
    lia.
Defined.

(** The ProtocolVersion case. *)
Lemma process_protocol_version fuel major minor rest b c :
  connection b = Some c ->
  incoming c = ProtocolVersion :: major :: minor :: rest ->
  process (S fuel) b
  = Ok tt
      (set_offers
         (offers b ++ offered (boolChan b !! "ProtocolVersion") OfferBool)
         (set_protocolVersion (decimal major +:+ "." +:+ decimal minor)
            (holding rest c b))).
Proof.
  intros Hc Hin.
  rewrite (process_plain fuel _ _ _ _ _ _ Hc Hin eq_refl).
  unfold dispatch.
  rewrite (bind_ok _ _ _ _ _
             (at_index_ok [ProtocolVersion; major; minor] 0 ProtocolVersion _
                eq_refl)).
  rewrite Z.eqb_refl.
  rewrite (bind_ok _ _ _ _ _
             (at_index_ok [ProtocolVersion; major; minor] 1 major _ eq_refl)).
  rewrite (bind_ok _ _ _ _ _
             (at_index_ok [ProtocolVersion; major; minor] 2 minor _ eq_refl)).
  unfold modify at 1, bind at 1. rewrite signal_offered. reflexivity.
Qed.

Lemma gtb_true a b : b < a -> (a >? b) = true.
Proof. intros H. now apply Z.gtb_lt. Qed.

Lemma gtb_false a b : a <= b -> (a >? b) = false.
Proof. intros H. rewrite Z.gtb_ltb. now apply Z.ltb_ge. Qed.

(** ** Analog messages *)

Lemma analog_status_byte channel :
  0 <= channel <= 15 ->
  let messageType := Z.lor AnalogMessage channel in
  (StartSysex =? messageType) = false /\
  (ProtocolVersion =? messageType) = false /\
  (AnalogMessageRangeStart <=? messageType)
    && (AnalogMessageRangeEnd >=? messageType) = true /\
  Z.land messageType 0x0F = channel.
Proof.
  intros Hch.
  assert (Hcases : channel = 0 \/ channel = 1 \/ channel = 2 \/ channel = 3 \/
                   channel = 4 \/ channel = 5 \/ channel = 6 \/ channel = 7 \/
                   channel = 8 \/ channel = 9 \/ channel = 10 \/
                   channel = 11 \/ channel = 12 \/ channel = 13 \/
                   channel = 14 \/ channel = 15) by lia.
  repeat (destruct Hcases as [-> | Hcases]); try subst channel;
    repeat split; reflexivity.
Qed.

Lemma process_analog fuel channel lo hi rest b c :
  connection b = Some c ->
  incoming c = Z.lor AnalogMessage channel :: lo :: hi :: rest ->
  0 <= channel <= 15 ->
  Forall (fun k => 0 <= k) (analogPins b) ->
  process (S fuel) b
  = Ok tt (analog_stored channel (unpack14 lo hi) (holding rest c b)).
Proof.
  intros Hc Hin Hch Hmap.
  destruct (analog_status_byte channel Hch) as (F1 & F2 & F3 & F5).
  cbv zeta in F1, F2, F3, F5.
  set (messageType := Z.lor AnalogMessage channel) in *.
  rewrite (process_plain fuel _ _ _ _ _ _ Hc Hin F1).
  unfold dispatch.
  rewrite (bind_ok _ _ _ _ _
             (at_index_ok [messageType; lo; hi] 0 messageType _ eq_refl)).
  rewrite F2, F3.
  rewrite (bind_ok _ _ _ _ _
             (at_index_ok [messageType; lo; hi] 1 lo _ eq_refl)).
  rewrite (bind_ok _ _ _ _ _
             (at_index_ok [messageType; lo; hi] 2 hi _ eq_refl)).
  rewrite F5. unfold bind at 1, get. unfold analog_stored.
  set (b0 := holding rest c b).
  change (analogPins b0) with (analogPins b).
  destruct (index (analogPins b) channel) as [k |] eqn:Hk.
  - replace (len (analogPins b) >? channel) with true
      by (symmetry; apply Z.gtb_lt; apply index_Some in Hk; lia).
    rewrite (bind_ok _ _ _ _ _ (at_index_ok _ _ _ _ Hk)).
    assert (Hk0 : 0 <= k).
    { apply index_Some in Hk as [_ Hk].
      apply list_elem_of_lookup_2, list_elem_of_In in Hk.
      rewrite List.Forall_forall in Hmap. now apply Hmap. }
    destruct (index (pins b0) k) as [p |] eqn:Hp.
    + replace (len (pins b0) >? k) with true
        by (symmetry; apply Z.gtb_lt; apply index_Some in Hp; lia).
      run (update_pin_ok k _ p b0 Hp).
      assert (Hp1 : index
                      (pins (set_pins
                               (<[Z.to_nat k := set_Value (unpack14 lo hi) p]>
                                  (pins b0)) b0)) k
                    = Some (set_Value (unpack14 lo hi) p))
        by (apply (index_insert_same _ _ _ _ Hp)).
      run (pin_at_ok _ _ _ Hp1).
      rewrite try_send_offered. reflexivity.
    + replace (len (pins b0) >? k) with false; [reflexivity |].
      symmetry. apply index_None in Hp. apply gtb_false. lia.
  - replace (len (analogPins b) >? channel) with false; [reflexivity |].
    symmetry. apply index_None in Hk. apply gtb_false. lia.
Qed.

Lemma pack14_inverse v :
  0 <= v < 2 ^ 14 -> unpack14 (fst (pack14 v)) (snd (pack14 v)) = v.
Proof.
  intros Hv. unfold unpack14, pack14; cbn [fst snd].
  apply Z.bits_inj'; intros n Hn.
  rewrite Z.lor_spec, !testbit_byte_of, testbit_low7 by lia.
  destruct (Z.ltb_spec n 7) as [Hlt | Hge].
  - rewrite Z.shiftl_spec_low by lia.
    replace (n <? 8) with true by (symmetry; apply Z.ltb_lt; lia).
    now rewrite orb_false_r.
  - rewrite Z.shiftl_spec, testbit_byte_of, testbit_low7, Z.shiftr_spec by lia.
    replace (n - 7 + 7) with n by lia.
    destruct (Z.ltb_spec n 14) as [Hlo | Hhi].
    + replace (n - 7 <? 8) with true by (symmetry; apply Z.ltb_lt; lia).
      replace (n - 7 <? 7) with true by (symmetry; apply Z.ltb_lt; lia).
      now rewrite andb_false_r.
    + rewrite (testbit_above v 14 n) by lia. now rewrite !andb_false_r.
Qed.

(** The eight-bit join of the digital case undoes the split of
    [DigitalWrite]. *)
Lemma byte_join_split mask :
  0 <= mask < 256 ->
  byte_join (Z.land mask 0x7F) (Z.land (Z.shiftr mask 7) 0x7F) = mask.
Proof.
  intros Hm. unfold byte_join. apply Z.bits_inj'; intros n Hn.
  rewrite Z.lor_spec, !testbit_byte_of, testbit_low7 by lia.
  destruct (Z.ltb_spec n 7) as [Hlt | Hge].
  - rewrite Z.shiftl_spec_low by lia.
    replace (n <? 8) with true by (symmetry; apply Z.ltb_lt; lia).
    now rewrite orb_false_r.
  - rewrite Z.shiftl_spec, testbit_byte_of, testbit_low7, Z.shiftr_spec by lia.
    replace (n - 7 + 7) with n by lia.
    destruct (Z.ltb_spec n 8) as [Hlo | Hhi].
    + replace (n - 7 <? 8) with true by (symmetry; apply Z.ltb_lt; lia).
      replace (n - 7 <? 7) with true by (symmetry; apply Z.ltb_lt; lia).
      now rewrite andb_false_r.
    + rewrite (testbit_above mask 8 n) by (change (2 ^ 8) with 256; lia).
      now rewrite !andb_false_r.
Qed.

(** X17.  The frame [AnalogWrite(pin, v)] writes, for a pin number up to
    15 and a value up to 16383, is the analog message [process] reads
    back, when a transport has it at hand, as channel [pin] with the
    sample [v]; and [AnalogWrite] stores
    [v] in the pin after the write. *)
Theorem analog_write_read_back
    (bw : Client) (cw : Conn) (pin v : Z) (pw : Pin) :
  connection bw = Some cw ->
  writeErr cw = None ->
  index (pins bw) pin = Some pw ->
  0 <= pin <= 15 ->
  0 <= v <= 16383 ->
  exists frame,
    AnalogWrite pin v bw
    = Ok tt (set_pins (<[Z.to_nat pin := set_Value v pw]> (pins bw))
               (having_written frame cw bw)) /\
    forall fuel br cr rest,
      connection br = Some cr ->
      incoming cr = frame ++ rest ->
      Forall (fun k => 0 <= k) (analogPins br) ->
      process (S fuel) br = Ok tt (analog_stored pin v (holding rest cr br)).
Proof.
  intros Hc He Hp Hpin Hv.
  exists [Z.lor AnalogMessage pin; fst (pack14 v); snd (pack14 v)]. split.
  - unfold AnalogWrite. rewrite (byte_of_small pin) by lia.
    rewrite (bind_ok _ _ _ _ _ (write_ok _ _ _ Hc He)).
    now rewrite (update_pin_ok pin _ pw) by exact Hp.
  - intros fuel br cr rest Hcr Hin Hmap.
    rewrite (process_analog fuel pin _ _ rest br cr Hcr Hin Hpin Hmap).
    rewrite pack14_inverse by (change (2 ^ 14) with 16384; lia).
    reflexivity.
Qed.

Lemma analog_write_read_back_witness :
  exists frame,
    AnalogWrite 3 675 uno20
    = Ok tt (set_pins (<[Z.to_nat 3 := set_Value 675 io_pin]> (pins uno20))
               (having_written frame (pipe []) uno20)) /\
    forall fuel br cr rest,
      connection br = Some cr ->
      incoming cr = frame ++ rest ->
      Forall (fun k => 0 <= k) (analogPins br) ->
      process (S fuel) br = Ok tt (analog_stored 3 675 (holding rest cr br)).
Proof.
  apply (analog_write_read_back uno20 (pipe []) 3 675 io_pin).
  - reflexivity.
  - reflexivity.
  - reflexivity.
  - lia.
  - lia.
Defined.

(** ** DigitalWrite and the digital case *)

Lemma testbit_bit_i i j :
  0 <= i < 8 -> 0 <= j -> Z.testbit (byte_of (Z.shiftl 1 i)) j = (i =? j).
Proof.
  intros Hi Hj. rewrite testbit_byte_of by lia.
  rewrite Z.shiftl_1_l, Z.pow2_bits_eqb by lia.
  destruct (Z.eqb_spec i j) as [<- | Hne]; [| now rewrite andb_false_r].
  now replace (i <? 8) with true by (symmetry; apply Z.ltb_lt; lia).
Qed.

(** The mask loop sets, besides the bits it starts from, bit [i] for every
    [i] of [bits] whose pin has a non-zero value. *)
Lemma port_mask_bits port b (bits : list Z) :
  Forall (fun i => 0 <= i < 8 /\
                   0 <= byte_of (8 * port + i) < len (pins b)) bits ->
  forall portValue, exists mask,
    port_mask port bits portValue b = Ok mask b /\
    forall j, 0 <= j ->
      Z.testbit mask j
      = Z.testbit portValue j
        || existsb (fun i => (i =? j)
                             && negb (pin_value b (byte_of (8 * port + i)) =? 0))
             bits.
Proof.
  induction 1 as [| i bits [Hi Hin] _ IH]; intros portValue.
  - exists portValue. split; [reflexivity |]. intros j _. cbn [existsb].
    now rewrite orb_false_r.
  - cbn [port_mask existsb].
    destruct (index_is_Some _ _ Hin) as [p Hp].
    rewrite (bind_ok _ _ _ _ _ (pin_at_ok _ _ _ Hp)).
    destruct (IH (if Value p =? 0 then portValue
                  else Z.lor portValue (byte_of (Z.shiftl 1 i))))
      as (mask & Hrun & Hbits).
    exists mask. split; [exact Hrun |]. intros j Hj.
    rewrite (Hbits j Hj). unfold pin_value at 2. rewrite Hp.
    destruct (Value p =? 0); cbn [negb].
    + now rewrite andb_false_r.
    + rewrite Z.lor_spec, testbit_bit_i, andb_true_r by lia.
      now rewrite orb_assoc.
Qed.

Lemma existsb_port_bits (f : Z -> bool) j :
  0 <= j ->
  existsb (fun i => (i =? j) && f i) [0; 1; 2; 3; 4; 5; 6; 7]
  = (j <? 8) && f j.
Proof.
  intros Hj. destruct (Z.ltb_spec j 8) as [Hlt | Hge]; cbn [andb].
  - assert (Hcases : j = 0 \/ j = 1 \/ j = 2 \/ j = 3 \/ j = 4 \/ j = 5 \/
                     j = 6 \/ j = 7) by lia.
    repeat (destruct Hcases as [-> | Hcases]); try subst j; cbn;
      now rewrite ?orb_false_r.
  - cbn [existsb].
    repeat match goal with
           | |- context [?k =? j] =>
               replace (k =? j) with false by (symmetry; apply Z.eqb_neq; lia)
           end.
    reflexivity.
Qed.

Lemma DigitalWrite_wire (b : Client) (c : Conn) (p v : Z) (pin : Pin) :
  index (pins b) p = Some pin ->
  p < 256 ->
  8 * (p / 8) + 8 <= len (pins b) ->
  connection b = Some c ->
  writeErr c = None ->
  let b1 := set_pins (<[Z.to_nat p := set_Value v pin]> (pins b)) b in
  exists mask,
    0 <= mask < 256 /\
    (forall i, 0 <= i < 8 ->
       Z.testbit mask i = negb (pin_value b1 (8 * (p / 8) + i) =? 0)) /\
    DigitalWrite p v b
    = Ok tt (having_written (digital_frame (p / 8) mask) c b1).
Proof.
  intros Hp Hbyte Hwhole Hc He b1. unfold DigitalWrite.
  rewrite (bind_ok _ _ _ _ _ (update_pin_ok _ _ _ _ Hp)). fold b1.
  pose proof (proj1 (proj1 (index_Some _ _ _) Hp)) as Hrange.
  assert (Hport : 0 <= p / 8 < 32) by (split; [apply Z.div_pos |
    apply Z.div_lt_upper_bound]; lia).
  rewrite (byte_of_small (p / 8)) by lia.
  assert (Hlen : len (pins b1) = len (pins b))
    by (subst b1; cbn [pins set_pins]; unfold len; now rewrite length_insert).
  destruct (port_mask_bits (p / 8) b1 [0; 1; 2; 3; 4; 5; 6; 7]) with
    (portValue := 0) as (mask & Hmask & Hbits).
  { repeat constructor; try lia; rewrite byte_of_small; lia. }
  assert (Hbit : forall j, 0 <= j ->
            Z.testbit mask j
            = (j <? 8) && negb (pin_value b1 (8 * (p / 8) + j) =? 0)).
  { intros j Hj. rewrite (Hbits j Hj), Z.bits_0. cbn [orb].
    rewrite (existsb_port_bits
               (fun i => negb (pin_value b1 (byte_of (8 * (p / 8) + i)) =? 0)))
      by exact Hj.
    destruct (Z.ltb_spec j 8); [| reflexivity].
    now rewrite byte_of_small by lia. }
  exists mask. split; [| split].
  - assert (Hm : byte_of mask = mask).
    { apply Z.bits_inj'; intros n Hn. rewrite testbit_byte_of by lia.
      rewrite (Hbit n Hn). now destruct (n <? 8). }
    rewrite <- Hm. apply byte_of_range.
  - intros i Hi. rewrite (Hbit i) by lia.
    now replace (i <? 8) with true by (symmetry; apply Z.ltb_lt; lia).
  - rewrite (bind_ok _ _ _ _ _ Hmask).
    now rewrite (write_ok _ b1 c) by (subst b1; assumption).
Qed.

Lemma set_Value_twice v p : set_Value v (set_Value v p) = set_Value v p.
Proof. reflexivity. Qed.

Lemma mask_unique m1 m2 :
  0 <= m1 < 256 -> 0 <= m2 < 256 ->
  (forall i, 0 <= i < 8 -> Z.testbit m1 i = Z.testbit m2 i) -> m1 = m2.
Proof.
  intros H1 H2 Hbits. apply Z.bits_inj'; intros n Hn.
  destruct (Z.ltb_spec n 8); [apply Hbits; lia |].
  now rewrite (testbit_above m1 8 n), (testbit_above m2 8 n)
    by (change (2 ^ 8) with 256; lia).
Qed.

(** X19.  [DigitalWrite(p, v)] twice in a row: the second call leaves the
    pin table as the first left it and writes the same three bytes
    again. *)
Theorem DigitalWrite_idempotent (b : Client) (c : Conn) (p v : Z) (pin : Pin) :
  index (pins b) p = Some pin ->
  p < 256 ->
  8 * (p / 8) + 8 <= len (pins b) ->
  connection b = Some c ->
  writeErr c = None ->
  exists frame b1 b2 c2,
    DigitalWrite p v b = Ok tt b1 /\
    DigitalWrite p v b1 = Ok tt b2 /\
    pins b2 = pins b1 /\
    connection b2 = Some c2 /\
    written c2 = written c ++ [frame; frame].
Proof.
  intros Hp Hbyte Hwhole Hc He.
  destruct (DigitalWrite_wire b c p v pin Hp Hbyte Hwhole Hc He)
    as (m1 & Hm1 & Hbits1 & Hrun1).
  cbv zeta in Hbits1, Hrun1.
  set (ps1 := <[Z.to_nat p := set_Value v pin]> (pins b)) in *.
  set (b1 := having_written (digital_frame (p / 8) m1) c (set_pins ps1 b)) in *.
  set (c1 := mkConn (incoming c) (written c ++ [digital_frame (p / 8) m1])
               (readErr c) (writeErr c) (closed c) (later c)).
  assert (Hp1 : index (pins b1) p = Some (set_Value v pin))
    by (apply (index_insert_same _ _ _ _ Hp)).
  assert (Hlen1 : len (pins b1) = len (pins b))
    by (unfold len; cbn [b1 pins having_written set_connection set_pins];
        subst ps1; now rewrite length_insert).
  destruct (DigitalWrite_wire b1 c1 p v (set_Value v pin) Hp1 Hbyte
              ltac:(lia) eq_refl He) as (m2 & Hm2 & Hbits2 & Hrun2).
  cbv zeta in Hbits2, Hrun2.
  assert (Hps2 : <[Z.to_nat p := set_Value v (set_Value v pin)]> (pins b1)
                 = pins b1).
  { cbn [b1 pins having_written set_connection set_pins]. subst ps1.
    now rewrite set_Value_twice, list_insert_insert_eq. }
  rewrite Hps2 in Hbits2, Hrun2.
  assert (Hmask : m2 = m1).
  { apply mask_unique; try assumption. intros i Hi.
    rewrite (Hbits1 i Hi), (Hbits2 i Hi). reflexivity. }
  subst m2.
  eexists _, _, _, _. split; [exact Hrun1 |]. split; [exact Hrun2 |].
  split; [reflexivity |]. split; [reflexivity |].
  cbn [written c1]. now rewrite <- app_assoc.
Qed.

Lemma DigitalWrite_idempotent_witness :
  exists frame b1 b2 c2,
    DigitalWrite 2 1 uno20 = Ok tt b1 /\
    DigitalWrite 2 1 b1 = Ok tt b2 /\
    pins b2 = pins b1 /\
    connection b2 = Some c2 /\
    written c2 = written (pipe []) ++ [frame; frame].
Proof.
  apply (DigitalWrite_idempotent uno20 (pipe []) 2 1 io_pin).
  - reflexivity.
  - lia.
  - vm_compute. discriminate.
  - reflexivity.
  - reflexivity.
Defined.

(** The digital case on a frame, pin by pin of the port. *)
Lemma process_digital fuel port b1 b2 rest b c :
  0 <= port <= 15 ->
  connection b = Some c ->
  incoming c = Z.lor DigitalMessage port :: b1 :: b2 :: rest ->
  exists b',
    process (S fuel) b = Ok tt b' /\
    forall i p,
      0 <= i < 8 ->
      index (pins b) (8 * port + i) = Some p ->
      index (pins b') (8 * port + i)
      = Some (if Mode p =? Input
              then set_Value (Z.b2z (Z.testbit (byte_join b1 b2) i)) p
              else p).
Proof.
  intros Hport Hc Hin.
  destruct (digital_status_byte port Hport) as (F1 & F2 & F3 & F4 & F5).
  cbv zeta in F1, F2, F3, F4, F5.
  set (messageType := Z.lor DigitalMessage port) in *.
  destruct (digital_loop_pins port (byte_join b1 b2) [0; 1; 2; 3; 4; 5; 6; 7]
              ltac:(lia) ltac:(repeat constructor; lia) (holding rest c b))
    as (b' & Hrun & Hspec).
  exists b'. split.
  - rewrite (process_plain fuel _ _ _ _ _ _ Hc Hin F1). unfold dispatch.
    rewrite (bind_ok _ _ _ _ _
               (at_index_ok [messageType; b1; b2] 0 messageType _ eq_refl)).
    rewrite F2, F3, F4.
    rewrite (bind_ok _ _ _ _ _
               (at_index_ok [messageType; b1; b2] 1 b1 _ eq_refl)).
    rewrite (bind_ok _ _ _ _ _
               (at_index_ok [messageType; b1; b2] 2 b2 _ eq_refl)).
    rewrite F5. exact Hrun.
  - intros i p Hi Hp.
    rewrite (Hspec _ p Hp), port_bits_cover by exact Hi.
    now replace (8 * port + i - 8 * port) with i by lia.
Qed.

(** X18.  The frame [DigitalWrite(p, v)] writes for a pin below 128 whose
    whole port is in the table is the digital message that gives a
    reader whose transport has it at hand, for each pin of the port it has in Input mode, the value 1
    when the writer's pin has a non-zero value and 0 otherwise. *)
Theorem digital_write_read_back
    (bw : Client) (cw : Conn) (p v : Z) (pin : Pin) :
  index (pins bw) p = Some pin ->
  p < 128 ->
  8 * (p / 8) + 8 <= len (pins bw) ->
  connection bw = Some cw ->
  writeErr cw = None ->
  exists frame bw',
    DigitalWrite p v bw = Ok tt (having_written frame cw bw') /\
    pins bw' = <[Z.to_nat p := set_Value v pin]> (pins bw) /\
    forall fuel br cr rest,
      connection br = Some cr ->
      incoming cr = frame ++ rest ->
      exists br',
        process (S fuel) br = Ok tt br' /\
        forall i pr,
          0 <= i < 8 ->
          index (pins br) (8 * (p / 8) + i) = Some pr ->
          index (pins br') (8 * (p / 8) + i)
          = Some (if Mode pr =? Input
                  then set_Value
                         (if pin_value bw' (8 * (p / 8) + i) =? 0 then 0 else 1)
                         pr
                  else pr).
Proof.
  intros Hp Hbyte Hwhole Hc He.
  destruct (DigitalWrite_wire bw cw p v pin Hp ltac:(lia) Hwhole Hc He)
    as (mask & Hm & Hbits & Hrun).
  cbv zeta in Hbits, Hrun.
  pose proof (proj1 (proj1 (index_Some _ _ _) Hp)) as Hrange.
  assert (Hport : 0 <= p / 8 <= 15).
  { split; [apply Z.div_pos; lia |].
    assert (p / 8 < 16) by (apply Z.div_lt_upper_bound; lia). lia. }
  eexists _, _. split; [exact Hrun |]. split; [reflexivity |].
  intros fuel br cr rest Hcr Hin.
  destruct (process_digital fuel (p / 8) _ _ rest br cr Hport Hcr Hin)
    as (br' & Hproc & Hspec).
  exists br'. split; [exact Hproc |]. intros i pr Hi Hpr.
  rewrite (Hspec i pr Hi Hpr), byte_join_split, (Hbits i Hi) by exact Hm.
  now destruct (pin_value _ _ =? 0).
Qed.

Lemma digital_write_read_back_witness :
  exists frame bw',
    DigitalWrite 2 1 uno20 = Ok tt (having_written frame (pipe []) bw') /\
    pins bw' = <[Z.to_nat 2 := set_Value 1 io_pin]> (pins uno20) /\
    forall fuel br cr rest,
      connection br = Some cr ->
      incoming cr = frame ++ rest ->
      exists br',
        process (S fuel) br = Ok tt br' /\
        forall i pr,
          0 <= i < 8 ->
          index (pins br) (8 * (2 / 8) + i) = Some pr ->
          index (pins br') (8 * (2 / 8) + i)
          = Some (if Mode pr =? Input
                  then set_Value
                         (if pin_value bw' (8 * (2 / 8) + i) =? 0 then 0 else 1)
                         pr
                  else pr).
Proof.
  apply (digital_write_read_back uno20 (pipe []) 2 1 io_pin).
  - reflexivity.
  - lia.
  - vm_compute. discriminate.
  - reflexivity.
  - reflexivity.
Defined.

(** X20.  [SetPinMode] on a pin the table does not hold writes the PinMode
    message first and panics afterwards, on [b.pins[byte(pin)]]. *)
Theorem SetPinMode_unknown_pin (b : Client) (c : Conn) (p m : Z) :
  connection b = Some c ->
  writeErr c = None ->
  index (pins b) (byte_of p) = None ->
  SetPinMode p m b
  = Panicked (having_written [PinMode; byte_of p; byte_of m] c b).
Proof.
  intros Hc He Hp. unfold SetPinMode.
  rewrite (bind_ok _ _ _ _ _ (write_ok _ _ _ Hc He)).
  now rewrite update_pin_panicked by exact Hp.
Qed.

Lemma SetPinMode_unknown_pin_witness :
  SetPinMode 25 Output uno20
  = Panicked (having_written [PinMode; byte_of 25; byte_of Output] (pipe [])
                uno20).
Proof.
  apply (SetPinMode_unknown_pin uno20 (pipe []) 25 Output); reflexivity.
Defined.

(** X21.  [AnalogWrite] on a pin the table does not hold writes the analog
    message first and panics afterwards, on [b.pins[pin]]. *)
Theorem AnalogWrite_unknown_pin (b : Client) (c : Conn) (p v : Z) :
  connection b = Some c ->
  writeErr c = None ->
  index (pins b) p = None ->
  AnalogWrite p v b
  = Panicked
      (having_written
         [Z.lor AnalogMessage (byte_of p); fst (pack14 v); snd (pack14 v)] c b).
Proof.
  intros Hc He Hp. unfold AnalogWrite.
  rewrite (bind_ok _ _ _ _ _ (write_ok _ _ _ Hc He)).
  now rewrite update_pin_panicked by exact Hp.
Qed.

Lemma AnalogWrite_unknown_pin_witness :
  AnalogWrite 25 100 uno20
  = Panicked
      (having_written
         [Z.lor AnalogMessage (byte_of 25); fst (pack14 100); snd (pack14 100)]
         (pipe []) uno20).
Proof.
  apply (AnalogWrite_unknown_pin uno20 (pipe []) 25 100); reflexivity.
Defined.

(** ** Capability responses, in general *)

Lemma process_sysex_data fuel cmd data rest b c :
  connection b = Some c ->
  incoming c = sysex (cmd :: data) ++ rest ->
  data <> [] ->
  Forall (fun y => y <> EndSysex) data ->
  (length data + 1 < fuel)%nat ->
  process fuel b = dispatch_sysex (sysex (cmd :: data)) (holding rest c b).
Proof.
  intros Hc Hin Hne Hno Hfuel. destruct data as [| x body]; [congruence |].
  inversion Hno; subst.
  apply (process_sysex fuel cmd x body rest b c Hc Hin); [assumption |].
  cbn [length] in Hfuel. lia.
Qed.

Lemma int_of_low z : int_of z mod 2 ^ 63 = z mod 2 ^ 63.
Proof.
  unfold int_of.
  replace ((z + 2 ^ 63) mod 2 ^ 64 - 2 ^ 63)
    with ((z + 2 ^ 63) mod 2 ^ 64 + (-1) * 2 ^ 63) by lia.
  rewrite Z_mod_plus_full.
  rewrite Z.mod_mod_divide by (exists 2; reflexivity).
  replace (z + 2 ^ 63) with (z + 1 * 2 ^ 63) by lia.
  apply Z_mod_plus_full.
Qed.

Lemma testbit_int_of z k :
  0 <= k < 63 -> Z.testbit (int_of z) k = Z.testbit z k.
Proof.
  intros Hk.
  rewrite <- (Z.mod_pow2_bits_low (int_of z) 63 k) by lia.
  rewrite int_of_low. apply Z.mod_pow2_bits_low. lia.
Qed.

Lemma testbit_mode_bit m k :
  0 <= m -> 0 <= k < 63 ->
  Z.testbit (int_of (Z.shiftl 1 m)) k = (m =? k).
Proof.
  intros Hm Hk. rewrite testbit_int_of by lia.
  rewrite Z.shiftl_1_l. apply Z.pow2_bits_eqb. lia.
Qed.

Lemma land_pow2_test a k :
  0 <= k -> negb (Z.land a (2 ^ k) =? 0) = Z.testbit a k.
Proof.
  intros Hk. destruct (Z.testbit a k) eqn:E.
  - apply negb_true_iff, Z.eqb_neq. intros H.
    assert (Hb : Z.testbit (Z.land a (2 ^ k)) k = true)
      by (rewrite Z.land_spec, E, Z.pow2_bits_true; [reflexivity | lia]).
    rewrite H, Z.bits_0 in Hb. discriminate.
  - apply negb_false_iff, Z.eqb_eq. apply Z.bits_inj'; intros n Hn.
    rewrite Z.land_spec, Z.bits_0, Z.pow2_bits_eqb by lia.
    destruct (Z.eqb_spec k n) as [<- | Hne];
      [now rewrite E | now rewrite andb_false_r].
Qed.

(** The pairs of a group, read from an even position, set in
    [supportedModes] the bit of every mode they name. *)
Lemma capability_fold_pairs (g : list (Z * Z)) :
  group_ok g ->
  forall ps supportedModes window,
  exists sm,
    fold_left capability_step (flat_map (fun mr => [fst mr; snd mr]) g ++ window)
      (ps, supportedModes, 0)
    = fold_left capability_step window (ps, sm, 0) /\
    forall k, 0 <= k < 63 ->
      Z.testbit sm k
      = Z.testbit supportedModes k || existsb (fun mr => fst mr =? k) g.
Proof.
  induction 1 as [| [m r] g (Hm0 & Hm & Hr) _ IH]; intros ps sm window.
  - exists sm. split; [reflexivity |]. intros k _. cbn [existsb].
    now rewrite orb_false_r.
  - cbn [fst snd] in *. cbn [flat_map app fold_left fst snd].
    unfold capability_step at 2 3.
    replace (m =? 127) with false by (symmetry; now apply Z.eqb_neq).
    replace (r =? 127) with false by (symmetry; now apply Z.eqb_neq).
    cbn [Z.eqb Z.lxor Pos.lxor].
    change (Z.lxor 0 1) with 1. cbn [Z.eqb Z.lxor Pos.lxor].
    change (Z.lxor 1 1) with 0.
    destruct (IH ps (Z.lor sm (int_of (Z.shiftl 1 m))) window)
      as (sm' & Hfold & Hbits).
    exists sm'. split; [exact Hfold |]. intros k Hk.
    rewrite (Hbits k Hk), Z.lor_spec, testbit_mode_bit by lia.
    cbn [existsb fst]. now rewrite orb_assoc.
Qed.

Lemma capability_fold_group (g : list (Z * Z)) ps window :
  group_ok g ->
  fold_left capability_step (capability_group g ++ window) (ps, 0, 0)
  = fold_left capability_step window (ps ++ [discovered g], 0, 0).
Proof.
  intros Hg. unfold capability_group. rewrite <- app_assoc.
  destruct (capability_fold_pairs g Hg ps 0 ([127] ++ window))
    as (sm & Hfold & Hbits).
  rewrite Hfold. cbn [app fold_left]. unfold capability_step at 2.
  cbn [Z.eqb Pos.eqb].
  assert (Hmodes :
            List.filter
              (fun mode =>
                 negb (Z.land sm (int_of (Z.shiftl 1 (byte_of mode))) =? 0))
              [Input; Output; Analog; Pwm; Servo]
            = modes_of g).
  { apply filter_ext_in. intros mode Hin.
    assert (Hmode : mode = 0 \/ mode = 1 \/ mode = 2 \/ mode = 3 \/ mode = 4)
      by (cbn [List.In] in Hin;
          unfold Input, Output, Analog, Pwm, Servo in Hin; intuition).
    assert (Hpow : int_of (Z.shiftl 1 (byte_of mode)) = 2 ^ mode)
      by (repeat (destruct Hmode as [-> | Hmode]); try subst mode;
          reflexivity).
    rewrite Hpow, land_pow2_test, Hbits by lia.
    now rewrite Z.bits_0. }
  rewrite Hmodes. reflexivity.
Qed.

Lemma capability_fold_groups (groups : list (list (Z * Z))) :
  Forall group_ok groups ->
  forall ps window,
    fold_left capability_step (flat_map capability_group groups ++ window)
      (ps, 0, 0)
    = fold_left capability_step window (ps ++ map discovered groups, 0, 0).
Proof.
  induction 1 as [| g groups Hg _ IH]; intros ps window.
  - cbn. now rewrite app_nil_r.
  - cbn [flat_map map]. rewrite <- app_assoc.
    rewrite capability_fold_group by exact Hg.
    rewrite IH. now rewrite <- app_assoc.
Qed.

(** Bytes that are not the terminator create no pin. *)
Lemma capability_fold_partial (partial : list Z) :
  Forall (fun val => val <> 127) partial ->
  forall ps supportedModes n,
    fst (fst (fold_left capability_step partial (ps, supportedModes, n))) = ps.
Proof.
  induction 1 as [| val partial Hval _ IH]; intros ps sm n; [reflexivity |].
  cbn [fold_left]. unfold capability_step at 2.
  replace (val =? 127) with false by (symmetry; now apply Z.eqb_neq).
  apply IH.
Qed.

(** X11.  What the capability loop makes of a response that is at hand
    on the transport.  The body is a
    run of pins, each a list of (mode, resolution) pairs closed by 0x7F,
    followed by any bytes without 0x7F and by the four bytes the loop
    never looks at.  The pin table is replaced by one pin per closed
    run, in order; each pin is in Output mode and supports exactly the
    modes among Input, Output, Analog, Pwm, Servo that its pairs name, in
    that order; "CapabilityQuery" is signalled. *)
Theorem capability_response_parsed
    (fuel : nat) (groups : list (list (Z * Z))) (partial tail rest : list Z)
    (b : Client) (c : Conn) :
  connection b = Some c ->
  incoming c
  = sysex (CapabilityResponse
             :: flat_map capability_group groups ++ partial ++ tail) ++ rest ->
  Forall group_ok groups ->
  Forall (fun val => val <> 127) partial ->
  length tail = 4%nat ->
  Forall (fun y => y <> EndSysex)
    (flat_map capability_group groups ++ partial ++ tail) ->
  (length (flat_map capability_group groups ++ partial ++ tail) + 1 < fuel)%nat ->
  process fuel b
  = Ok tt
      (set_offers
         (offers b ++ offered (boolChan b !! "CapabilityQuery") OfferBool)
         (set_pins (map discovered groups) (holding rest c b))).
Proof.
  intros Hc Hin Hgroups Hpartial Htail Hno Hfuel.
  set (W := flat_map capability_group groups) in *.
  rewrite (process_sysex_data fuel _ _ rest b c Hc Hin); try assumption.
  2:{ destruct tail; [discriminate |]. now destruct W, partial. }
  unfold dispatch_sysex, sysex. cbn [app].
  step_index [StartSysex] CapabilityResponse ((W ++ partial ++ tail) ++ [EndSysex]).
  constant_tests. unfold modify at 1, bind at 1.
  step_slice [StartSysex; CapabilityResponse] (W ++ partial)
    (tail ++ [EndSysex]).
  pose proof (capability_fold_groups groups Hgroups [] partial) as Hfold.
  fold W in Hfold. cbn [app] in Hfold.
  pose proof (capability_fold_partial partial Hpartial (map discovered groups)
                0 0) as Hps.
  rewrite Hfold.
  destruct (fold_left capability_step partial (map discovered groups, 0, 0))
    as [[ps sm] n].
  cbn [fst] in Hps. subst ps.
  unfold modify at 1, bind at 1. rewrite signal_offered. reflexivity.
Qed.

Lemma capability_response_parsed_witness :
  let b := feed testCapabilitiesResponse New in
  process 148 b
  = Ok tt
      (set_offers
         (offers b ++ offered (boolChan b !! "CapabilityQuery") OfferBool)
         (set_pins (map discovered testCapabilityGroups)
            (holding [] (pipe testCapabilitiesResponse) b))).
Proof.
  intros b.
  apply (capability_response_parsed 148 testCapabilityGroups [0; 1; 1; 1; 2]
           [10; 6; 1; 127] [] b (pipe testCapabilitiesResponse)).
  - reflexivity.
  - reflexivity.
  - unfold testCapabilityGroups, group_ok.
    repeat (constructor; cbn [fst snd]; try lia).
  - repeat constructor; lia.
  - reflexivity.
  - apply (bool_decide_unpack _). vm_compute. reflexivity.
  - vm_compute. lia.
Defined.

(** ** Analog mapping responses, in general *)

Lemma mapping_loop_run (window : list Z) :
  forall start b,
    0 <= start ->
    start + len window <= len (pins b) ->
    mapping_loop window start b
    = Ok tt
        (set_analogPins (analogPins b ++ mapped start window)
           (set_pins (assigned (Z.to_nat start) window (pins b)) b)).
Proof.
  induction window as [| val window IH]; intros start b Hstart Hlen.
  - cbn [mapping_loop mapped assigned]. rewrite app_nil_r. now destruct b.
  - cbn [mapping_loop mapped assigned]. rewrite len_cons in Hlen.
    pose proof (len_nonneg window).
    assert (Hin : 0 <= start < len (pins b)) by lia.
    destruct (index_is_Some (pins b) start Hin) as [p Hp].
    rewrite (bind_ok _ _ _ _ _ (update_pin_ok _ _ _ _ Hp)).
    pose proof (proj2 (proj1 (index_Some _ _ _) Hp)) as Hlook.
    rewrite Hlook.
    set (b1 := set_pins _ b).
    assert (Hlen1 : len (pins b1) = len (pins b))
      by (subst b1; cbn [pins set_pins]; unfold len; now rewrite length_insert).
    replace (S (Z.to_nat start)) with (Z.to_nat (start + 1)) by lia.
    destruct (val =? 127).
    + rewrite bind_ret. rewrite IH by lia. subst b1.
      cbn [pins set_pins analogPins set_analogPins app]. reflexivity.
    + unfold modify at 1, bind at 1. rewrite IH by (cbn [pins set_analogPins]; lia).
      subst b1. cbn [pins set_pins analogPins set_analogPins].
      now rewrite <- app_assoc.
Qed.

Lemma mapped_bounds window :
  forall start k, In k (mapped start window) -> start <= k < start + len window.
Proof.
  induction window as [| val window IH]; intros start k Hk; [destruct Hk |].
  cbn [mapped] in Hk. rewrite len_cons. pose proof (len_nonneg window).
  apply in_app_or in Hk as [Hk | Hk].
  - destruct (val =? 127); [destruct Hk |]. destruct Hk as [<- | []]. lia.
  - apply IH in Hk. lia.
Qed.

Lemma mapped_sorted window :
  forall start, StronglySorted Z.lt (mapped start window).
Proof.
  induction window as [| val window IH]; intros start; [constructor |].
  cbn [mapped]. destruct (val =? 127); cbn [app]; [apply IH |].
  constructor; [apply IH |].
  apply List.Forall_forall. intros k Hk. apply mapped_bounds in Hk. lia.
Qed.

Lemma mapped_channel window :
  forall start k,
    In k (mapped start window) ->
    exists val, index window (k - start) = Some val /\ val <> 127.
Proof.
  induction window as [| val window IH]; intros start k Hk; [destruct Hk |].
  cbn [mapped] in Hk. apply in_app_or in Hk as [Hk | Hk].
  - destruct (Z.eqb_spec val 127); [destruct Hk |]. destruct Hk as [<- | []].
    exists val. rewrite Z.sub_diag. split; [reflexivity | assumption].
  - pose proof (mapped_bounds _ _ _ Hk) as Hb.
    destruct (IH _ _ Hk) as (v & Hv & Hne). exists v. split; [| exact Hne].
    rewrite index_cons by lia. rewrite <- Hv. f_equal. lia.
Qed.

Lemma assigned_length window : forall start ps,
  length (assigned start window ps) = length ps.
Proof.
  induction window as [| val window IH]; intros start ps; [reflexivity |].
  cbn [assigned]. destruct (ps !! start); [| reflexivity].
  now rewrite IH, length_insert.
Qed.

Lemma assigned_before window : forall start ps j,
  (j < start)%nat -> assigned start window ps !! j = ps !! j.
Proof.
  induction window as [| val window IH]; intros start ps j Hj; [reflexivity |].
  cbn [assigned]. destruct (ps !! start); [| reflexivity].
  rewrite IH by lia. apply list_lookup_insert_ne. lia.
Qed.

Lemma assigned_channel window : forall start ps j val,
  (start + length window <= length ps)%nat ->
  window !! j = Some val ->
  AnalogChannel <$> assigned start window ps !! (start + j)%nat = Some val.
Proof.
  induction window as [| v window IH]; intros start ps j val Hlen Hj;
    [discriminate |].
  cbn [assigned length] in *.
  destruct (lookup_lt_is_Some_2 ps start ltac:(lia)) as [p Hp]. rewrite Hp.
  destruct j as [| j].
  - cbn in Hj. injection Hj as ->. rewrite Nat.add_0_r.
    rewrite assigned_before by lia.
    rewrite list_lookup_insert_eq by (apply lookup_lt_Some in Hp; lia).
    reflexivity.
  - cbn in Hj. replace (start + S j)%nat with (S start + j)%nat by lia.
    apply IH; [rewrite length_insert; lia | exact Hj].
Qed.

Lemma process_analog_mapping fuel body rest b c :
  connection b = Some c ->
  incoming c = sysex (AnalogMappingResponse :: body) ++ rest ->
  body <> [] ->
  Forall (fun y => y <> EndSysex) body ->
  (length body + 1 < fuel)%nat ->
  3 <= len (pins b) <= len body + 3 ->
  let window := take (Z.to_nat (len (pins b) - 3)) body in
  process fuel b
  = Ok tt
      (set_offers
         (offers b ++ offered (boolChan b !! "AnalogMappingQuery") OfferBool)
         (set_analogPins (mapped 0 window)
            (set_pins (assigned 0 window (pins b)) (holding rest c b)))).
Proof.
  intros Hc Hin Hne Hno Hfuel Hn window.
  rewrite (process_sysex_data fuel _ _ rest b c Hc Hin Hne Hno Hfuel).
  unfold dispatch_sysex, sysex. cbn [app].
  step_index [StartSysex] AnalogMappingResponse (body ++ [EndSysex]).
  constant_tests. unfold modify at 1, bind at 1. unfold bind at 1, get.
  assert (Hwlen : len window = len (pins b) - 3).
  { subst window. unfold len in *. rewrite length_take. lia. }
  assert (Hslice : slice (StartSysex :: AnalogMappingResponse
                            :: body ++ [EndSysex]) 2 (len (pins b) - 1)
                   = Some window).
  { apply (slice_eq _ [StartSysex; AnalogMappingResponse] window
             (drop (Z.to_nat (len (pins b) - 3)) body ++ [EndSysex])).
    - cbn [app]. subst window. now rewrite app_assoc, take_drop.
    - reflexivity.
    - change (len [StartSysex; AnalogMappingResponse]) with 2. lia. }
  rewrite (bind_ok _ _ _ _ _ (at_slice_ok _ _ _ _ _ Hslice)).
  rewrite (bind_ok _ _ _ _ _
             (mapping_loop_run window 0 (set_analogPins [] (holding rest c b))
                ltac:(lia)
                ltac:(cbn [pins set_analogPins holding set_connection]; lia))).
  rewrite signal_offered. reflexivity.
Qed.

(** X12.  An AnalogMappingResponse, at hand on the transport, on a table
    of at least three pins that reaches no further than the body: the loop walks the first
    [len(pins) - 3] bytes of the body, the number of pins is unchanged,
    [analogPins] lists in increasing order the pins whose byte is not
    0x7F, and every pin listed exists and has the byte of the body at its
    index as its analog channel. *)
Theorem analog_mapping_in_range
    (fuel : nat) (body rest : list Z) (b : Client) (c : Conn) :
  connection b = Some c ->
  incoming c = sysex (AnalogMappingResponse :: body) ++ rest ->
  body <> [] ->
  Forall (fun y => y <> EndSysex) body ->
  (length body + 1 < fuel)%nat ->
  3 <= len (pins b) <= len body + 3 ->
  exists b',
    process fuel b = Ok tt b' /\
    length (pins b') = length (pins b) /\
    analogPins b' = mapped 0 (take (Z.to_nat (len (pins b) - 3)) body) /\
    StronglySorted Z.lt (analogPins b') /\
    forall k, In k (analogPins b') ->
      exists p, index (pins b') k = Some p /\
                AnalogChannel p <> 127 /\
                index body k = Some (AnalogChannel p).
Proof.
  intros Hc Hin Hne Hno Hfuel Hn.
  pose proof (process_analog_mapping fuel body rest b c Hc Hin Hne Hno Hfuel Hn)
    as Hrun. cbv zeta in Hrun.
  set (window := take (Z.to_nat (len (pins b) - 3)) body) in *.
  assert (Hwlen : len window = len (pins b) - 3).
  { subst window. unfold len in *. rewrite length_take. lia. }
  eexists. split; [exact Hrun |].
  cbn [pins analogPins set_offers set_analogPins set_pins holding
       set_connection].
  split; [apply assigned_length |]. split; [reflexivity |].
  split; [apply mapped_sorted |].
  intros k Hk.
  pose proof (mapped_bounds _ _ _ Hk) as Hb.
  destruct (mapped_channel _ _ _ Hk) as (val & Hval & Hne127).
  rewrite Z.sub_0_r in Hval.
  pose proof (proj2 (proj1 (index_Some _ _ _) Hval)) as Hlook.
  assert (Hch : AnalogChannel <$> assigned 0 window (pins b) !! Z.to_nat k
                = Some val).
  { apply (assigned_channel window 0 (pins b) (Z.to_nat k) val);
      [unfold len in *; lia | exact Hlook]. }
  destruct (assigned 0 window (pins b) !! Z.to_nat k) as [p |] eqn:Hp;
    [| discriminate].
  cbn in Hch. injection Hch as Hch.
  exists p. split; [| split].
  - apply index_Some. split; [| exact Hp].
    unfold len in *. rewrite assigned_length. lia.
  - congruence.
  - rewrite Hch. apply index_Some. split; [unfold len in *; lia |].
    subst window. rewrite lookup_take_Some in Hlook. tauto.
Qed.

Lemma analog_mapping_in_range_witness :
  let body := replicate 14 127 ++ [0; 1; 2; 3; 4; 5] in
  let b := feed testAnalogMappingResponse (set_pins (replicate 20 io_pin) New) in
  exists b',
    process 24 b = Ok tt b' /\
    length (pins b') = length (pins b) /\
    analogPins b' = mapped 0 (take (Z.to_nat (len (pins b) - 3)) body) /\
    StronglySorted Z.lt (analogPins b') /\
    forall k, In k (analogPins b') ->
      exists p, index (pins b') k = Some p /\
                AnalogChannel p <> 127 /\
                index body k = Some (AnalogChannel p).
Proof.
  intros body b.
  apply (analog_mapping_in_range 24 body [] b (pipe testAnalogMappingResponse)).
  - reflexivity.
  - reflexivity.
  - discriminate.
  - apply (bool_decide_unpack _). vm_compute. reflexivity.
  - vm_compute. lia.
  - vm_compute. split; discriminate.
Defined.

(** X13.  An AnalogMappingResponse, at hand on the transport, on a table
    of fewer than three pins (so before any capability response): the slice
    [currentBuffer[2 : len(b.pins)-1]] is out of range and [process]
    panics, after it has emptied [analogPins]. *)
Theorem analog_mapping_small_table
    (fuel : nat) (body rest : list Z) (b : Client) (c : Conn) :
  connection b = Some c ->
  incoming c = sysex (AnalogMappingResponse :: body) ++ rest ->
  body <> [] ->
  Forall (fun y => y <> EndSysex) body ->
  (length body + 1 < fuel)%nat ->
  len (pins b) < 3 ->
  process fuel b = Panicked (set_analogPins [] (holding rest c b)).
Proof.
  intros Hc Hin Hne Hno Hfuel Hn.
  rewrite (process_sysex_data fuel _ _ rest b c Hc Hin Hne Hno Hfuel).
  unfold dispatch_sysex, sysex. cbn [app].
  step_index [StartSysex] AnalogMappingResponse (body ++ [EndSysex]).
  constant_tests. unfold modify at 1, bind at 1. unfold bind at 1, get.
  unfold at_slice, slice.
  replace (2 <=? len (pins (set_analogPins [] (holding rest c b))) - 1)
    with false
    by (symmetry; apply Z.leb_gt;
        cbn [pins set_analogPins holding set_connection]; lia).
  reflexivity.
Qed.

Lemma analog_mapping_small_table_witness :
  let body := replicate 14 127 ++ [0; 1; 2; 3; 4; 5] in
  let b := feed testAnalogMappingResponse New in
  process 24 b
  = Panicked (set_analogPins [] (holding [] (pipe testAnalogMappingResponse) b)).
Proof.
  intros body b.
  apply (analog_mapping_small_table 24 body [] b
           (pipe testAnalogMappingResponse)).
  - reflexivity.
  - reflexivity.
  - discriminate.
  - apply (bool_decide_unpack _). vm_compute. reflexivity.
  - vm_compute. lia.
  - vm_compute. reflexivity.
Defined.

(** ** I2C replies, in general *)

Lemma i2c_pair_low val : 0 <= Z.land val 0x7F < 128.
Proof.
  change 0x7F with (Z.ones 7). rewrite Z.land_ones by lia.
  apply Z.mod_pos_bound. lia.
Qed.

Lemma i2c_loop_pairs (data : list Z) :
  Forall (fun val => 0 <= val < 256) data ->
  forall pre acc fuel b,
    (length data < fuel)%nat ->
    i2c_loop fuel (len pre) (pre ++ flat_map i2c_pair data ++ [EndSysex]) acc b
    = Ok (acc ++ data) b.
Proof.
  induction 1 as [| val data Hval _ IH]; intros pre acc fuel b Hfuel;
    (destruct fuel as [| fuel]; [cbn [length] in Hfuel; lia |]);
    cbn [i2c_loop flat_map app].
  - pose proof (len_nonneg pre).
    replace (len pre <? len (pre ++ [EndSysex])) with true
      by (symmetry; apply Z.ltb_lt; rewrite len_app;
          change (len [EndSysex]) with 1; lia).
    rewrite (bind_ok _ _ _ _ _
               (at_index_ok _ _ _ _ (index_at_prefix pre EndSysex []))).
    cbn. now rewrite app_nil_r.
  - set (lo := Z.land val 0x7F). set (hi := Z.land (Z.shiftr val 7) 0x7F).
    set (tl := flat_map i2c_pair data ++ [EndSysex]).
    change (i2c_pair val ++ flat_map i2c_pair data) with
      (lo :: hi :: flat_map i2c_pair data).
    cbn [app]. fold tl.
    pose proof (len_nonneg pre). pose proof (len_nonneg tl).
    assert (Hlen : len (pre ++ lo :: hi :: tl) = len pre + 2 + len tl)
      by (rewrite len_app, !len_cons; lia).
    replace (len pre <? len (pre ++ lo :: hi :: tl)) with true
      by (symmetry; apply Z.ltb_lt; lia).
    rewrite (bind_ok _ _ _ _ _
               (at_index_ok _ _ _ _ (index_at_prefix pre lo (hi :: tl)))).
    replace (lo =? 247) with false
      by (symmetry; apply Z.eqb_neq; pose proof (i2c_pair_low val);
          subst lo; lia).
    assert (Htl : 1 <= len tl)
      by (subst tl; rewrite len_app; change (len [EndSysex]) with 1;
          pose proof (len_nonneg (flat_map i2c_pair data)); lia).
    rewrite (gtb_false (len pre + 2)) by lia.
    assert (Hhi : index (pre ++ lo :: hi :: tl) (len pre + 1) = Some hi).
    { pose proof (index_at_prefix (pre ++ [lo]) hi tl) as Hx.
      rewrite <- app_assoc in Hx. cbn [app] in Hx.
      rewrite len_app in Hx. exact Hx. }
    rewrite (bind_ok _ _ _ _ _ (at_index_ok _ _ _ _ Hhi)).
    replace (byte_join lo hi) with val
      by (symmetry; apply byte_join_split; exact Hval).
    pose proof (IH (pre ++ [lo; hi]) (acc ++ [val]) fuel b
                  ltac:(cbn [length] in Hfuel; lia)) as Hrec.
    rewrite <- !app_assoc in Hrec. cbn [app] in Hrec. fold tl in Hrec.
    rewrite len_app in Hrec. change (len [lo; hi]) with 2 in Hrec.
    exact Hrec.
Qed.

(** An I2C reply whose data bytes come in the pairs [I2cWrite] builds
    is decoded to the bytes the pairs were built from. *)
Lemma process_i2c_pairs
    (fuel : nat) (a0 a1 r0 r1 v0 : Z) (data rest : list Z)
    (b : Client) (c : Conn) :
  connection b = Some c ->
  incoming c
  = sysex (I2CReply :: a0 :: a1 :: r0 :: r1 :: flat_map i2c_pair (v0 :: data))
    ++ rest ->
  Forall (fun y => y <> EndSysex) [a1; r0; r1] ->
  Forall (fun val => 0 <= val < 256) (v0 :: data) ->
  (2 * length data + 8 < fuel)%nat ->
  process fuel b
  = Ok tt
      (set_offers
         (offers b
          ++ offered (i2cChan b)
               (fun ch =>
                  OfferI2c ch
                    (mkI2cReply (byte_join a0 a1) (byte_join r0 r1)
                       (v0 :: data))))
         (holding rest c b)).
Proof.
  intros Hc Hin Hno Hbytes Hfuel.
  assert (Hpairs : forall l, Forall (fun y => y <> EndSysex) (flat_map i2c_pair l)).
  { induction l as [| v l IHl]; [constructor |]. cbn [flat_map i2c_pair app].
    constructor; [pose proof (i2c_pair_low v); unfold EndSysex; lia |].
    constructor;
      [pose proof (i2c_pair_low (Z.shiftr v 7)); unfold EndSysex; lia |].
    exact IHl. }
  assert (Hplen : forall l, length (flat_map i2c_pair l) = (2 * length l)%nat).
  { induction l as [| v l IHl]; [reflexivity |].
    cbn [flat_map i2c_pair app length]. lia. }
  inversion Hno as [| ? ? H1 Hno1]; subst.
  inversion Hno1 as [| ? ? H2 Hno2]; subst.
  inversion Hno2 as [| ? ? H3 _]; subst.
  inversion Hbytes as [| ? ? Hv0 Hdata]; subst.
  rewrite (process_sysex fuel _ _ _ rest b c Hc Hin).
  2:{ repeat (constructor; [assumption |]). apply (Hpairs (v0 :: data)). }
  2:{ cbn [length]. rewrite Hplen. cbn [length]. lia. }
  unfold dispatch_sysex, sysex. cbn [flat_map i2c_pair app].
  set (lo := Z.land v0 0x7F). set (hi := Z.land (Z.shiftr v0 7) 0x7F).
  set (tl := flat_map i2c_pair data ++ [EndSysex]).
  step_index [StartSysex] I2CReply (a0 :: a1 :: r0 :: r1 :: lo :: hi :: tl).
  constant_tests.
  step_index [StartSysex; I2CReply] a0 (a1 :: r0 :: r1 :: lo :: hi :: tl).
  step_index [StartSysex; I2CReply; a0] a1 (r0 :: r1 :: lo :: hi :: tl).
  step_index [StartSysex; I2CReply; a0; a1] r0 (r1 :: lo :: hi :: tl).
  step_index [StartSysex; I2CReply; a0; a1; r0] r1 (lo :: hi :: tl).
  step_index [StartSysex; I2CReply; a0; a1; r0; r1] lo (hi :: tl).
  step_index [StartSysex; I2CReply; a0; a1; r0; r1; lo] hi tl.
  replace (byte_join lo hi) with v0
    by (symmetry; apply byte_join_split; exact Hv0).
  assert (Htl : length tl = (2 * length data + 1)%nat)
    by (subst tl; rewrite length_app, Hplen; cbn [length]; lia).
  pose proof (i2c_loop_pairs data Hdata
                [StartSysex; I2CReply; a0; a1; r0; r1; lo; hi] [v0]
                (length (StartSysex :: I2CReply :: a0 :: a1 :: r0 :: r1
                           :: lo :: hi :: tl))
                (holding rest c b)
                ltac:(cbn [length]; lia)) as Hloop.
  cbn [app] in Hloop. fold tl in Hloop.
  change (len [StartSysex; I2CReply; a0; a1; r0; r1; lo; hi]) with 8 in Hloop.
  rewrite (bind_ok _ _ _ _ _ Hloop).
  unfold bind at 1, get. rewrite try_send_offered. reflexivity.
Qed.

(** ** Read errors *)

Lemma with_incoming_same c : incoming c = [] -> with_incoming [] c = c.
Proof. intros H. destruct c; cbn in *. now subst. Qed.

Lemma set_connection_same b c : connection b = Some c -> set_connection (Some c) b = b.
Proof. intros H. destruct b; cbn in *. now subst. Qed.

Lemma read_loop_empty fuel n buf b c :
  connection b = Some c ->
  incoming c = [] ->
  later c = [] ->
  0 < n ->
  read_loop (S fuel) n buf b
  = match readErr c with
    | Some e => if String.eqb e "EOF" then read_loop fuel n buf b else Failed e b
    | None => read_loop fuel n buf b
    end.
Proof.
  intros Hc Hin Hlater Hn. cbn [read_loop].
  replace (n <=? 0) with false by (symmetry; apply Z.leb_gt; lia).
  unfold bind at 1, with_conn. rewrite Hc. unfold conn_Read.
  rewrite Hin, Hlater.
  rewrite set_connection_same by exact Hc.
  change (0 <? 0) with false. cbv iota.
  destruct (readErr c) as [e |]; [destruct (String.eqb e "EOF") |];
    reflexivity.
Qed.

Lemma read_loop_partial fuel n buf b c :
  connection b = Some c ->
  incoming c <> [] ->
  len (incoming c) < n ->
  read_loop (S fuel) n buf b
  = read_loop fuel (n - len (incoming c))
      (buf ++ incoming c ++ replicate (Z.to_nat (n - len (incoming c))) 0)
      (holding [] c b).
Proof.
  intros Hc Hne Hlen. pose proof (len_nonneg (incoming c)).
  cbn [read_loop].
  replace (n <=? 0) with false by (symmetry; apply Z.leb_gt; lia).
  unfold bind at 1, with_conn. rewrite Hc. unfold conn_Read.
  destruct (incoming c) as [| x l] eqn:Hin; [congruence |].
  assert (Hpos : 0 < len (x :: l))
    by (rewrite len_cons; pose proof (len_nonneg l); lia).
  rewrite Z.min_r by lia.
  replace (0 <? len (x :: l)) with true by (symmetry; apply Z.ltb_lt; lia).
  unfold len at 2 4. rewrite Nat2Z.id, firstn_all, drop_all. reflexivity.
Qed.

Lemma read_loop_short_error fuel n buf b c e :
  connection b = Some c ->
  len (incoming c) < n ->
  later c = [] ->
  readErr c = Some e ->
  e <> "EOF"%string ->
  read_loop (S (S fuel)) n buf b = Failed e (holding [] c b).
Proof.
  intros Hc Hlen Hlater He Hneq. pose proof (len_nonneg (incoming c)).
  assert (Hfalse : String.eqb e "EOF" = false) by now apply String.eqb_neq.
  destruct (incoming c) as [| x l] eqn:Hin.
  - rewrite (read_loop_empty _ n buf b c Hc Hin Hlater) by lia.
    rewrite He, Hfalse. unfold holding. rewrite <- Hin.
    replace (with_incoming (incoming c) c) with c by (now destruct c).
    now rewrite set_connection_same.
  - rewrite (read_loop_partial (S fuel) n buf b c Hc)
      by (rewrite Hin; first [discriminate | exact Hlen]).
    rewrite (read_loop_empty fuel _ _ (holding [] c b) (with_incoming [] c))
      by (try reflexivity; try exact Hlater; rewrite Hin; lia).
    cbn [readErr with_incoming]. now rewrite He, Hfalse.
Qed.

(** X5.  When the transport holds fewer than the three bytes [process]
    first reads, no more are to arrive, and it then reports an error other
    than "EOF", [process] returns that error: the bytes that were there
    are consumed, and nothing is dispatched. *)
Theorem process_returns_read_error
    (fuel : nat) (b : Client) (c : Conn) (e : string) :
  connection b = Some c ->
  len (incoming c) < 3 ->
  later c = [] ->
  readErr c = Some e ->
  e <> "EOF"%string ->
  process (S (S fuel)) b = Failed e (holding [] c b).
Proof.
  intros Hc Hlen Hlater He Hneq. unfold process, read_frame, read.
  unfold bind at 1. unfold bind at 1.
  now rewrite (read_loop_short_error fuel 3 [] b c e Hc Hlen Hlater He Hneq).
Qed.

Lemma process_returns_read_error_witness :
  let c := broken_pipe "input/output error" in
  let b := set_connection (Some c) New in
  process 2 b = Failed "input/output error" (holding [] c b).
Proof.
  intros c b. apply (process_returns_read_error 0 b c "input/output error").
  - reflexivity.
  - vm_compute. reflexivity.
  - reflexivity.
  - reflexivity.
  - discriminate.
Defined.

Lemma read_loop_waits fuel : forall n buf b c,
  connection b = Some c ->
  len (incoming c) < n ->
  later c = [] ->
  readErr c = None \/ readErr c = Some "EOF"%string ->
  read_loop fuel n buf b = Blocked.
Proof.
  induction fuel as [| fuel IH]; intros n buf b c Hc Hlen Hlater He;
    pose proof (len_nonneg (incoming c)).
  - cbn [read_loop].
    now replace (n <=? 0) with false by (symmetry; apply Z.leb_gt; lia).
  - destruct (incoming c) as [| x l] eqn:Hin.
    + rewrite (read_loop_empty _ n buf b c Hc Hin Hlater) by lia.
      assert (Hnext : read_loop fuel n buf b = Blocked)
        by (apply (IH n buf b c Hc);
            [rewrite Hin; exact Hlen | exact Hlater | exact He]).
      destruct He as [-> | ->]; [exact Hnext |].
      now rewrite String.eqb_refl.
    + rewrite (read_loop_partial fuel n buf b c Hc)
        by (rewrite Hin; first [discriminate | exact Hlen]).
      apply (IH _ _ _ (with_incoming [] c));
        [reflexivity | | exact Hlater | exact He].
      change (len (incoming (with_incoming [] c))) with 0. rewrite Hin. lia.
Qed.

(** X6.  "EOF" is never returned.  When the transport holds fewer than
    three bytes, no more are to arrive, and it then reports no error, or
    "EOF", [read] keeps polling and [process] does not return, whatever
    the number of turns it is given. *)
Theorem process_waits_for_a_frame (fuel : nat) (b : Client) (c : Conn) :
  connection b = Some c ->
  len (incoming c) < 3 ->
  later c = [] ->
  readErr c = None \/ readErr c = Some "EOF"%string ->
  process fuel b = Blocked.
Proof.
  intros Hc Hlen Hlater He. unfold process, read_frame, read.
  unfold bind at 1. unfold bind at 1.
  now rewrite (read_loop_waits fuel 3 [] b c Hc Hlen Hlater He).
Qed.

Lemma process_waits_for_a_frame_witness :
  process 5 (feed [0xF9; 2] New) = Blocked.
Proof.
  apply (process_waits_for_a_frame 5 (feed [0xF9; 2] New) (pipe [0xF9; 2])).
  - reflexivity.
  - vm_compute. reflexivity.
  - reflexivity.
  - left. reflexivity.
Defined.

(** ** The shape of the pin table *)

Lemma keeps_bind_index {A B} (R : Client -> Client -> Prop)
    (l : list A) i (k : A -> M B) :
  (forall b, R b b) ->
  (forall x, index l i = Some x -> keeps R (k x)) ->
  keeps R (bind (at_index l i) k).
Proof.
  intros Hrefl Hk b. unfold bind, at_index.
  destruct (index l i) as [x |] eqn:E; cbn; [| apply Hrefl].
  apply (Hk x eq_refl b).
Qed.

Lemma modes_update_pin i f :
  (forall p, SupportedModes (f p) = SupportedModes p) ->
  keeps same_modes (update_pin i f).
Proof.
  intros Hf b. destruct (index (pins b) i) as [p |] eqn:E.
  - rewrite (update_pin_ok _ _ _ _ E). unfold same_modes.
    cbn [pins set_pins]. apply index_Some in E as [_ E].
    rewrite list_fmap_insert, Hf.
    apply list_insert_id. now rewrite list_lookup_fmap, E.
  - rewrite (update_pin_panicked _ _ _ E). reflexivity.
Qed.

Ltac modes_step :=
  first
    [ apply (keeps_ret _ same_modes_refl)
    | apply (keeps_get _ same_modes_refl)
    | apply (keeps_panic _ same_modes_refl)
    | apply (keeps_fail _ same_modes_refl)
    | apply keeps_blocked
    | apply (keeps_at_index _ same_modes_refl)
    | apply (keeps_at_slice _ same_modes_refl)
    | apply (keeps_pin_at _ same_modes_refl same_modes_trans)
    | apply modes_update_pin; intros ?; reflexivity
    | apply keeps_modify; intros ?; reflexivity
    | apply (keeps_bind _ same_modes_trans); [| intros ?]
    | match goal with
      | |- keeps _ (if ?c then _ else _) => destruct c
      | |- keeps _ (match ?c with Some _ => _ | None => _ end) => destruct c
      end ].

Lemma modes_try_send ch o : keeps same_modes (try_send ch o).
Proof. unfold try_send. destruct ch; repeat modes_step. Qed.

Lemma modes_signal name : keeps same_modes (signal name).
Proof. unfold signal. repeat modes_step. apply modes_try_send. Qed.

Lemma modes_read_loop fuel :
  forall n buf, keeps same_modes (read_loop fuel n buf).
Proof.
  induction fuel as [| fuel IH]; intros n buf; cbn [read_loop].
  - repeat modes_step.
  - destruct (n <=? 0); [modes_step |].
    apply (keeps_bind _ same_modes_trans).
    + intros b. unfold with_conn.
      destruct (connection b) as [c |]; [| reflexivity].
      destruct (conn_Read n c) as [[[tmp i] err] c']. reflexivity.
    + intros [[tmp i] err].
      destruct err as [e |]; [destruct (String.eqb e "EOF") |];
        try (destruct (0 <? i); apply IH).
      modes_step.
Qed.

Lemma modes_readSysex fuel :
  forall cb, keeps same_modes (readSysex fuel cb).
Proof.
  induction fuel as [| fuel IH]; intros cb; cbn [readSysex].
  - modes_step.
  - apply (keeps_bind _ same_modes_trans); [apply modes_read_loop |].
    intros buf. repeat modes_step. apply IH.
Qed.

Lemma modes_read_frame fuel : keeps same_modes (read_frame fuel).
Proof.
  unfold read_frame.
  apply (keeps_bind _ same_modes_trans); [apply modes_read_loop |].
  intros buf. repeat modes_step. apply modes_readSysex.
Qed.

Lemma modes_mapping_loop w :
  forall i, keeps same_modes (mapping_loop w i).
Proof.
  induction w as [| val w IH]; intros i; cbn [mapping_loop].
  - modes_step.
  - apply (keeps_bind _ same_modes_trans); [modes_step |].
    intros _. apply (keeps_bind _ same_modes_trans); [| intros _; apply IH].
    repeat modes_step.
Qed.

Lemma modes_digital_loop port pv bits :
  keeps same_modes (digital_loop port pv bits).
Proof.
  induction bits as [| i bits IH]; cbn [digital_loop].
  - modes_step.
  - apply (keeps_bind _ same_modes_trans); [modes_step |]. intros b.
    apply (keeps_bind _ same_modes_trans); [| intros _; apply IH].
    destruct (len (pins b) >? _); [| modes_step].
    apply (keeps_bind _ same_modes_trans); [modes_step |]. intros p.
    destruct (Mode p =? Input); [| modes_step].
    apply (keeps_bind _ same_modes_trans); [modes_step |].
    intros _. apply (keeps_bind _ same_modes_trans); [modes_step |].
    intros p'. apply modes_try_send.
Qed.

Lemma modes_i2c_loop fuel :
  forall i cb data, keeps same_modes (i2c_loop fuel i cb data).
Proof.
  induction fuel as [| fuel IH]; intros i cb data; cbn [i2c_loop].
  - modes_step.
  - destruct (i <? len cb); [| modes_step].
    apply (keeps_bind _ same_modes_trans); [modes_step |]. intros ci.
    destruct (ci =? 247); [modes_step |].
    destruct (i + 2 >? len cb); [modes_step |].
    apply (keeps_bind _ same_modes_trans); [modes_step |]. intros ci1.
    apply IH.
Qed.

Ltac modes_auto :=
  repeat first
    [ apply modes_try_send | apply modes_signal
    | apply modes_mapping_loop | apply modes_digital_loop
    | apply modes_i2c_loop | modes_step ].

Lemma modes_dispatch_sysex cb :
  index cb 1 <> Some CapabilityResponse ->
  keeps same_modes (dispatch_sysex cb).
Proof.
  intros Hcmd. unfold dispatch_sysex.
  apply keeps_bind_index; [apply same_modes_refl |]. intros command Hc.
  destruct (Z.eqb_spec command CapabilityResponse) as [-> | _];
    [contradiction |].
  modes_auto.
Qed.

Lemma modes_dispatch frame :
  ~ (index frame 0 = Some StartSysex /\
     index frame 1 = Some CapabilityResponse) ->
  keeps same_modes (dispatch frame).
Proof.
  intros Hframe. unfold dispatch.
  apply keeps_bind_index; [apply same_modes_refl |]. intros messageType Hm.
  destruct (ProtocolVersion =? messageType); [modes_auto |].
  destruct ((AnalogMessageRangeStart <=? messageType)
            && (AnalogMessageRangeEnd >=? messageType)); [modes_auto |].
  destruct ((DigitalMessageRangeStart <=? messageType)
            && (DigitalMessageRangeEnd >=? messageType)); [modes_auto |].
  destruct (Z.eqb_spec StartSysex messageType) as [<- | _]; [| modes_step].
  apply modes_dispatch_sysex. tauto.
Qed.

(** X2.  Only a CapabilityResponse changes the shape of the pin table:
    when the frame [process] reads is not a sysex frame with subcommand
    CapabilityResponse, the call leaves the number of pins and the
    supported modes of every pin as they were, however it ends. *)
Theorem pin_table_shape_kept (fuel : nat) (b b1 : Client) (frame : list Z) :
  read_frame fuel b = Ok frame b1 ->
  ~ (index frame 0 = Some StartSysex /\
     index frame 1 = Some CapabilityResponse) ->
  match process fuel b with
  | Ok _ b' | Failed _ b' | Panicked b' =>
      map SupportedModes (pins b') = map SupportedModes (pins b)
  | Blocked => True
  end.
Proof.
  intros Hread Hframe. unfold process.
  rewrite (bind_ok _ _ _ _ _ Hread).
  pose proof (modes_read_frame fuel b) as H1. rewrite Hread in H1.
  pose proof (modes_dispatch frame Hframe b1) as H2.
  unfold same_modes in *.
  destruct (dispatch frame b1); congruence.
Qed.

Lemma pin_table_shape_kept_witness :
  let b := feed [0x90; 0x04; 0x00]
             (set_pins (<[2%nat := set_Mode Input io_pin]> (replicate 8 io_pin))
                New) in
  match process 1 b with
  | Ok _ b' | Failed _ b' | Panicked b' =>
      map SupportedModes (pins b') = map SupportedModes (pins b)
  | Blocked => True
  end.
Proof.
  intros b.
  apply (pin_table_shape_kept 1 b
           (holding [] (pipe [0x90; 0x04; 0x00]) b) [0x90; 0x04; 0x00]).
  - reflexivity.
  - intros [H _]. vm_compute in H. discriminate H.
Defined.

(** X1.  However a call of [process] ends (it returns, returns an error or
    panics), it leaves the request side of the client as it found it: the
    [connected] flag, what has been written to the transport together
    with the transport's errors and closed state, the four channel
    fields [pinReportChan], [pinStateChan], [i2cChan], [boolChan],
    [stringDataChan] and [Error], and the channels made so far. *)
Theorem process_keeps_request_side (fuel : nat) (b : Client) :
  match process fuel b with
  | Ok _ b' | Failed _ b' | Panicked b' => control b' = control b
  | Blocked => True
  end.
Proof. exact (process_keeps_control fuel b). Qed.

(** ** The handshake of Connect, in general *)

Lemma bool_query_ok name request b b0 :
  request b = Ok tt b0 ->
  bool_query name request b
  = Ok (nextChan b0)
      (set_boolChan (<[name := nextChan b0]> (boolChan b0))
         (set_nextChan (S (nextChan b0)) b0)).
Proof.
  intros H. unfold bool_query. rewrite (bind_ok _ _ _ _ _ H). reflexivity.
Qed.

Lemma send_query_written q b c :
  connection b = Some c ->
  writeErr c = None ->
  exists ch b' frame,
    Connect.send_query q b = Ok ch b' /\
    connected b' = connected b /\
    connection b'
    = Some (mkConn (incoming c) (written c ++ [frame]) (readErr c)
              (writeErr c) (closed c) (later c)) /\
    frame = match q with
            | Connect.QProtocolVersion => [ProtocolVersion]
            | Connect.QFirmware => sysex [FirmwareQuery]
            | Connect.QCapability => sysex [CapabilityQuery]
            | Connect.QAnalogMapping => sysex [AnalogMappingQuery]
            end.
Proof.
  intros Hc He.
  destruct q; cbn [Connect.send_query];
    unfold ProtocolVersionQuery, FirmwareQuery_, CapabilityQuery_,
      AnalogMappingQuery_, writeSysex;
    erewrite bool_query_ok by (apply (write_ok _ _ _ Hc He));
    eexists _, _, _; repeat split; reflexivity.
Qed.

Lemma wire_of_control s s' :
  control (Connect.client s') = control (Connect.client s) ->
  Connect.wire s' = Connect.wire s /\
  connected (Connect.client s') = connected (Connect.client s) /\
  ((exists conn, connection (Connect.client s) = Some conn /\
                 writeErr conn = None) ->
   exists conn, connection (Connect.client s') = Some conn /\
                writeErr conn = None).
Proof.
  unfold control, Connect.wire. intros H.
  injection H as Hconn Hrest _ _ _ _ _ _ _.
  destruct (connection (Connect.client s')) as [c' |],
    (connection (Connect.client s)) as [c |]; cbn in Hrest;
    try discriminate.
  - injection Hrest as Hw Hr He Hcl. split; [exact Hw |].
    split; [exact Hconn |]. intros (conn & Hc & Hwe). injection Hc as <-.
    exists c'. split; [reflexivity | congruence].
  - split; [reflexivity |]. split; [exact Hconn |].
    intros (conn & Hc & _). discriminate.
Qed.

Lemma handshake_step_inv s s' :
  handshake_inv s -> Connect.handshake_step s = Some s' -> handshake_inv s'.
Proof.
  intros (Hwire & Hconn & (conn & Hc & He) & Hmain) Hstep.
  unfold Connect.handshake_step in Hstep.
  destruct (Connect.handshake s) as [| q | ch | q ch | port |] eqn:Hh;
    try discriminate.
  - (* a query *)
    destruct (send_query_written q _ _ Hc He)
      as (ch & b' & frame & Hrun & Hk & Hc' & Hframe).
    rewrite Hrun in Hstep. injection Hstep as <-.
    unfold handshake_inv, Connect.wire in *.
    cbn [Connect.client Connect.handshake Connect.main]. rewrite Hc' in *.
    rewrite Hc in Hwire. cbn [written].
    split; [| split; [| split]].
    + destruct q; cbn [requests_sent Connect.after_query] in *;
        injection Hwire as <-; subst frame; reflexivity.
    + rewrite Hk, Hconn. now destruct q.
    + eexists. split; [reflexivity | exact He].
    + intros Hm. rewrite Hk. now apply Hmain.
  - (* c.connected = true *)
    injection Hstep as <-. unfold handshake_inv, Connect.wire in *.
    cbn [Connect.client Connect.handshake Connect.main connected connection
         set_connected requests_sent past_connected] in *.
    split; [exact Hwire |]. split; [reflexivity |].
    split; [eauto | reflexivity].
  - (* ReportDigital *)
    cbn [requests_sent] in Hwire.
    assert (Hwrite : forall state,
              Connect.wire s = Connect.wire s ->
              exists ch b',
                ReportDigital_ port state (Connect.client s) = Ok ch b' /\
                connected b' = connected (Connect.client s) /\
                connection b'
                = Some (mkConn (incoming conn)
                          (written conn
                           ++ [[Z.lor (byte_of ReportDigital) (byte_of port);
                                byte_of (if state =? 0 then 0 else 1)]])
                          (readErr conn) (writeErr conn) (closed conn) (later conn))).
    { intros state _. unfold ReportDigital_, togglePinReporting.
      rewrite (bind_ok _ _ _ _ _ (write_ok _ _ _ Hc He)).
      eexists _, _. split; [reflexivity |]. split; reflexivity. }
    destruct (Hwrite 1 eq_refl) as (ch & b' & Hrun & Hk & Hc').
    rewrite Hrun in Hstep. injection Hstep as <-.
    unfold handshake_inv, Connect.wire in *.
    cbn [Connect.client Connect.handshake Connect.main]. rewrite Hc' in *.
    rewrite Hc in Hwire. cbn [written].
    split; [| split; [| split]].
    + destruct (Z.eqb_spec port 0) as [-> | Hp0].
      * injection Hwire as <-. reflexivity.
      * destruct (Z.eqb_spec port 1) as [-> | Hp1]; [| discriminate].
        injection Hwire as <-. cbn [requests_sent].
        now rewrite <- !app_assoc.
    + rewrite Hk, Hconn. cbn [past_connected]. now destruct (port =? 0).
    + eexists. split; [reflexivity | exact He].
    + intros Hm. rewrite Hk. now apply Hmain.
Qed.

Lemma receive_same os h :
  requests_sent (Connect.receive os h) = requests_sent h /\
  past_connected (Connect.receive os h) = past_connected h.
Proof.
  unfold Connect.receive. destruct h as [| | | q [ch |] | |]; try (split; reflexivity).
  destruct (Connect.signalled ch os); [| split; reflexivity].
  destruct q; split; reflexivity.
Qed.

Lemma main_step_inv s s' :
  handshake_inv s -> Connect.main_step s = Some s' -> handshake_inv s'.
Proof.
  intros (Hwire & Hconn & Hwr & Hmain) Hstep.
  unfold Connect.main_step in Hstep.
  destruct (Connect.main s) eqn:Hm; try discriminate.
  - destruct Hwr as (conn & Hc & He). rewrite Hc in Hstep.
    pose proof (process_keeps_control (S (length (incoming conn)))
                  (Connect.client s)) as Hkeep.
    unfold same_control in Hkeep.
    destruct (process _ (Connect.client s)) as [[] c' | e c' | |];
      try discriminate; injection Hstep as <-;
      destruct (wire_of_control s
                  (Connect.mkSystem c' (Connect.handshake s) (Connect.main s))
                  Hkeep) as (Hw & Hk & Hex);
      unfold handshake_inv;
      cbn [Connect.client Connect.handshake Connect.main] in *.
    + destruct (receive_same (Connect.new_offers (Connect.client s) c')
                  (Connect.handshake s)) as [-> ->].
      unfold Connect.wire in *. cbn [Connect.client] in *.
      split; [congruence |]. split; [congruence |].
      split; [apply Hex; eauto | discriminate].
    + unfold Connect.wire in *. cbn [Connect.client] in *.
      split; [congruence |]. split; [congruence |].
      split; [apply Hex; eauto | discriminate].
  - injection Hstep as <-. unfold handshake_inv, Connect.wire in *.
    cbn [Connect.client Connect.handshake Connect.main] in *.
    repeat split; try assumption.
    destruct (connected (Connect.client s)); [reflexivity | discriminate].
Qed.

Lemma board_step_inv data s s' :
  handshake_inv s -> Connect.board_step data s = Some s' -> handshake_inv s'.
Proof.
  intros (Hwire & Hconn & (conn & Hc & He) & Hmain) Hstep.
  unfold Connect.board_step in Hstep. rewrite Hc in Hstep.
  injection Hstep as <-. unfold handshake_inv, Connect.wire in *.
  cbn [Connect.client Connect.handshake Connect.main connection connected
       set_connection written with_incoming] in *.
  rewrite Hc in Hwire.
  repeat split; try assumption. eexists. split; [reflexivity | exact He].
Qed.

Lemma run_inv schedule : forall s s',
  handshake_inv s -> Connect.run schedule s = Some s' -> handshake_inv s'.
Proof.
  induction schedule as [| a schedule IH]; intros s s' Hinv Hrun;
    cbn [Connect.run] in Hrun.
  - now injection Hrun as <-.
  - destruct (Connect.step a s) as [s1 |] eqn:Hstep; [| discriminate].
    apply (IH s1 s'); [| exact Hrun].
    destruct a; cbn [Connect.step] in Hstep;
      eauto using handshake_step_inv, main_step_inv, board_step_inv.
Qed.

(** X24.  In every state [Connect] can reach on a transport that accepts
    writes, whatever the interleaving of its goroutine, its caller and
    the board: the requests written are Reset, then the four queries in
    the order ProtocolVersion, Firmware, Capability, AnalogMapping, then
    the two ReportDigital messages, each written when the goroutine gets
    to it; [connected] is true exactly from the point where the goroutine
    has executed [c.connected = true]; and [Connect] has returned nil only
    if [connected] is true. *)
Theorem Connect_handshake_order
    (conn : Conn) (c0 : Client) (schedule : list Connect.Action)
    (s0 s : Connect.System) :
  connected c0 = false ->
  written conn = [] ->
  writeErr conn = None ->
  Connect.enter conn c0 = Some s0 ->
  Connect.run schedule s0 = Some s ->
  requests_sent (Connect.handshake s) = Some (Connect.wire s) /\
  connected (Connect.client s) = past_connected (Connect.handshake s) /\
  (Connect.main s = Connect.MainReturned None ->
   connected (Connect.client s) = true).
Proof.
  intros Hconn Hw He Henter Hrun.
  assert (Hinv : handshake_inv s).
  { apply (run_inv schedule s0 s); [| exact Hrun].
    unfold Connect.enter in Henter. rewrite Hconn in Henter.
    unfold Reset in Henter.
    rewrite (write_ok _ (set_connection (Some conn) c0) conn eq_refl He)
      in Henter.
    injection Henter as <-. unfold handshake_inv, Connect.wire.
    cbn [Connect.client Connect.handshake Connect.main connection connected
         set_connection written requests_sent past_connected].
    rewrite Hw. repeat split; try assumption; [| discriminate].
    eexists. split; [reflexivity | exact He]. }
  destruct Hinv as (H1 & H2 & _ & H4). auto.
Qed.

Lemma Connect_handshake_order_witness :
  exists s0 s,
    Connect.enter (pipe []) New = Some s0 /\
    Connect.run Connect.orderly s0 = Some s /\
    requests_sent (Connect.handshake s) = Some (Connect.wire s) /\
    connected (Connect.client s) = past_connected (Connect.handshake s) /\
    (Connect.main s = Connect.MainReturned None ->
     connected (Connect.client s) = true).
Proof.
  eexists _, _.
  split; [vm_compute; reflexivity |].
  split; [vm_compute; reflexivity |].
  eapply (Connect_handshake_order (pipe []) New Connect.orderly).
  - reflexivity.
  - reflexivity.
  - reflexivity.
  - vm_compute. reflexivity.
  - vm_compute. reflexivity.
Defined.

(** X8.  Each call of [ProtocolVersionQuery] writes the single byte 0xF9
    and installs a channel of its own under "ProtocolVersion": two calls
    in a row return different channels, and the version report
    [0xF9, major, minor], at hand on the transport and processed
    afterwards, stores "major.minor" in
    [protocolVersion] and is signalled on the channel of the second call
    only. *)
Theorem protocol_version_query_replaced
    (fuel : nat) (major minor : Z) (rest : list Z) (b : Client) (c : Conn) :
  connection b = Some c ->
  writeErr c = None ->
  exists ch1 ch2 b1 b2 c2 b3,
    ProtocolVersionQuery b = Ok ch1 b1 /\
    ProtocolVersionQuery b1 = Ok ch2 b2 /\
    ch1 <> ch2 /\
    connection b2 = Some c2 /\
    written c2 = written c ++ [[ProtocolVersion]; [ProtocolVersion]] /\
    process (S fuel) (holding (ProtocolVersion :: major :: minor :: rest) c2 b2)
    = Ok tt b3 /\
    protocolVersion b3 = (decimal major +:+ "." +:+ decimal minor)%string /\
    offers b3 = offers b ++ [OfferBool ch2].
Proof.
  intros Hc He.
  set (c1 := mkConn (incoming c) (written c ++ [[ProtocolVersion]])
               (readErr c) (writeErr c) (closed c) (later c)).
  set (b0 := set_connection (Some c1) b).
  set (b1 := set_boolChan (<["ProtocolVersion"%string := nextChan b0]> (boolChan b0))
               (set_nextChan (S (nextChan b0)) b0)).
  assert (H1 : ProtocolVersionQuery b = Ok (nextChan b0) b1)
    by (apply bool_query_ok, (write_ok _ _ _ Hc He)).
  set (c2 := mkConn (incoming c1) (written c1 ++ [[ProtocolVersion]])
               (readErr c1) (writeErr c1) (closed c1) (later c1)).
  set (b1' := set_connection (Some c2) b1).
  set (b2 := set_boolChan (<["ProtocolVersion"%string := nextChan b1']> (boolChan b1'))
               (set_nextChan (S (nextChan b1')) b1')).
  assert (H2 : ProtocolVersionQuery b1 = Ok (nextChan b1') b2)
    by (apply bool_query_ok, (write_ok _ b1 c1 eq_refl He)).
  eexists _, _, _, _, c2, _.
  split; [exact H1 |]. split; [exact H2 |].
  split; [cbn; lia |].
  split; [reflexivity |].
  split; [cbn [c2 c1 written]; now rewrite <- app_assoc |].
  split.
  - apply (process_protocol_version fuel major minor rest _
             (with_incoming (ProtocolVersion :: major :: minor :: rest) c2));
      reflexivity.
  - cbn [protocolVersion offers set_offers set_protocolVersion holding
         set_connection boolChan b2 b1' set_boolChan set_nextChan b1 b0].
    split; [reflexivity |]. now rewrite lookup_insert_eq.
Qed.

Lemma protocol_version_query_replaced_witness :
  let b := feed [] New in
  exists ch1 ch2 b1 b2 c2 b3,
    ProtocolVersionQuery b = Ok ch1 b1 /\
    ProtocolVersionQuery b1 = Ok ch2 b2 /\
    ch1 <> ch2 /\
    connection b2 = Some c2 /\
    written c2 = written (pipe []) ++ [[ProtocolVersion]; [ProtocolVersion]] /\
    process 1 (holding (ProtocolVersion :: 2 :: 3 :: []) c2 b2) = Ok tt b3 /\
    protocolVersion b3 = (decimal 2 +:+ "." +:+ decimal 3)%string /\
    offers b3 = offers b ++ [OfferBool ch2].
Proof.
  intros b.
  apply (protocol_version_query_replaced 0 2 3 [] b (pipe [])); reflexivity.
Defined.

(** X15.  An analog message [0xE0 | channel, lo, hi], at hand on the
    transport, stores the 14-bit
    sample [lo | hi << 7] in the pin [analogPins[channel]] and offers
    that pin on its report channel; when the channel is not mapped, or
    the pin it is mapped to is not in the table, the message changes
    nothing. *)
Theorem analog_message_stored
    (fuel : nat) (channel lo hi : Z) (rest : list Z) (b : Client) (c : Conn) :
  connection b = Some c ->
  incoming c = Z.lor AnalogMessage channel :: lo :: hi :: rest ->
  0 <= channel <= 15 ->
  Forall (fun k => 0 <= k) (analogPins b) ->
  process (S fuel) b
  = Ok tt (analog_stored channel (unpack14 lo hi) (holding rest c b)).
Proof. exact (process_analog fuel channel lo hi rest b c). Qed.

Lemma analog_message_stored_witness :
  let b := feed [0xE1; 0x23; 0x06]
             (set_analogPins [14; 15] (set_pins (replicate 20 io_pin) New)) in
  process 1 b
  = Ok tt (analog_stored 1 (unpack14 0x23 0x06)
             (holding [] (pipe [0xE1; 0x23; 0x06]) b)).
Proof.
  intros b.
  apply (analog_message_stored 0 1 0x23 0x06 [] b (pipe [0xE1; 0x23; 0x06])).
  - reflexivity.
  - reflexivity.
  - lia.
  - repeat constructor; lia.
Defined.

(** X22.  When the transport refuses the write, [SetPinMode] and
    [AnalogWrite] return its error and leave the client untouched, while
    [DigitalWrite], which stores the value before it writes, returns the
    error with the new value already in the pin table. *)
Theorem failed_write_and_pin_table
    (b : Client) (c : Conn) (e : string) (p v m : Z) (pin : Pin) :
  connection b = Some c ->
  writeErr c = Some e ->
  index (pins b) p = Some pin ->
  p < 256 ->
  8 * (p / 8) + 8 <= len (pins b) ->
  SetPinMode p m b = Failed e b /\
  AnalogWrite p v b = Failed e b /\
  DigitalWrite p v b
  = Failed e (set_pins (<[Z.to_nat p := set_Value v pin]> (pins b)) b).
Proof.
  intros Hc He Hp Hbyte Hwhole. split; [| split].
  - unfold SetPinMode, bind. now rewrite (write_failed _ _ _ _ Hc He).
  - unfold AnalogWrite, bind. now rewrite (write_failed _ _ _ _ Hc He).
  - unfold DigitalWrite.
    rewrite (bind_ok _ _ _ _ _ (update_pin_ok _ _ _ _ Hp)).
    set (b1 := set_pins (<[Z.to_nat p := set_Value v pin]> (pins b)) b).
    pose proof (proj1 (proj1 (index_Some _ _ _) Hp)) as Hrange.
    assert (Hport : 0 <= p / 8 < 32) by (split; [apply Z.div_pos |
      apply Z.div_lt_upper_bound]; lia).
    rewrite (byte_of_small (p / 8)) by lia.
    assert (Hlen : len (pins b1) = len (pins b))
      by (subst b1; cbn [pins set_pins]; unfold len; now rewrite length_insert).
    destruct (port_mask_ok (p / 8) b1 [0; 1; 2; 3; 4; 5; 6; 7]) with
      (portValue := 0) as (mask & Hmask).
    { repeat constructor; try lia; rewrite byte_of_small; lia. }
    rewrite (bind_ok _ _ _ _ _ Hmask).
    now rewrite (write_failed _ b1 c e) by (subst b1; assumption).
Qed.

Lemma failed_write_and_pin_table_witness :
  let c := broken_pipe "broken pipe" in
  let b := set_connection (Some c) (set_pins (replicate 20 io_pin) New) in
  SetPinMode 2 Input b = Failed "broken pipe" b /\
  AnalogWrite 2 1 b = Failed "broken pipe" b /\
  DigitalWrite 2 1 b
  = Failed "broken pipe"
      (set_pins (<[Z.to_nat 2 := set_Value 1 io_pin]> (pins b)) b).
Proof.
  intros c b.
  apply (failed_write_and_pin_table b c "broken pipe" 2 1 Input io_pin).
  - reflexivity.
  - reflexivity.
  - reflexivity.
  - lia.
  - vm_compute. discriminate.
Defined.

(** X23.  The data bytes [I2cWrite] sends, two 7-bit bytes for each byte,
    are decoded by the I2CReply case of [process] to the bytes they were
    built from: a reply carrying the payload of [I2cWrite(address, data)],
    at hand on the reader's transport, offers [data] on [i2cChan], with address and register joined from
    their byte pairs. *)
Theorem i2c_write_read_back
    (bw : Client) (cw : Conn) (address v0 : Z) (data : list Z) :
  connection bw = Some cw ->
  writeErr cw = None ->
  Forall (fun val => 0 <= val < 256) (v0 :: data) ->
  exists payload,
    I2cWrite address (v0 :: data) bw
    = Ok tt
        (having_written (sysex ([I2CRequest; byte_of address; 0] ++ payload))
           cw bw) /\
    forall fuel a0 a1 r0 r1 rest br cr,
      connection br = Some cr ->
      incoming cr
      = sysex (I2CReply :: a0 :: a1 :: r0 :: r1 :: payload) ++ rest ->
      Forall (fun y => y <> EndSysex) [a1; r0; r1] ->
      (2 * length data + 8 < fuel)%nat ->
      process fuel br
      = Ok tt
          (set_offers
             (offers br
              ++ offered (i2cChan br)
                   (fun ch =>
                      OfferI2c ch
                        (mkI2cReply (byte_join a0 a1) (byte_join r0 r1)
                           (v0 :: data))))
             (holding rest cr br)).
Proof.
  intros Hc He Hbytes.
  exists (flat_map i2c_pair (v0 :: data)). split.
  - unfold I2cWrite, writeSysex.
    now rewrite (write_ok _ _ _ Hc He).
  - intros fuel a0 a1 r0 r1 rest br cr Hcr Hin Hno Hfuel.
    exact (process_i2c_pairs fuel a0 a1 r0 r1 v0 data rest br cr Hcr Hin Hno
             Hbytes Hfuel).
Qed.

Lemma i2c_write_read_back_witness :
  exists payload,
    I2cWrite 9 (152 :: [1; 154]) uno20
    = Ok tt
        (having_written (sysex ([I2CRequest; byte_of 9; 0] ++ payload))
           (pipe []) uno20) /\
    forall fuel a0 a1 r0 r1 rest br cr,
      connection br = Some cr ->
      incoming cr
      = sysex (I2CReply :: a0 :: a1 :: r0 :: r1 :: payload) ++ rest ->
      Forall (fun y => y <> EndSysex) [a1; r0; r1] ->
      (2 * length [1; 154] + 8 < fuel)%nat ->
      process fuel br
      = Ok tt
          (set_offers
             (offers br
              ++ offered (i2cChan br)
                   (fun ch =>
                      OfferI2c ch
                        (mkI2cReply (byte_join a0 a1) (byte_join r0 r1)
                           (152 :: [1; 154]))))
             (holding rest cr br)).
Proof.
  apply (i2c_write_read_back uno20 (pipe []) 9 152 [1; 154]).
  - reflexivity.
  - reflexivity.
  - repeat constructor; lia.
Defined.

(** X7.  [read(n)] on a transport that has at least [n > 0] bytes at
    hand returns exactly the first [n] of them, in one turn of its loop,
    and leaves the others on the transport. *)
Theorem read_returns_first_bytes
    (fuel : nat) (pre rest : list Z) (b : Client) (c : Conn) :
  connection b = Some c ->
  incoming c = pre ++ rest ->
  pre <> [] ->
  read (S fuel) (len pre) b = Ok pre (holding rest c b).
Proof. exact (read_exact fuel pre rest b c). Qed.

Lemma read_returns_first_bytes_witness :
  let b := feed [0xE0; 0x23; 0x05; 0x90] New in
  read 1 (len [0xE0; 0x23; 0x05]) b
  = Ok [0xE0; 0x23; 0x05] (holding [0x90] (pipe [0xE0; 0x23; 0x05; 0x90]) b).
Proof.
  intros b.
  apply (read_returns_first_bytes 0 [0xE0; 0x23; 0x05] [0x90] b
           (pipe [0xE0; 0x23; 0x05; 0x90])).
  - reflexivity.
  - reflexivity.
  - discriminate.
Defined.

(** X14.  [PinStateQuery(pin)] writes [F0 6D pin F7] and returns a fresh
    channel; the PinStateResponse for that pin, at hand on the transport
    and processed afterwards, stores the mode and the state in the pin (the state from one, two or
    three 7-bit bytes, lowest first) and offers the updated pin on that
    channel. *)
Theorem pin_state_query_answered
    (fuel : nat) (pin mode s0 : Z) (ext rest : list Z) (b : Client) (c : Conn)
    (p : Pin) :
  connection b = Some c ->
  writeErr c = None ->
  index (pins b) pin = Some p ->
  Forall (fun y => y <> EndSysex) (mode :: s0 :: ext) ->
  (length ext + 4 < fuel)%nat ->
  let p' := set_State (pin_state s0 ext) (set_Mode mode p) in
  exists ch b1 c1 b2,
    PinStateQuery_ pin b = Ok ch b1 /\
    connection b1 = Some c1 /\
    written c1 = written c ++ [sysex [PinStateQuery; byte_of pin]] /\
    process fuel
      (holding (sysex ([PinStateResponse; pin; mode; s0] ++ ext) ++ rest) c1 b1)
    = Ok tt b2 /\
    index (pins b2) pin = Some p' /\
    offers b2 = offers b ++ [OfferPin ch p'].
Proof.
  intros Hc He Hp Hno Hfuel p'.
  set (c1 := mkConn (incoming c)
               (written c ++ [sysex [PinStateQuery; byte_of pin]])
               (readErr c) (writeErr c) (closed c) (later c)).
  set (b0 := set_connection (Some c1) b).
  set (b1 := set_pinStateChan (<[pin := nextChan b0]> (pinStateChan b0))
               (set_nextChan (S (nextChan b0)) b0)).
  assert (H1 : PinStateQuery_ pin b = Ok (nextChan b0) b1).
  { unfold PinStateQuery_, writeSysex.
    rewrite (bind_ok _ _ _ _ _ (write_ok _ _ _ Hc He)). reflexivity. }
  set (data := sysex ([PinStateResponse; pin; mode; s0] ++ ext) ++ rest).
  eexists _, _, c1, _.
  split; [exact H1 |]. split; [reflexivity |]. split; [reflexivity |].
  split.
  - apply (process_pin_state fuel pin mode s0 ext rest (holding data c1 b1)
             (with_incoming data c1) p);
      [reflexivity | reflexivity | exact Hno | exact Hp | exact Hfuel].
  - cbn [pins offers set_offers set_pins holding set_connection pinStateChan
         b1 b0 set_pinStateChan set_nextChan].
    split.
    + exact (index_insert_same _ _ _ _ Hp).
    + rewrite lookup_insert_eq. reflexivity.
Qed.

Lemma pin_state_query_answered_witness :
  let p' := set_State (pin_state 1 []) (set_Mode 1 io_pin) in
  exists ch b1 c1 b2,
    PinStateQuery_ 13 uno20 = Ok ch b1 /\
    connection b1 = Some c1 /\
    written c1 = written (pipe []) ++ [sysex [PinStateQuery; byte_of 13]] /\
    process 5
      (holding (sysex ([PinStateResponse; 13; 1; 1] ++ []) ++ []) c1 b1)
    = Ok tt b2 /\
    index (pins b2) 13 = Some p' /\
    offers b2 = offers uno20 ++ [OfferPin ch p'].
Proof.
  apply (pin_state_query_answered 5 13 1 1 [] [] uno20 (pipe []) io_pin).
  - reflexivity.
  - reflexivity.
  - reflexivity.
  - repeat constructor; unfold EndSysex; lia.
  - cbn [length]; lia.
Defined.

(** X16.  [ReportAnalog(k, state)] with a non-zero state writes
    [0xC0 | k, 1] and returns a fresh channel registered under [k]; an
    analog message on a channel mapped to pin [k], at hand on the
    transport and processed afterwards, stores the sample in pin [k] and offers the pin on that channel. *)
Theorem report_analog_delivers
    (fuel : nat) (channel lo hi k state : Z) (rest : list Z)
    (b : Client) (c : Conn) (p : Pin) :
  connection b = Some c ->
  writeErr c = None ->
  0 <= channel <= 15 ->
  Forall (fun j => 0 <= j) (analogPins b) ->
  index (analogPins b) channel = Some k ->
  index (pins b) k = Some p ->
  state <> 0 ->
  exists ch b1 c1 b2,
    ReportAnalog_ k state b = Ok ch b1 /\
    connection b1 = Some c1 /\
    written c1 = written c ++ [[Z.lor ReportAnalog (byte_of k); 1]] /\
    process (S fuel)
      (holding (Z.lor AnalogMessage channel :: lo :: hi :: rest) c1 b1)
    = Ok tt b2 /\
    index (pins b2) k = Some (set_Value (unpack14 lo hi) p) /\
    offers b2 = offers b ++ [OfferPin ch (set_Value (unpack14 lo hi) p)].
Proof.
  intros Hc He Hch Hmap Hk Hp Hstate.
  set (c1 := mkConn (incoming c)
               (written c ++ [[Z.lor ReportAnalog (byte_of k); 1]])
               (readErr c) (writeErr c) (closed c) (later c)).
  set (b0 := set_connection (Some c1) b).
  set (b1 := set_pinReportChan (<[k := nextChan b0]> (pinReportChan b0))
               (set_nextChan (S (nextChan b0)) b0)).
  assert (H1 : ReportAnalog_ k state b = Ok (nextChan b0) b1).
  { unfold ReportAnalog_, togglePinReporting.
    replace (state =? 0) with false by (symmetry; apply Z.eqb_neq; exact Hstate).
    change (byte_of ReportAnalog) with ReportAnalog.
    change (byte_of 1) with 1.
    rewrite (bind_ok _ _ _ _ _ (write_ok _ _ _ Hc He)). reflexivity. }
  set (data := Z.lor AnalogMessage channel :: lo :: hi :: rest).
  eexists _, _, c1, _.
  split; [exact H1 |]. split; [reflexivity |]. split; [reflexivity |].
  split.
  - apply (process_analog fuel channel lo hi rest (holding data c1 b1)
             (with_incoming data c1));
      [reflexivity | reflexivity | exact Hch | exact Hmap].
  - unfold analog_stored.
    cbn [analogPins pins holding set_connection b1 b0 set_pinReportChan
         set_nextChan].
    rewrite Hk, Hp.
    cbn [pins offers set_offers set_pins pinReportChan holding set_connection
         b1 b0 set_pinReportChan set_nextChan].
    split.
    + exact (index_insert_same _ _ _ _ Hp).
    + rewrite lookup_insert_eq. reflexivity.
Qed.

Lemma report_analog_delivers_witness :
  let b := set_analogPins [14; 15] uno20 in
  exists ch b1 c1 b2,
    ReportAnalog_ 15 1 b = Ok ch b1 /\
    connection b1 = Some c1 /\
    written c1 = written (pipe []) ++ [[Z.lor ReportAnalog (byte_of 15); 1]] /\
    process 1 (holding (Z.lor AnalogMessage 1 :: 0x23 :: 0x06 :: []) c1 b1)
    = Ok tt b2 /\
    index (pins b2) 15 = Some (set_Value (unpack14 0x23 0x06) io_pin) /\
    offers b2 = offers b ++ [OfferPin ch (set_Value (unpack14 0x23 0x06) io_pin)].
Proof.
  intros b.
  apply (report_analog_delivers 0 1 0x23 0x06 15 1 [] b (pipe []) io_pin).
  - reflexivity.
  - reflexivity.
  - lia.
  - repeat constructor; lia.
  - reflexivity.
  - reflexivity.
  - discriminate.
Defined.
